(** * Bought-together analytics: pairs page and bundle pages

    A shallow embedding of the analytics code of the repository
    ([src/app/pairs/page.js] and the two bundle pages of
    [src/app/page.jsx]) and the proofs of its specified properties,
    followed by the views that the pages derive from the results, the
    part of the order synchronisation that decides what the dataset
    holds, and further properties of all of them.

    Conventions of the embedding.
    - A JavaScript string is a [string] of bytes; the character classes
      ([\s], [\w]) and [toLowerCase] are the ASCII ones.
    - A JavaScript number is a [jsnum]: a finite value is an exact
      rational, and [NaN] and the two infinities are explicit, so that a
      division by zero is visible.  Rounding of doubles is not modelled
      there; the one expression whose specified value depends on it, the
      lift, is also given in double precision ([Double]).
    - A JavaScript [Map] is an association list in insertion order
      ([JsMap]); a [Set] is a duplicate-free list in insertion order.
    - A field that may be [null] or [undefined] is an [option]. *)

From Stdlib Require Import ZArith QArith Lia Ascii DecimalString Sorted.
From Stdlib Require String.
From Stdlib Require Floats.SpecFloat.
From stdpp Require Import base list strings.

Local Open Scope nat_scope.

(** ** JavaScript strings *)

Module Js.

Definition is_space : ascii -> bool := Ascii.is_space.

Fixpoint trimStart (s : string) : string :=
  match s with
  | String c s' => if is_space c then trimStart s' else s
  | EmptyString => EmptyString
  end.

Fixpoint trimEnd (s : string) : string :=
  match s with
  | String c s' =>
      match trimEnd s' with
      | EmptyString => if is_space c then EmptyString else String c EmptyString
      | r => String c r
      end
  | EmptyString => EmptyString
  end.

(** [s.trim()] *)
Definition trim (s : string) : string := trimEnd (trimStart s).

(** [s.split(/\s+/).filter(Boolean)] *)
Definition words (s : string) : list string := String.words s.

Definition lower_char (c : ascii) : ascii :=
  let n := nat_of_ascii c in
  if (65 <=? n) && (n <=? 90) then ascii_of_nat (n + 32) else c.

Definition upper_char (c : ascii) : ascii :=
  let n := nat_of_ascii c in
  if (97 <=? n) && (n <=? 122) then ascii_of_nat (n - 32) else c.

Fixpoint toLowerCase (s : string) : string :=
  match s with
  | String c s' => String (lower_char c) (toLowerCase s')
  | EmptyString => EmptyString
  end.

(** [s.includes(sub)] *)
Fixpoint includes (s sub : string) : bool :=
  String.prefix sub s ||
  match s with
  | String _ s' => includes s' sub
  | EmptyString => false
  end.

(** [arr.join(sep)] *)
Definition join (sep : string) (l : list string) : string :=
  String.concat sep l.

(** [String(n)] for an integer [n] *)
Definition String_of_Z (z : Z) : string :=
  NilZero.string_of_int (Z.to_int z).

(** [String(x ?? "null")] and [String(x)] for [x] an integer or [null] *)
Definition String_of_id (x : option Z) : string :=
  match x with
  | Some z => String_of_Z z
  | None => "null"
  end.

(** [s.split("||")]: the pieces between the occurrences of the
    two-character separator, scanned from the left. *)
Fixpoint split_bars_go (cur : string) (s : string) : list string :=
  match s with
  | String "|" (String "|" rest) => String.rev cur :: split_bars_go "" rest
  | String c s' => split_bars_go (String c cur) s'
  | EmptyString => [String.rev cur]
  end.

Definition split_bars (s : string) : list string := split_bars_go "" s.

(** [s.split(/[,|\\/]+/)] up to empty pieces, which every caller
    filters out: the pieces between separator characters. *)
Definition is_part_sep (c : ascii) : bool :=
  match c with
  | "," | "|" | "\" | "/" => true
  | _ => false
  end%char.

Fixpoint split_parts_go (cur : string) (s : string) : list string :=
  match s with
  | String c s' =>
      if is_part_sep c then String.rev cur :: split_parts_go "" s'
      else split_parts_go (String c cur) s'
  | EmptyString => [String.rev cur]
  end.

Definition nonempty (s : string) : bool :=
  match s with EmptyString => false | _ => true end.

(** [String(mv).split(/[,|\\/]+/).map(p => p.trim()).filter(Boolean)] *)
Definition split_parts (s : string) : list string :=
  List.filter nonempty (trim <$> split_parts_go "" s).

(** [\w] *)
Definition is_word (c : ascii) : bool :=
  let n := nat_of_ascii c in
  ((48 <=? n) && (n <=? 57)) || ((65 <=? n) && (n <=? 90))
  || ((97 <=? n) && (n <=? 122)) || (n =? 95).

(** The rest of [s] after the prefix [p], compared without case. *)
Fixpoint strip_prefix_ci (p s : string) : option string :=
  match p, s with
  | EmptyString, _ => Some s
  | String a p', String b s' =>
      if Ascii.eqb (lower_char a) (lower_char b)
      then strip_prefix_ci p' s' else None
  | String _ _, EmptyString => None
  end.

Definition starts_with_word (s : string) : bool :=
  match s with
  | String c _ => is_word c
  | EmptyString => false
  end.

(** [new RegExp("\\b" + f + "\\b", "i").test(s)] for a word [f] made
    of letters: [f] occurs in [s], without regard to case, with no word
    character just before or just after. *)
Fixpoint word_test_go (f : string) (prev_word : bool) (s : string) : bool :=
  (negb prev_word &&
   match strip_prefix_ci f s with
   | Some rest => negb (starts_with_word rest)
   | None => false
   end) ||
  match s with
  | String c s' => word_test_go f (is_word c) s'
  | EmptyString => false
  end.

Definition word_test (f s : string) : bool := word_test_go f false s.

(** [s[0].toUpperCase() + s.slice(1)], and [s] itself when empty *)
Definition capitalize (s : string) : string :=
  match s with
  | String c s' => String (upper_char c) s'
  | EmptyString => EmptyString
  end.

(** [a ?? b] *)
Definition nullish {A} (a b : option A) : option A :=
  match a with
  | Some _ => a
  | None => b
  end.

(** [String(x || "")] for [x] a string, [null] or [undefined] *)
Definition or_empty (x : option string) : string := default "" x.

(** [a || b] on strings *)
Definition str_or (a b : string) : string := if nonempty a then a else b.

End Js.

(** ** JavaScript numbers *)

Module Num.

Inductive jsnum : Type :=
| NaN
| PosInf
| NegInf
| Fin (q : Q).

Definition of_nat (n : nat) : jsnum := Fin (inject_Z (Z.of_nat n)).
Definition of_Z (z : Z) : jsnum := Fin (inject_Z z).

(** The order of two numbers; [None] when one of them is [NaN], which
    makes every comparison false. *)
Definition compare (a b : jsnum) : option comparison :=
  match a, b with
  | NaN, _ | _, NaN => None
  | PosInf, PosInf | NegInf, NegInf => Some Eq
  | PosInf, _ | _, NegInf => Some Gt
  | NegInf, _ | _, PosInf => Some Lt
  | Fin x, Fin y => Some (x ?= y)%Q
  end.

(** [a < b], [a <= b], [a > b], [a >= b], [a === b] *)
Definition lt (a b : jsnum) : bool :=
  match compare a b with Some Lt => true | _ => false end.
Definition le (a b : jsnum) : bool :=
  match compare a b with Some Lt | Some Eq => true | _ => false end.
Definition gt (a b : jsnum) : bool :=
  match compare a b with Some Gt => true | _ => false end.
Definition ge (a b : jsnum) : bool :=
  match compare a b with Some Gt | Some Eq => true | _ => false end.
Definition strict_eq (a b : jsnum) : bool :=
  match compare a b with Some Eq => true | _ => false end.

Definition zero : jsnum := Fin 0.

(** [a * b] *)
Definition mul (a b : jsnum) : jsnum :=
  match a, b with
  | NaN, _ | _, NaN => NaN
  | Fin x, Fin y => Fin (x * y)
  | Fin x, PosInf | PosInf, Fin x =>
      match (x ?= 0)%Q with Eq => NaN | Gt => PosInf | Lt => NegInf end
  | Fin x, NegInf | NegInf, Fin x =>
      match (x ?= 0)%Q with Eq => NaN | Gt => NegInf | Lt => PosInf end
  | PosInf, PosInf | NegInf, NegInf => PosInf
  | PosInf, NegInf | NegInf, PosInf => NegInf
  end.

(** [a / b]; a zero divisor gives [NaN] or an infinity (the sign of a
    zero is not modelled). *)
Definition div (a b : jsnum) : jsnum :=
  match a, b with
  | NaN, _ | _, NaN => NaN
  | Fin x, Fin y =>
      if Qeq_bool y 0
      then match (x ?= 0)%Q with Eq => NaN | Gt => PosInf | Lt => NegInf end
      else Fin (x / y)
  | Fin _, (PosInf | NegInf) => Fin 0
  | (PosInf | NegInf), (PosInf | NegInf) => NaN
  | PosInf, Fin y => if Qle_bool 0 y then PosInf else NegInf
  | NegInf, Fin y => if Qle_bool 0 y then NegInf else PosInf
  end.

Definition is_finite (a : jsnum) : bool :=
  match a with Fin _ => true | _ => false end.

(** Two numbers denote the same value. *)
Definition same (a b : jsnum) : Prop :=
  match a, b with
  | Fin x, Fin y => (x == y)%Q
  | NaN, NaN | PosInf, PosInf | NegInf, NegInf => True
  | _, _ => False
  end.

(** [Number(x ?? 0)] for a numeric field [x] *)
Definition or_zero (x : option jsnum) : jsnum := default zero x.

End Num.

(** ** JavaScript [Map] with string keys, and [Array.prototype.sort] *)

Module JsMap.

Section Ops.
Context {V : Type}.

Fixpoint get (m : list (string * V)) (k : string) : option V :=
  match m with
  | [] => None
  | (k', v) :: r => if String.eqb k' k then Some v else get r k
  end.

Definition has (m : list (string * V)) (k : string) : bool :=
  match get m k with Some _ => true | None => false end.

(** [m.set(k, v)]: an existing key keeps its place, a new key goes
    last. *)
Fixpoint set (m : list (string * V)) (k : string) (v : V)
  : list (string * V) :=
  match m with
  | [] => [(k, v)]
  | (k', v') :: r =>
      if String.eqb k' k then (k', v) :: r else (k', v') :: set r k v
  end.

Definition entries (m : list (string * V)) : list (string * V) := m.
Definition values (m : list (string * V)) : list V := snd <$> m.
End Ops.

End JsMap.

Section Sort.
Context {A : Type} (cmp : A -> A -> comparison).

Fixpoint sort_insert (x : A) (l : list A) : list A :=
  match l with
  | [] => [x]
  | y :: r =>
      match cmp x y with
      | Gt => y :: sort_insert x r
      | _ => x :: y :: r
      end
  end.

(** [arr.sort(cmp)]: a stable sort, here by insertion; [cmp a b] is the
    sign of the comparator's result ([Lt] for a negative number). *)
Definition sort (l : list A) : list A := foldr sort_insert [] l.
End Sort.

(** ** The dataset

    The records of [orders.json], as the order synchronisation writes
    them.  Identifiers are integers or [null].  A numeric field holds the
    number that [Number(.)] reads from it (the store delivers amounts as
    decimal strings), or [None] when it is [null] or missing.  A meta
    value is the string [String(m.value)], or [None] when it is [null] or
    [undefined].  An order that is [null] behaves as an order all of whose
    fields are missing. *)

Record MetaDatum : Type := mkMeta {
  md_key : option string;
  md_value : option string
}.

Record LineItem : Type := mkLineItem {
  li_id : option Z;
  li_product_id : option Z;
  li_variation_id : option Z;
  li_name : option string;
  li_quantity : option Num.jsnum;
  li_subtotal : option Num.jsnum;
  li_total : option Num.jsnum;
  li_meta_data : list MetaDatum
}.

Record Order : Type := mkOrder {
  o_id : option Z;
  o_status : option string;
  o_total : option Num.jsnum;
  o_total_refunded : option Num.jsnum;
  o_date_paid : option string;
  o_date_completed : option string;
  o_date_created : option string;
  o_date_created_gmt : option string;
  o_date_modified : option string;
  o_line_items : list LineItem
}.

(** ** The pairs page ([src/app/pairs/page.js]) *)

Module Pairs.

Record Item : Type := mkItem { key : string; label : string }.

Record PairRow : Type := mkPairRow {
  A : option string;
  B : option string;
  support : nat;
  supportPct : Num.jsnum;
  countA : nat;
  countB : nat;
  confAtoB : Num.jsnum;
  confBtoA : Num.jsnum;
  lift : Num.jsnum
}.

Inductive SortBy : Type := BySupport | ByLift | ByConfAtoB | BySupportPct.

Definition GUMMIES_KEYWORDS : list string := ["gummi"; "gummies"].

Section Engine.
(** [new Date(s)]: the time value in milliseconds, or [None] for an
    invalid date. *)
Variable Date_parse : string -> option Z.

Definition toDateSafe (s : option string) : option Z :=
  match s with
  | Some s => if Js.nonempty s then Date_parse s else None
  | None => None
  end.

(** [if (fromIso) { const f = new Date(fromIso); if (dt < f) ... }] *)
Definition before (dt : Z) (iso : option string) : bool :=
  match iso with
  | Some s =>
      if Js.nonempty s
      then match Date_parse s with
           | Some f => (dt <? f)%Z
           | None => false
           end
      else false
  | None => false
  end.

Definition after (dt : Z) (iso : option string) : bool :=
  match iso with
  | Some s =>
      if Js.nonempty s
      then match Date_parse s with
           | Some t => (dt >? t)%Z
           | None => false
           end
      else false
  | None => false
  end.

Definition resolved_date (order : Order) : option string :=
  Js.nullish (o_date_paid order)
    (Js.nullish (o_date_completed order)
       (Js.nullish (o_date_created order) (o_date_created_gmt order))).

Definition isOrderEligible (order : Order) (fromIso toIso : option string)
  : bool :=
  let status := Js.toLowerCase (Js.or_empty (o_status order)) in
  if negb (String.eqb status "completed") then false else
  let total := Num.or_zero (o_total order) in
  let refunded := Num.or_zero (o_total_refunded order) in
  if Num.strict_eq total Num.zero || Num.ge refunded total then false else
  match toDateSafe (resolved_date order) with
  | None => true
  | Some dt =>
      if before dt fromIso then false
      else if after dt toIso then false
      else true
  end.

(** One turn of the loop over [rawItems]; the state is [items] and
    [sawGummiesLine]. *)
Definition line_step (st : list Item * bool) (li : LineItem)
  : list Item * bool :=
  let qty := Num.or_zero (li_quantity li) in
  let lineTotal := Num.or_zero (Js.nullish (li_total li) (li_subtotal li)) in
  if Num.le qty Num.zero then st else
  if Num.le lineTotal Num.zero then st else
  let name := Js.trim (Js.or_empty (li_name li)) in
  let lower := Js.toLowerCase name in
  if existsb (fun k => Js.includes lower k) GUMMIES_KEYWORDS
  then (st.1, true) else
  let pid := Js.nullish (li_product_id li) (li_id li) in
  let vid := default 0%Z (li_variation_id li) in
  let key := Js.String_of_id pid +:+ "::" +:+ Js.String_of_Z vid in
  let words := Js.words name in
  let label :=
    Js.str_or (Js.str_or (Js.join " " (take 2 words)) name)
              ("product-" +:+ Js.String_of_id pid) in
  (st.1 ++ [mkItem key label], st.2).

Definition uniq_step (uniq : list (string * Item)) (it : Item)
  : list (string * Item) :=
  if JsMap.has uniq (key it) then uniq else JsMap.set uniq (key it) it.

Definition extractItemsForOrder (order : Order) : list Item :=
  let '(items, sawGummiesLine) :=
    fold_left line_step (o_line_items order) ([], false) in
  let items :=
    if sawGummiesLine
    then items ++ [mkItem "gummies::consolidated" "Gummies"]
    else items in
  JsMap.values (fold_left uniq_step items []).

(** The aggregation state: [itemCounts], [pairCounts], [products]. *)
Record Counts : Type := mkCounts {
  itemCounts : list (string * nat);
  pairCounts : list (string * nat);
  products : list (string * string)
}.

(** [m.set(k, (m.get(k) || 0) + 1)] *)
Definition bump (m : list (string * nat)) (k : string)
  : list (string * nat) :=
  JsMap.set m k (default 0 (JsMap.get m k) + 1).

Definition item_step (st : Counts * list string) (it : Item)
  : Counts * list string :=
  let '(c, seenKeys) := st in
  let products' := JsMap.set (products c) (key it) (label it) in
  if existsb (String.eqb (key it)) seenKeys
  then (mkCounts (itemCounts c) (pairCounts c) products', seenKeys)
  else (mkCounts (bump (itemCounts c) (key it)) (pairCounts c) products',
        seenKeys ++ [key it]).

(** The index pairs [i < j] of the two nested loops, in loop order. *)
Fixpoint index_pairs (keys : list string) : list (string * string) :=
  match keys with
  | [] => []
  | a :: r => ((fun b => (a, b)) <$> r) ++ index_pairs r
  end.

Definition pairKey (ab : string * string) : string :=
  ab.1 +:+ "||" +:+ ab.2.

Definition pair_step (c : Counts) (ab : string * string) : Counts :=
  mkCounts (itemCounts c) (bump (pairCounts c) (pairKey ab)) (products c).

(** One turn of the loop over [eligible]. *)
Definition order_step (c : Counts) (ord : Order) : Counts :=
  let items := extractItemsForOrder ord in
  if length items <? 1 then c else
  let c1 := (fold_left item_step items (c, [])).1 in
  let keys := sort String.compare (key <$> items) in
  fold_left pair_step (index_pairs keys) c1.

Definition eligible (orders : list Order) (fromIso toIso : option string)
  : list Order :=
  List.filter (fun o => isOrderEligible o fromIso toIso) orders.

Definition aggregate (orders : list Order) (fromIso toIso : option string)
  : Counts :=
  fold_left order_step (eligible orders fromIso toIso)
            (mkCounts [] [] []).

(** [total > 0 ? (support / total) * 100 : 0] *)
Definition supportPct_of (total support : nat) : Num.jsnum :=
  if 0 <? total
  then Num.mul (Num.div (Num.of_nat support) (Num.of_nat total))
               (Num.of_nat 100)
  else Num.zero.

(** [countA > 0 ? support / countA : 0] *)
Definition conf_of (support countA : nat) : Num.jsnum :=
  if 0 <? countA
  then Num.div (Num.of_nat support) (Num.of_nat countA)
  else Num.zero.

(** [(total > 0 && countA > 0 && countB > 0)
     ? (support / total) / ((countA / total) * (countB / total)) : 0],
    in exact arithmetic; [Double.lift_of] below is the same expression in
    the doubles of the source. *)
Definition lift_of (total support countA countB : nat) : Num.jsnum :=
  if (0 <? total) && (0 <? countA) && (0 <? countB)
  then Num.div (Num.div (Num.of_nat support) (Num.of_nat total))
               (Num.mul (Num.div (Num.of_nat countA) (Num.of_nat total))
                        (Num.div (Num.of_nat countB) (Num.of_nat total)))
  else Num.zero.

(** [itemCounts.get(k) || 0], where [k] may be [undefined] *)
Definition count_of (itemCounts : list (string * nat))
           (k : option string) : nat :=
  default 0 (k ≫= JsMap.get itemCounts).

(** The row pushed for one entry of [pairCounts]. *)
Definition pair_row (total : nat) (itemCounts : list (string * nat))
           (pairKey : string) (cnt : nat) : PairRow :=
  let parts := Js.split_bars pairKey in
  let A := parts !! 0 in
  let B := parts !! 1 in
  let countA := count_of itemCounts A in
  let countB := count_of itemCounts B in
  let support := cnt in
  mkPairRow A B support (supportPct_of total support) countA countB
            (conf_of support countA) (conf_of support countB)
            (lift_of total support countA countB).

(** The comparator of [arr.sort]: the sign of [y.m - x.m].  The supports
    are integers; the other metrics are compared as exact numbers. *)
Definition row_cmp (sortBy : SortBy) (x y : PairRow) : comparison :=
  let by_num (m : PairRow -> Num.jsnum) :=
    default Eq (Num.compare (m y) (m x)) in
  match sortBy with
  | ByLift => by_num lift
  | ByConfAtoB => by_num confAtoB
  | BySupportPct => by_num supportPct
  | BySupport => Nat.compare (support y) (support x)
  end.

Record Result : Type := mkResult {
  pairs : list PairRow;
  totalEligibleOrders : nat
}.

(** The main computation: [pairs] and [totalEligibleOrders].  The third
    field of the source, [productsByKey], only feeds a drop-down list and
    is left out. *)
Definition compute (orders : list Order) (fromIso toIso : option string)
           (minCount : nat) (sortBy : SortBy) : Result :=
  let c := aggregate orders fromIso toIso in
  let total := length (eligible orders fromIso toIso) in
  let arr :=
    (fun e => pair_row total (itemCounts c) e.1 e.2) <$>
      (List.filter (fun e => negb (e.2 <? minCount))
         (JsMap.entries (pairCounts c))) in
  mkResult (sort (row_cmp sortBy) arr) total.

End Engine.

End Pairs.

(** ** The lift in double precision

    The numbers of the source are IEEE 754 binary64 values: precision 53,
    exponent bound 1024, rounding to nearest with ties to even.  The
    arithmetic is the one of [SpecFloat]. *)

Module Double.

Definition prec : Z := 53.
Definition emax : Z := 1024.

(** The double of a count; counts are exact up to [2^53]. *)
Definition of_nat (n : nat) : SpecFloat.spec_float :=
  SpecFloat.binary_normalize prec emax (Z.of_nat n) 0 false.

Definition div : SpecFloat.spec_float -> SpecFloat.spec_float
                 -> SpecFloat.spec_float :=
  SpecFloat.SFdiv prec emax.

Definition mul : SpecFloat.spec_float -> SpecFloat.spec_float
                 -> SpecFloat.spec_float :=
  SpecFloat.SFmul prec emax.

(** [(total > 0 && countA > 0 && countB > 0)
     ? (support / total) / ((countA / total) * (countB / total)) : 0] *)
Definition lift_of (total support countA countB : nat)
  : SpecFloat.spec_float :=
  if (0 <? total) && (0 <? countA) && (0 <? countB)
  then div (div (of_nat support) (of_nat total))
           (mul (div (of_nat countA) (of_nat total))
                (div (of_nat countB) (of_nat total)))
  else of_nat 0.

(** The rational number that a finite double stands for. *)
Definition value (x : SpecFloat.spec_float) : option Q :=
  match x with
  | SpecFloat.S754_zero _ => Some 0%Q
  | SpecFloat.S754_finite s m e =>
      Some ((if s then -1 else 1) * inject_Z (Z.pos m) * 2 ^ e)%Q
  | _ => None
  end.

End Double.

(** ** The bundle pages ([src/app/page.jsx])

    The file holds two pages that differ in three places only: the
    accepted statuses, the field that identifies an item (the display name
    in the first page, the product id in the second) and the [label] kept
    in a record.  One embedding covers both, with the page as a
    parameter. *)

Module Bundles.

Inductive Variant : Type := ByDisplayName | ByProductId.

Record BItem : Type := mkBItem {
  productId : string;
  displayName : string;
  fullName : string;
  variantId : string;
  variantName : string;
  flavors : option (list string)
}.

Record SampleRef : Type := mkSampleRef {
  s_id : option Z;
  s_date : option string
}.

Record Rec : Type := mkRec {
  count : nat;
  variants : list (string * nat);
  sample : list SampleRef;
  label : option string
}.

Record BundleRow : Type := mkBundleRow {
  r_bundle : string;
  r_idKey : option string;
  r_count : nat;
  r_variants : list (string * nat);
  r_sample : list SampleRef
}.

Definition GUMMIES_FLAVORS : list string :=
  ["grape"; "mango"; "watermelon"; "blueberry"; "lemon"; "pineapple"].

(** [set.add(x)] *)
Definition set_add (s : list string) (x : string) : list string :=
  if existsb (String.eqb x) s then s else s ++ [x].

(** [normalizeProductName(rawName)]: the fields [product] and
    [variant]. *)
Definition normalizeProductName (rawName : string) : string * string :=
  if negb (Js.nonempty rawName) then ("Unknown", "") else
  let name := Js.trim rawName in
  let lower := Js.toLowerCase name in
  if Js.includes lower "gummi" then ("Gummies", "") else
  let words := Js.words name in
  let short := Js.join " " (take 2 words) in
  (Js.str_or short name, Js.join " " (drop 2 words)).

(** [/flavor|flavour|size|color|variant|attribute/i.test(key)] *)
Definition is_variant_key (k : string) : bool :=
  let lower := Js.toLowerCase k in
  existsb (fun w => Js.includes lower w)
    ["flavor"; "flavour"; "size"; "color"; "variant"; "attribute"].

(** The flavors of [GUMMIES_FLAVORS] whose pattern matches [text], added
    to [set] in the order of the list. *)
Definition add_flavors (set : list string) (text : string) : list string :=
  fold_left (fun set f =>
               if Js.word_test f text then set_add set (Js.capitalize f)
               else set)
            GUMMIES_FLAVORS set.

(** One part [p] of a meta value in the fallback loop. *)
Definition part_step (set : list string) (p : string) : list string :=
  let '(set, found) :=
    fold_left (fun (st : list string * bool) f =>
                 if Js.word_test f p
                 then (set_add st.1 (Js.capitalize f), true) else st)
              GUMMIES_FLAVORS (set, false) in
  if negb found && (0 <? String.length p) then set_add set p else set.

Section Engine.
(** [a.localeCompare(b)], as the sign of its result. *)
Variable localeCompare : string -> string -> comparison.
Variable variant : Variant.
Variable explodeGummies : bool.

(** The field that identifies an item in this page. *)
Definition keyOf (it : BItem) : string :=
  match variant with
  | ByDisplayName => displayName it
  | ByProductId => productId it
  end.

Definition GUMMIES_KEY : string :=
  match variant with
  | ByDisplayName => "Gummies"
  | ByProductId => "gummies"
  end.

Definition status_ok (st : string) : bool :=
  match variant with
  | ByDisplayName =>
      String.eqb st "completed" || String.eqb st "processing"
  | ByProductId =>
      String.eqb st "completed" || String.eqb st "processing"
      || String.eqb st "paid"
  end.

Definition flavored (fv : string) : BItem :=
  mkBItem ("gummies-" +:+ fv) ("Gummies(" +:+ fv +:+ ")")
          ("Gummies(" +:+ fv +:+ ")") "0" "" None.

(** The state of the loop over [raw]: [nonGummies],
    [gummiesFlavorsSet], [sawAnyGummiesLine]. *)
Definition line_step (st : list BItem * list string * bool)
           (li : LineItem) : list BItem * list string * bool :=
  let '(nonGummies, gummiesFlavorsSet, sawAnyGummiesLine) := st in
  let rawName := Js.trim (Js.or_empty (li_name li)) in
  let pid := Js.nullish (li_product_id li) (li_id li) in
  let variationId := default 0%Z (li_variation_id li) in
  let metaValues := omap md_value (li_meta_data li) in
  let norm := normalizeProductName rawName in
  let displayName := norm.1 in
  if String.eqb displayName "Gummies" then
    let set1 := add_flavors gummiesFlavorsSet rawName in
    let set2 := fold_left add_flavors metaValues set1 in
    let set3 :=
      if (length set2 =? 0) && (0 <? length metaValues)
      then fold_left
             (fun set mv => fold_left part_step (Js.split_parts mv) set)
             metaValues set2
      else set2 in
    let nonGummies' :=
      if explodeGummies then
        if 0 <? length set3
        then nonGummies ++ (flavored <$> set3)
        else nonGummies ++
             [mkBItem "gummies-unspecified" "Gummies(Unspecified)"
                      "Gummies(Unspecified)" "0" "" None]
      else nonGummies in
    (nonGummies', set3, true)
  else
    let metaVariant :=
      match List.find (fun m => is_variant_key (Js.or_empty (md_key m)))
                      (li_meta_data li) with
      | Some meta => Js.or_empty (md_value meta)
      | None => ""
      end in
    (nonGummies ++
     [mkBItem (Js.String_of_id pid) displayName
              (Js.str_or rawName displayName)
              (Js.String_of_Z variationId)
              (Js.trim (Js.str_or (Js.str_or metaVariant norm.2) ""))
              None],
     gummiesFlavorsSet, sawAnyGummiesLine).

(** The dedupe loop of the consolidated mode. *)
Definition seen_step (seen : list (string * BItem)) (it : BItem)
  : list (string * BItem) :=
  let key := keyOf it in
  match JsMap.get seen key with
  | None => JsMap.set seen key it
  | Some existing =>
      match flavors existing, flavors it with
      | Some fe, Some fi =>
          if String.eqb (keyOf existing) GUMMIES_KEY
          then JsMap.set seen key
                 (mkBItem (productId existing) (displayName existing)
                          (fullName existing) (variantId existing)
                          (variantName existing)
                          (Some (fold_left set_add (fe ++ fi) [])))
          else seen
      | _, _ => seen
      end
  end.

(** The dedupe loop of the exploded mode. *)
Definition seen2_step (seen2 : list (string * BItem)) (it : BItem)
  : list (string * BItem) :=
  let key := keyOf it in
  if JsMap.has seen2 key then seen2 else JsMap.set seen2 key it.

Definition extractLineItems (order : Order) : list BItem :=
  let '(nonGummies, gummiesFlavorsSet, sawAnyGummiesLine) :=
    fold_left line_step (o_line_items order) ([], [], false) in
  if negb explodeGummies then
    let items :=
      if 0 <? length gummiesFlavorsSet
      then nonGummies ++
           [mkBItem "gummies" "Gummies" "Gummies" "0" ""
                    (Some gummiesFlavorsSet)]
      else if sawAnyGummiesLine
      then nonGummies ++
           [mkBItem "gummies" "Gummies" "Gummies" "0" ""
                    (Some ["Unspecified"])]
      else nonGummies in
    JsMap.values (fold_left seen_step items [])
  else
    JsMap.values (fold_left seen2_step nonGummies []).

(** [bt(i, start)]: [d] is [k - i], the number of slots of [cur] still
    to fill, [cur] is [cur[0..i)] and [rest] is [arr[start..n)].  The
    inner loop is the [for] over [j]. *)
Fixpoint bt {X : Type} (d : nat) (cur : list X) (rest : list X)
         (res : list (list X)) : list (list X) :=
  match d with
  | 0 => res ++ [cur]
  | S d' =>
      (fix loop (rest : list X) (res : list (list X)) : list (list X) :=
         match rest with
         | [] => res
         | x :: rest' => loop rest' (bt d' (cur ++ [x]) rest' res)
         end) rest res
  end.

Definition combinations {X : Type} (arr : list X) (k : nat)
  : list (list X) :=
  if length arr <? k then [] else bt k [] arr [].

Definition variantPartString (it : BItem) : string :=
  if String.eqb (displayName it) "Gummies" then
    let flavors := default [] (flavors it) in
    if length flavors =? 0 then "Gummies(Unspecified)" else
    "Gummies(" +:+ Js.join "," (sort localeCompare flavors) +:+ ")"
  else if Js.nonempty (variantName it)
  then displayName it +:+ "(" +:+ variantName it +:+ ")"
  else displayName it.

Definition sample_ref (order : Order) : SampleRef :=
  mkSampleRef (o_id order)
    (Js.nullish (o_date_created order)
       (Js.nullish (o_date_created_gmt order) (o_date_modified order))).

Definition upd {V : Type} (maps : nat -> V) (s : nat) (m : V)
  : nat -> V :=
  fun s' => if s' =? s then m else maps s'.

Definition bundleKey (comb : list BItem) : string :=
  Js.join " | " (keyOf <$> comb).

Definition variantKey (comb : list BItem) : string :=
  Js.join " | " (variantPartString <$> comb).

Definition new_rec (comb : list BItem) : Rec :=
  mkRec 0 [] []
        match variant with
        | ByDisplayName => None
        | ByProductId => Some (variantKey comb)
        end.

(** The body of the loop over [combs] for the size [s]. *)
Definition comb_step (order : Order) (s : nat)
           (maps : nat -> list (string * Rec)) (comb : list BItem)
  : nat -> list (string * Rec) :=
  let key := bundleKey comb in
  let m := maps s in
  let m := if JsMap.has m key then m else JsMap.set m key (new_rec comb) in
  match JsMap.get m key with
  | Some rec =>
      let variants' :=
        JsMap.set (variants rec) (variantKey comb)
                  (default 0 (JsMap.get (variants rec) (variantKey comb)) + 1) in
      let sample' :=
        if length (sample rec) <? 6
        then sample rec ++ [sample_ref order]
        else sample rec in
      upd maps s
          (JsMap.set m key
             (mkRec (count rec + 1) variants' sample' (label rec)))
  | None => maps
  end.

Definition sorted_items (order : Order) : list BItem :=
  sort (fun a b => localeCompare (keyOf a) (keyOf b))
       (extractLineItems order).

(** The loop over the sizes, up to [maxSize] (7 in the source). *)
Definition size_step (order : Order) (items : list BItem)
           (maps : nat -> list (string * Rec)) (s : nat)
  : nat -> list (string * Rec) :=
  if length items <? s then maps
  else fold_left (comb_step order s) (combinations items s) maps.

Definition is_eligible (order : Order) : bool :=
  status_ok (Js.toLowerCase (Js.or_empty (o_status order))).

Definition order_step (maxSize : nat)
           (maps : nat -> list (string * Rec)) (order : Order)
  : nat -> list (string * Rec) :=
  if negb (is_eligible order) then maps else
  let items := extractLineItems order in
  if length items <? 1 then maps else
  let items := sort (fun a b => localeCompare (keyOf a) (keyOf b)) items in
  fold_left (size_step order items) (seq 1 maxSize) maps.

Definition MAX_SIZE : nat := 7.

Definition build_maps (maxSize : nat) (orders : list Order)
  : nat -> list (string * Rec) :=
  fold_left (order_step maxSize) orders (fun _ => []).

Definition row_of (e : string * Rec) : BundleRow :=
  match variant with
  | ByDisplayName =>
      mkBundleRow e.1 None (count e.2) (variants e.2) (sample e.2)
  | ByProductId =>
      mkBundleRow (default "" (label e.2)) (Some e.1) (count e.2)
                  (variants e.2) (sample e.2)
  end.

(** [bundlesBySize]: the rows of the size [s]. *)
Definition bundlesBySize (orders : list Order) (s : nat)
  : list BundleRow :=
  sort (fun a b => Nat.compare (r_count b) (r_count a))
       (row_of <$> JsMap.entries (build_maps MAX_SIZE orders s)).

Definition totalEligibleOrders (orders : list Order) : nat :=
  fold_left (fun acc o => acc + (if is_eligible o then 1 else 0))
            orders 0.

End Engine.

End Bundles.

(** ** Sample data used by the examples below *)

Module Demo.

(** A date parser that knows three ISO strings (UTC). *)
Definition Date_parse (s : string) : option Z :=
  if String.eqb s "2024-03-01T00:00:00.000Z" then Some 1709251200000%Z
  else if String.eqb s "2024-03-15T10:00:00Z" then Some 1710496800000%Z
  else if String.eqb s "2024-03-31T23:59:59.000Z" then Some 1711929599000%Z
  else None.

Definition line (pid : Z) (name : string) (qty total : nat) : LineItem :=
  mkLineItem None (Some pid) None (Some name)
             (Some (Num.of_nat qty)) None (Some (Num.of_nat total)) [].

Definition order (id : Z) (status : string) (total refunded : nat)
           (date : option string) (lines : list LineItem) : Order :=
  mkOrder (Some id) (Some status) (Some (Num.of_nat total))
          (Some (Num.of_nat refunded)) None None date None None lines.

(** A completed order that was refunded in full. *)
Definition refunded_order : Order :=
  order 7 "completed" 40 40 None [line 11 "Protein Bar" 1 40].

(** A completed order with one line of quantity 0 and value 0. *)
Definition zero_line_order : Order :=
  order 8 "completed" 25 0 None
        [line 11 "Protein Bar" 1 25; line 12 "Free Sample" 0 0].

Definition dated_order : Order :=
  order 9 "completed" 25 0 (Some "2024-03-15T10:00:00Z")
        [line 11 "Protein Bar" 1 25].

(** Three resolved items with distinct names. *)
Definition item (pid name : string) : Bundles.BItem :=
  Bundles.mkBItem pid name name "0" "" None.

Definition three_items : list Bundles.BItem :=
  [item "12" "Whey Protein"; item "11" "Protein Bar"; item "13" "Creatine Mono"].

(** Two orders: a bar with a protein, and a bar alone. *)
Definition two_orders : list Order :=
  [order 1 "completed" 60 0 None
         [line 12 "Whey Protein" 1 35; line 11 "Protein Bar" 1 25;
          line 11 "Protein Bar" 2 50];
   order 2 "completed" 25 0 None [line 11 "Protein Bar" 1 25]].

(** One order whose four product names are made of punctuation.  The
    code-unit order and the default collation order agree on the four
    display names: ["!"], ["! |"], ["#2"], ["| #2"]. *)
Definition collision_order : Order :=
  order 3 "completed" 40 0 None
        [line 21 "! | x" 1 10; line 22 "#2" 1 10;
         line 23 "!" 1 10; line 24 "| #2" 1 10].

Definition collision_T : list Bundles.BItem :=
  [Bundles.mkBItem "21" "! |" "! | x" "0" "x" None; item "22" "#2"].

Definition collision_S : list Bundles.BItem := [item "22" "#2"].

(** Five later orders, each with the first and the last of these four
    products. *)
Definition collision_followers : list Order :=
  (fun id => order id "completed" 20 0 None
               [line 23 "!" 1 10; line 24 "| #2" 1 10])
    <$> [201; 202; 203; 204; 205]%Z.

(** Seven completed orders of the same product. *)
Definition seven_orders : list Order :=
  (fun id => order id "completed" 25 0 None [line 11 "Protein Bar" 1 25])
    <$> [101; 102; 103; 104; 105; 106; 107]%Z.

(** An order with two flavours of one bar, sold under two product ids. *)
Definition bar_chocolate : LineItem := line 11 "Protein Bar Chocolate" 1 25.
Definition bar_vanilla : LineItem := line 14 "Protein Bar Vanilla" 2 50.

Definition two_bars_order : Order :=
  order 4 "completed" 75 0 None [bar_chocolate; bar_vanilla].

(** The orders of the scenarios of the specification. *)
Definition order_XY : Order :=
  order 21 "completed" 20 0 None [line 1 "X" 1 10; line 2 "Y" 1 10].

Definition order_X : Order :=
  order 22 "completed" 10 0 None [line 1 "X" 1 10].

Definition order_pending : Order :=
  order 23 "pending" 20 0 None [line 1 "X" 1 10; line 2 "Y" 1 10].

Definition gummies_order : Order :=
  order 24 "completed" 30 0 None
        [mkLineItem None (Some 5%Z) None (Some "Sleep Gummies - Mango")
                    (Some (Num.of_nat 1)) None (Some (Num.of_nat 15)) [];
         mkLineItem None (Some 6%Z) None (Some "Gummies")
                    (Some (Num.of_nat 1)) None (Some (Num.of_nat 15))
                    [mkMeta (Some "pa_flavour") (Some "Grape")]].

End Demo.

(** ** Notions used in the statements *)

(** The sublists of [l] of length [k], those that keep the first element
    first. *)
Fixpoint combs {X : Type} (k : nat) (l : list X) : list (list X) :=
  match k, l with
  | 0, _ => [[]]
  | S _, [] => []
  | S k', x :: r => (cons x <$> combs k' r) ++ combs k r
  end.

(** The binomial coefficient, by Pascal's rule. *)
Fixpoint binom (n k : nat) : nat :=
  match n, k with
  | _, 0 => 1
  | 0, S _ => 0
  | S n', S k' => binom n' k' + binom n' k
  end.

(** The comparator is a total order on the strings of [ks]: not being
    greater is transitive, of two strings one is not greater than the
    other, and two strings neither of which is greater than the other are
    equal. *)
Definition total_on (cmp : string -> string -> comparison)
           (ks : list string) : Prop :=
  (forall a b c, a ∈ ks -> b ∈ ks -> c ∈ ks ->
                 cmp a b <> Gt -> cmp b c <> Gt -> cmp a c <> Gt) /\
  (forall a b, a ∈ ks -> b ∈ ks -> cmp a b = Gt -> cmp b a <> Gt) /\
  (forall a b, a ∈ ks -> b ∈ ks ->
               cmp a b <> Gt -> cmp b a <> Gt -> a = b).

(** The itemsets that the loop over the sizes [1..maxSize] goes through
    for the items of one order, in loop order. *)
Definition enumerate {X : Type} (maxSize : nat) (items : list X)
  : list (list X) :=
  flat_map (fun s => if length items <? s then []
                     else Bundles.combinations items s)
           (seq 1 maxSize).

(** The turns of the innermost loop of [bundlesBySize], in order: each is
    an accepted order with one of the combinations enumerated for it. *)
Definition order_events (localeCompare : string -> string -> comparison)
           (variant : Bundles.Variant) (explodeGummies : bool)
           (maxSize : nat) (order : Order)
  : list (Order * list Bundles.BItem) :=
  if negb (Bundles.is_eligible variant order) then [] else
  let items := Bundles.extractLineItems variant explodeGummies order in
  if length items <? 1 then [] else
  (fun c => (order, c)) <$>
    enumerate maxSize
      (sort (fun a b => localeCompare (Bundles.keyOf variant a)
                                      (Bundles.keyOf variant b)) items).

Definition events (localeCompare : string -> string -> comparison)
           (variant : Bundles.Variant) (explodeGummies : bool)
           (maxSize : nat) (orders : list Order)
  : list (Order * list Bundles.BItem) :=
  flat_map (order_events localeCompare variant explodeGummies maxSize) orders.

(** The turns that reach the record of the key [key] in the map of the
    size [s]. *)
Definition hits (variant : Bundles.Variant) (s : nat) (key : string)
           (evs : list (Order * list Bundles.BItem))
  : list (Order * list Bundles.BItem) :=
  List.filter (fun e => (length e.2 =? s)
                        && String.eqb (Bundles.bundleKey variant e.2) key)
              evs.

(** The order contributes to the itemset [key] of size [s]: it is
    accepted and one of the combinations enumerated for it has this size
    and this key. *)
Definition contributes (localeCompare : string -> string -> comparison)
           (variant : Bundles.Variant) (explodeGummies : bool)
           (maxSize : nat) (s : nat) (key : string) (order : Order) : bool :=
  existsb (fun e => (length e.2 =? s)
                    && String.eqb (Bundles.bundleKey variant e.2) key)
          (order_events localeCompare variant explodeGummies maxSize order).

(** One turn of the innermost loop of [bundlesBySize]. *)
Definition ev_step (localeCompare : string -> string -> comparison)
           (variant : Bundles.Variant)
           (maps : nat -> list (string * Bundles.Rec))
           (e : Order * list Bundles.BItem)
  : nat -> list (string * Bundles.Rec) :=
  Bundles.comb_step localeCompare variant e.1 (length e.2) maps e.2.

(** The maps record the turns [evs]: a record exists for a key exactly
    when some turn reached it, it counts these turns and its sample holds
    the references of the first six. *)
Definition agrees (variant : Bundles.Variant)
           (maps : nat -> list (string * Bundles.Rec))
           (evs : list (Order * list Bundles.BItem)) : Prop :=
  forall s key,
    match JsMap.get (maps s) key with
    | Some rec =>
        hits variant s key evs <> [] /\
        Bundles.count rec = length (hits variant s key evs) /\
        Bundles.sample rec
        = take 6 ((fun e => Bundles.sample_ref e.1) <$> hits variant s key evs)
    | None => hits variant s key evs = []
    end.

(** The string holds no ["|"], the character of the key separators. *)
Fixpoint bar_free (s : string) : bool :=
  match s with
  | String c s' => negb (Ascii.eqb c "|") && bar_free s'
  | EmptyString => true
  end.

(** [count] of the record of [key] in the map of the size [s], and 0 when
    there is none. *)
Definition count_at (maps : nat -> list (string * Bundles.Rec))
           (s : nat) (key : string) : nat :=
  default 0 (Bundles.count <$> JsMap.get (maps s) key).

(** The key that a line item resolves to in the pairs page: the key of
    the item it pushes, the consolidated key for a gummies line, and none
    for a line that is skipped. *)
Definition line_key (li : LineItem) : option string :=
  match Pairs.line_step ([], false) li with
  | (it :: _, _) => Some (Pairs.key it)
  | ([], true) => Some "gummies::consolidated"
  | ([], false) => None
  end.

(** [String(li?.name || "").trim()], the [rawName] of a line in the
    bundle pages. *)
Definition rawName_of (li : LineItem) : string :=
  Js.trim (Js.or_empty (li_name li)).

(** The display name that the bundle pages give to a line. *)
Definition display_of (li : LineItem) : string :=
  (Bundles.normalizeProductName (rawName_of li)).1.

(** The test [displayName === "Gummies"] of the bundle pages. *)
Definition is_gummies_line (li : LineItem) : bool :=
  String.eqb (display_of li) "Gummies".

(** The item that the bundle pages push for a line that is not a gummies
    line. *)
Definition plain_item (li : LineItem) : Bundles.BItem :=
  match Bundles.line_step false ([], [], false) li with
  | (it :: _, _, _) => it
  | _ => Bundles.mkBItem "" "" "" "" "" None
  end.

(** ** The view of the pairs page ([src/app/pairs/page.js])

    What the page derives from [pairs] and [productsByKey]: the filtered
    table, the also-bought list and the CSV text.  A computation that
    calls a method on [undefined] raises a [TypeError]; it is [None]
    here. *)

Module PairsView.

Record AlsoRow : Type := mkAlsoRow {
  productKey : option string;
  ab_support : nat;
  conf : Num.jsnum;
  ab_lift : Num.jsnum
}.

(** The double quote and the line feed. *)
Definition dquote : ascii := "034"%char.
Definition newline : ascii := "010"%char.

(** The [replace] of [downloadCSV]: every double quote becomes two. *)
Fixpoint escape_quotes (s : string) : string :=
  match s with
  | String c s' =>
      if Ascii.eqb c dquote
      then String dquote (String dquote (escape_quotes s'))
      else String c (escape_quotes s')
  | EmptyString => EmptyString
  end.

(** The field between quotes *)
Definition csv_field (s : string) : string :=
  String dquote (escape_quotes s +:+ String dquote EmptyString).

(** [rows.map(r => r.map(field => ...).join(",")).join("\n")], for rows
    whose fields are strings already. *)
Definition csv_text (rows : list (list string)) : string :=
  Js.join (String newline EmptyString)
          ((fun r => Js.join "," (csv_field <$> r)) <$> rows).

Section View.
(** [a.localeCompare(b)], as the sign of its result. *)
Variable localeCompare : string -> string -> comparison.

(** [productsByKey]: the entries of [products] in the order of their
    labels; a key of the pairs page is neither an array index nor a
    property of [Object.prototype], so that the object keeps the entries
    in this order and a lookup finds an entry or nothing. *)
Definition productsByKey (products : list (string * string))
  : list (string * string) :=
  sort (fun a b => localeCompare a.2 b.2) (JsMap.entries products).

(** [productsByKey[k] || k], where [k] may be [undefined]; the property
    name of [undefined] is ["undefined"]. *)
Definition label_or (pbk : list (string * string)) (k : option string)
  : option string :=
  match JsMap.get pbk (default "undefined" k) with
  | Some l => if Js.nonempty l then Some l else k
  | None => k
  end.

(** [labelFor(key)] *)
Definition labelFor (pbk : list (string * string)) (key : string) : string :=
  default key (label_or pbk (Some key)).

(** The callback of [arr.filter] in [displayedPairs]. *)
Definition row_matches (pbk : list (string * string)) (q : string)
           (p : Pairs.PairRow) : option bool :=
  let Ak := label_or pbk (Pairs.A p) in
  let Bk := label_or pbk (Pairs.B p) in
  match Ak with
  | None => None
  | Some Ak =>
      if Js.includes (Js.toLowerCase Ak) q then Some true
      else match Bk with
           | None => None
           | Some Bk => Some (Js.includes (Js.toLowerCase Bk) q)
           end
  end.

Fixpoint filter_rows (pbk : list (string * string)) (q : string)
         (arr : list Pairs.PairRow) : option (list Pairs.PairRow) :=
  match arr with
  | [] => Some []
  | p :: r =>
      match row_matches pbk q p with
      | None => None
      | Some keep =>
          match filter_rows pbk q r with
          | None => None
          | Some r' => Some (if keep then p :: r' else r')
          end
      end
  end.

Definition displayedPairs (pbk : list (string * string))
           (pairs : list Pairs.PairRow) (query : string) (topN : nat)
  : option (list Pairs.PairRow) :=
  let q := Js.toLowerCase (Js.trim query) in
  if Js.nonempty q
  then take topN <$> filter_rows pbk q pairs
  else Some (take topN pairs).

End View.

(** One turn of the loop of [alsoBought]. *)
Definition also_step (selectedProductKey : string) (acc : list AlsoRow)
           (p : Pairs.PairRow) : list AlsoRow :=
  if bool_decide (Pairs.A p = Some selectedProductKey)
  then acc ++ [mkAlsoRow (Pairs.B p) (Pairs.support p) (Pairs.confAtoB p)
                         (Pairs.lift p)]
  else if bool_decide (Pairs.B p = Some selectedProductKey)
  then acc ++ [mkAlsoRow (Pairs.A p) (Pairs.support p) (Pairs.confBtoA p)
                         (Pairs.lift p)]
  else acc.

Definition alsoBought (pairs : list Pairs.PairRow)
           (selectedProductKey : string) : list AlsoRow :=
  if negb (Js.nonempty selectedProductKey) then [] else
  sort (fun a b => Nat.compare (ab_support b) (ab_support a))
       (fold_left (also_step selectedProductKey) pairs []).

End PairsView.

(** ** The view of the bundle pages ([src/app/page.jsx]) *)

Module BundlesView.

Definition PALETTE : list string :=
  ["#1F4B99"; "#0B7546"; "#B43E3E"; "#D97706"; "#7C3AED";
   "#065F46"; "#0EA5A4"; "#BE185D"; "#114D8C"; "#92400E"].

(** [s.charCodeAt(i)] *)
Definition charCode (c : ascii) : Z := Z.of_nat (nat_of_ascii c).

(** The loop of [colorFor]: [h = (h * 31 + s.charCodeAt(i)) >>> 0], the
    unsigned shift being the remainder modulo [2^32]. *)
Fixpoint hash_from (h : Z) (s : string) : Z :=
  match s with
  | String c s' => hash_from ((h * 31 + charCode c) mod 2 ^ 32)%Z s'
  | EmptyString => h
  end.

(** [colorFor(s)]; [None] stands for [undefined], the value of an index
    outside the array. *)
Definition colorFor (s : string) : option string :=
  if negb (Js.nonempty s) then PALETTE !! 0 else
  let h := hash_from 0 s in
  PALETTE !! Z.to_nat (h mod Z.of_nat (length PALETTE))%Z.

(** [sizesToShow], for [selectedSize] a natural number: [s] is
    [Number(selectedSize) || 1]. *)
Definition sizesToShow (selectedSize : nat) (showRangeToEnd : bool)
  : list nat :=
  let s := if selectedSize =? 0 then 1 else selectedSize in
  if showRangeToEnd then seq s (8 - s) else [s].

Section View.
Variable localeCompare : string -> string -> comparison.
Variable variant : Bundles.Variant.
Variable explodeGummies : bool.

(** [combinedList]: the rows of the sizes shown, each with its size, in
    descending order of their counts. *)
Definition combinedList (orders : list Order) (selectedSize : nat)
           (showRangeToEnd : bool) : list (nat * Bundles.BundleRow) :=
  sort (fun a b => Nat.compare (Bundles.r_count b.2) (Bundles.r_count a.2))
       (flat_map
          (fun size =>
             (fun b => (size, b)) <$>
               Bundles.bundlesBySize localeCompare variant explodeGummies
                                     orders size)
          (sizesToShow selectedSize showRangeToEnd)).

End View.

End BundlesView.

(** ** The order synchronisation ([app/api/sync-orders/route.js])

    The part that decides what [orders.json] holds: the fields that are
    kept of an order and of its lines.  Of the fields that are kept, the
    ones that no page reads ([number], [currency], the taxes, the
    shipping totals, [customer_id], [billing]) are not in the records. *)

Module Sync.

(** The entry kept of a meta datum: its key as a string, the empty
    string for a key that is missing, and its value. *)
Definition simplifyMeta (m : MetaDatum) : MetaDatum :=
  mkMeta (Some (Js.or_empty (md_key m))) (md_value m).

Definition simplifyLineItem (li : LineItem) : LineItem :=
  mkLineItem (li_id li) (li_product_id li) (li_variation_id li) (li_name li)
             (li_quantity li) (li_subtotal li) (li_total li)
             (simplifyMeta <$> li_meta_data li).

(** [simplifyOrder(o)]: [total_refunded], [date_paid] and
    [date_completed] are not among the fields that are kept. *)
Definition simplifyOrder (o : Order) : Order :=
  mkOrder (o_id o) (o_status o) (o_total o) None None None
          (o_date_created o) (o_date_created_gmt o) (o_date_modified o)
          (simplifyLineItem <$> o_line_items o).

(** An element of the array read from the file, or of a page of the
    store, as the guard [o && typeof o.id !== "undefined"] sees it: a
    value that is falsy ([null]), a value with no field [id], or an order
    with a field [id], which holds an integer or [null]. *)
Inductive Entry : Type :=
| Falsy
| NoId (o : Order)
| WithId (o : Order).

(** [o && typeof o.id !== "undefined"], with the order that passes. *)
Definition guarded (e : Entry) : option Order :=
  match e with
  | WithId o => Some o
  | Falsy | NoId _ => None
  end.

(** The key of the dedupe map, [String(o.id)]. *)
Definition idKey (o : Order) : string := Js.String_of_id (o_id o).

(** One turn of the loop that fills [existingMap] from the array of the
    file. *)
Definition load_step (existingMap : list (string * Order)) (e : Entry)
  : list (string * Order) :=
  match guarded e with
  | Some o => JsMap.set existingMap (idKey o) o
  | None => existingMap
  end.

Definition load_existing (arr : list Entry) : list (string * Order) :=
  fold_left load_step arr [].

(** One turn of the loop that adds the orders of a page to
    [existingMap]. *)
Definition add_step (existingMap : list (string * Order)) (e : Entry)
  : list (string * Order) :=
  match guarded e with
  | Some rawOrder =>
      JsMap.set existingMap (idKey rawOrder) (simplifyOrder rawOrder)
  | None => existingMap
  end.

Definition add_page (existingMap : list (string * Order))
           (pageOrders : list Entry) : list (string * Order) :=
  fold_left add_step pageOrders existingMap.

(** [Array.from(existingMap.values())], the array written to the
    file. *)
Definition merged (existingMap : list (string * Order)) : list Order :=
  JsMap.values existingMap.

End Sync.

(** ** Notions used in the further properties *)

(** Some line of the order resolves to the key [k] in the pairs page. *)
Definition resolves_to (ord : Order) (k : string) : bool :=
  existsb (fun li => bool_decide (line_key li = Some k)) (o_line_items ord).

(** The number of eligible orders of the pairs page in which every key of
    [ks] is resolved by some line. *)
Definition orders_with (Date_parse : string -> option Z)
           (orders : list Order) (fromIso toIso : option string)
           (ks : list string) : nat :=
  length (List.filter (fun o => forallb (resolves_to o) ks)
            (Pairs.eligible Date_parse orders fromIso toIso)).

(** The shape of an entry of [pairCounts]: two keys without a bar, the
    smaller one first, met at least once. *)
Definition pair_entry_ok (e : string * nat) : Prop :=
  exists a b, e.1 = Pairs.pairKey (a, b) /\ bar_free a = true
              /\ bar_free b = true /\ String.compare a b = Lt /\ 1 <= e.2.

(** [o'] is the order [o] with its lines in another order. *)
Definition relined (o o' : Order) : Prop :=
  o_line_items o ≡ₚ o_line_items o' /\
  o' = mkOrder (o_id o) (o_status o) (o_total o) (o_total_refunded o)
               (o_date_paid o) (o_date_completed o) (o_date_created o)
               (o_date_created_gmt o) (o_date_modified o) (o_line_items o').

(** The dataset [orders'] holds the orders of [orders] in any order, each
    of them with its lines in any order. *)
Definition reshuffled (orders orders' : list Order) : Prop :=
  exists mid, Forall2 relined orders mid /\ mid ≡ₚ orders'.

(** Some item of the order has the key [k] in the bundle pages. *)
Definition has_item (variant : Bundles.Variant) (explodeGummies : bool)
           (ord : Order) (k : string) : bool :=
  existsb (String.eqb k)
          (Bundles.keyOf variant <$>
           Bundles.extractLineItems variant explodeGummies ord).

(** The line counts in the pairs page: neither its quantity nor its
    value is zero or less. *)
Definition sold (li : LineItem) : bool :=
  negb (Num.le (Num.or_zero (li_quantity li)) Num.zero)
  && negb (Num.le (Num.or_zero (Js.nullish (li_total li) (li_subtotal li)))
                  Num.zero).

(** The name of the line holds one of the gummies keywords. *)
Definition names_gummies (li : LineItem) : bool :=
  existsb (fun k => Js.includes
                      (Js.toLowerCase (Js.trim (Js.or_empty (li_name li)))) k)
          Pairs.GUMMIES_KEYWORDS.

(** The key [pid::vid] that the pairs page gives to a line. *)
Definition product_key (li : LineItem) : string :=
  Js.String_of_id (Js.nullish (li_product_id li) (li_id li))
  +:+ "::" +:+ Js.String_of_Z (default 0%Z (li_variation_id li)).

(** The items of the eligible orders of the pairs page, in the order in
    which the loops go through them. *)
Definition resolved_items (Date_parse : string -> option Z)
           (orders : list Order) (fromIso toIso : option string)
  : list Pairs.Item :=
  flat_map Pairs.extractItemsForOrder
           (Pairs.eligible Date_parse orders fromIso toIso).


(** * Properties *)

(** ** Maps *)

Section JsMapFacts.
Context {V : Type}.
Implicit Types (m : list (string * V)) (k : string) (v : V).

Lemma get_set_eq m k v : JsMap.get (JsMap.set m k v) k = Some v.
Proof.
  induction m as [|[k' v'] m IH]; simpl.
  - rewrite String.eqb_refl. reflexivity.
  - destruct (String.eqb_spec k' k) as [->|Hne]; simpl.
    + rewrite String.eqb_refl. reflexivity.
    + destruct (String.eqb_spec k' k); [contradiction | exact IH].
Qed.

Lemma get_set_ne m k k' v :
  k <> k' -> JsMap.get (JsMap.set m k v) k' = JsMap.get m k'.
Proof.
  intros Hne. induction m as [|[k0 v0] m IH]; simpl.
  - destruct (String.eqb_spec k k'); [contradiction | reflexivity].
  - destruct (String.eqb_spec k0 k) as [->|Hk]; simpl.
    + destruct (String.eqb_spec k k'); [contradiction | reflexivity].
    + destruct (String.eqb_spec k0 k'); [reflexivity | exact IH].
Qed.

Lemma has_get m k : JsMap.has m k = true <-> is_Some (JsMap.get m k).
Proof.
  unfold JsMap.has. destruct (JsMap.get m k); split; intros H;
    try reflexivity; try discriminate; [by eexists | by destruct H].
Qed.

Lemma get_elem_of m k v : JsMap.get m k = Some v -> (k, v) ∈ m.
Proof.
  induction m as [|[k' v'] m IH]; simpl; [discriminate|].
  destruct (String.eqb_spec k' k) as [->|Hne].
  - intros [= ->]. left.
  - intros H. right. apply IH, H.
Qed.

Lemma elem_of_get m k v :
  NoDup (fst <$> m) -> (k, v) ∈ m -> JsMap.get m k = Some v.
Proof.
  induction m as [|[k' v'] m IH]; simpl; intros Hnd Hin; [inversion Hin|].
  apply NoDup_cons in Hnd as [Hk Hnd].
  destruct (String.eqb_spec k' k) as [->|Hne].
  - apply elem_of_cons in Hin as [[= ->]|Hin]; [reflexivity|].
    exfalso. apply Hk. apply list_elem_of_fmap. by exists (k, v).
  - apply elem_of_cons in Hin as [[= -> ->]|Hin]; [contradiction|].
    apply IH; assumption.
Qed.

Lemma set_keys_new m k v :
  JsMap.get m k = None -> fst <$> JsMap.set m k v = (fst <$> m) ++ [k].
Proof.
  induction m as [|[k' v'] m IH]; [reflexivity|].
  cbn [JsMap.get JsMap.set].
  destruct (String.eqb_spec k' k); [discriminate|].
  intros H. rewrite !fmap_cons, IH by assumption. reflexivity.
Qed.

Lemma set_keys_old m k v :
  is_Some (JsMap.get m k) -> fst <$> JsMap.set m k v = fst <$> m.
Proof.
  induction m as [|[k' v'] m IH]; [intros [? [=]]|].
  cbn [JsMap.get JsMap.set].
  destruct (String.eqb_spec k' k); [reflexivity|].
  intros H. rewrite !fmap_cons, IH by assumption. reflexivity.
Qed.

Lemma get_None_keys m k : JsMap.get m k = None <-> k ∉ (fst <$> m).
Proof.
  induction m as [|[k' v'] m IH]; simpl.
  - split; [intros _ H; inversion H | reflexivity].
  - rewrite not_elem_of_cons. destruct (String.eqb_spec k' k) as [->|Hne].
    + split; [discriminate | intros [H _]; contradiction].
    + rewrite IH. split; [intros H; split; [congruence | exact H] | tauto].
Qed.

End JsMapFacts.

(** ** Strings and separators *)

Section StringFacts.

Lemma app_String c a b : String c a +:+ b = String c (a +:+ b).
Proof. reflexivity. Qed.

Lemma app_empty b : "" +:+ b = b.
Proof. reflexivity. Qed.

Lemma bar_free_app a b : bar_free (a +:+ b) = bar_free a && bar_free b.
Proof.
  induction a as [|c a IH]; [reflexivity|].
  rewrite app_String. cbn [bar_free]. rewrite IH, andb_assoc. reflexivity.
Qed.

Lemma bar_free_head c s : bar_free (String c s) = true -> c <> "|"%char.
Proof.
  cbn [bar_free]. intros H ->. discriminate.
Qed.

Lemma bar_free_tail c s : bar_free (String c s) = true -> bar_free s = true.
Proof. cbn [bar_free]. intros H. apply andb_true_iff in H. tauto. Qed.

(** A separator that starts with a space and a bar cuts a string in one
    way only when the part before it is free of bars. *)
Lemma cut_unique (sep : string) a a' r r' :
  bar_free a = true -> bar_free a' = true ->
  a +:+ String "|" sep +:+ r = a' +:+ String "|" sep +:+ r' ->
  a = a' /\ sep +:+ r = sep +:+ r'.
Proof.
  revert a'. induction a as [|c a IH]; intros [|c' a'] Ha Ha' E.
  - rewrite !app_empty, !app_String in E. injection E as E. auto.
  - rewrite app_empty, !app_String in E. injection E as Ec _.
    apply bar_free_head in Ha'. congruence.
  - rewrite app_empty, !app_String in E. injection E as Ec _.
    apply bar_free_head in Ha. congruence.
  - rewrite !app_String in E. injection E as -> E.
    apply bar_free_tail in Ha. apply bar_free_tail in Ha'.
    destruct (IH a' Ha Ha' E) as [-> Hr]. auto.
Qed.

Lemma join_cons2 sep x y l :
  Js.join sep (x :: y :: l) = x +:+ sep +:+ Js.join sep (y :: l).
Proof. reflexivity. Qed.

(** Splitting at [" | "]: the piece before it is free of bars, so the
    space-bar-space cut is found by its bar. *)
Lemma cut_bundle a a' r r' :
  bar_free a = true -> bar_free a' = true ->
  a +:+ " | " +:+ r = a' +:+ " | " +:+ r' ->
  a = a' /\ r = r'.
Proof.
  revert a'. induction a as [|c a IH]; intros [|c' a'] Ha Ha' E.
  - rewrite !app_empty in E. injection E as E. auto.
  - rewrite ?app_empty, ?app_String in E. injection E as Ec E.
    destruct a' as [|c'' a'']; rewrite ?app_empty, ?app_String in E.
    + discriminate E.
    + injection E as Ec' _.
      apply bar_free_tail, bar_free_head in Ha'. congruence.
  - rewrite ?app_empty, ?app_String in E. injection E as Ec E.
    destruct a as [|c'' a'']; rewrite ?app_empty, ?app_String in E.
    + discriminate E.
    + injection E as Ec' _.
      apply bar_free_tail, bar_free_head in Ha. congruence.
  - rewrite !app_String in E. injection E as -> E.
    apply bar_free_tail in Ha. apply bar_free_tail in Ha'.
    destruct (IH a' Ha Ha' E) as [-> Hr]. auto.
Qed.

(** Joining with [" | "] is injective on lists of equal length whose
    strings are free of bars. *)
Lemma join_bundle_inj (xs : list string) : forall ys,
  length xs = length ys ->
  forallb bar_free xs = true -> forallb bar_free ys = true ->
  Js.join " | " xs = Js.join " | " ys -> xs = ys.
Proof.
  induction xs as [|x xs IH]; intros [|y ys] Hlen Hx Hy E;
    try discriminate; [reflexivity|].
  cbn [forallb] in Hx, Hy.
  apply andb_true_iff in Hx as [Hx Hxs]. apply andb_true_iff in Hy as [Hy Hys].
  destruct xs as [|x2 xs], ys as [|y2 ys]; try discriminate.
  - simpl in E. congruence.
  - rewrite !join_cons2 in E.
    destruct (cut_bundle x y _ _ Hx Hy E) as [-> E'].
    f_equal. apply IH; [simpl in *; lia | assumption..].
Qed.

End StringFacts.

(** ** Numbers and metrics *)

Section NumFacts.
Import Num.

Lemma inject_nat_pos (n : nat) : 0 < n -> (0 < inject_Z (Z.of_nat n))%Q.
Proof. intros Hn. unfold Qlt. simpl. lia. Qed.

Lemma div_fin (x y : Q) : ~ (y == 0)%Q -> div (Fin x) (Fin y) = Fin (x / y).
Proof.
  intros Hy. simpl. destruct (Qeq_bool y 0) eqn:E; [|reflexivity].
  apply Qeq_bool_iff in E. contradiction.
Qed.

Lemma Qpos_neq0 (x : Q) : (0 < x)%Q -> ~ (x == 0)%Q.
Proof. intros Hx E. rewrite E in Hx. exact (Qlt_irrefl 0 Hx). Qed.

Lemma Qdiv_pos (x y : Q) : (0 < x)%Q -> (0 < y)%Q -> (0 < x / y)%Q.
Proof.
  intros Hx Hy. unfold Qdiv. apply Qmult_lt_0_compat; [exact Hx|].
  apply Qinv_lt_0_compat. exact Hy.
Qed.

Lemma div_nat_fin (a b : nat) :
  0 < b ->
  div (of_nat a) (of_nat b)
  = Fin (inject_Z (Z.of_nat a) / inject_Z (Z.of_nat b)).
Proof.
  intros Hb. unfold of_nat. apply div_fin, Qpos_neq0, inject_nat_pos, Hb.
Qed.

Lemma Qmult_comm_eq (x y : Q) : (x * y)%Q = (y * x)%Q.
Proof.
  unfold Qmult. f_equal; [apply Z.mul_comm | apply Pos.mul_comm].
Qed.

Lemma mul_comm (a b : jsnum) : mul a b = mul b a.
Proof.
  destruct a, b; simpl; try reflexivity. f_equal. apply Qmult_comm_eq.
Qed.
End NumFacts.

Section MetricFacts.
Import Num Pairs.

Lemma supportPct_of_finite total support :
  is_finite (supportPct_of total support) = true.
Proof.
  unfold supportPct_of. destruct (Nat.ltb_spec 0 total); [|reflexivity].
  rewrite div_nat_fin by assumption. reflexivity.
Qed.

Lemma conf_of_finite support countA :
  is_finite (conf_of support countA) = true.
Proof.
  unfold conf_of. destruct (Nat.ltb_spec 0 countA); [|reflexivity].
  rewrite div_nat_fin by assumption. reflexivity.
Qed.

(** The value of the lift when the three guards hold. *)
Lemma lift_of_value total support countA countB :
  0 < total -> 0 < countA -> 0 < countB ->
  lift_of total support countA countB
  = Fin ((inject_Z (Z.of_nat support) / inject_Z (Z.of_nat total))
         / ((inject_Z (Z.of_nat countA) / inject_Z (Z.of_nat total))
            * (inject_Z (Z.of_nat countB) / inject_Z (Z.of_nat total)))).
Proof.
  intros Ht Ha Hb. unfold lift_of.
  destruct (Nat.ltb_spec 0 total); [|lia].
  destruct (Nat.ltb_spec 0 countA); [|lia].
  destruct (Nat.ltb_spec 0 countB); [|lia].
  simpl andb. cbv iota.
  rewrite !div_nat_fin by assumption.
  cbn [mul]. apply div_fin, Qpos_neq0.
  apply Qmult_lt_0_compat; apply Qdiv_pos; apply inject_nat_pos; assumption.
Qed.

Lemma lift_of_finite total support countA countB :
  is_finite (lift_of total support countA countB) = true.
Proof.
  destruct (Nat.ltb_spec 0 total) as [Ht|Ht];
    [destruct (Nat.ltb_spec 0 countA) as [Ha|Ha];
     [destruct (Nat.ltb_spec 0 countB) as [Hb|Hb]|]|].
  - rewrite lift_of_value by assumption. reflexivity.
  - unfold lift_of. replace (0 <? countB) with false
      by (symmetry; apply Nat.ltb_ge; lia).
    rewrite andb_false_r. reflexivity.
  - unfold lift_of. replace (0 <? countA) with false
      by (symmetry; apply Nat.ltb_ge; lia).
    rewrite andb_false_r. reflexivity.
  - unfold lift_of. replace (0 <? total) with false
      by (symmetry; apply Nat.ltb_ge; lia).
    reflexivity.
Qed.

Lemma lift_of_swap total support countA countB :
  lift_of total support countA countB = lift_of total support countB countA.
Proof.
  unfold lift_of.
  rewrite (mul_comm (div (of_nat countA) (of_nat total))).
  destruct (0 <? total), (0 <? countA), (0 <? countB); reflexivity.
Qed.

(** C3: zero-division safety of the metrics.  Every metric of a row of
    the pairs result is a finite number, whatever the counts; the
    support percentage is 0 when there is no eligible order, a
    confidence is 0 when its item count is 0, and the lift is 0 when the
    number of eligible orders or one of the two item counts is 0. *)
Theorem metrics_zero_division_safe
        (total : nat) (itemCounts : list (string * nat))
        (pairKey : string) (cnt : nat) :
  let r := pair_row total itemCounts pairKey cnt in
  (is_finite (supportPct r) = true /\ is_finite (confAtoB r) = true /\
   is_finite (confBtoA r) = true /\ is_finite (lift r) = true) /\
  (total = 0 -> supportPct r = zero) /\
  (countA r = 0 -> confAtoB r = zero) /\
  (countB r = 0 -> confBtoA r = zero) /\
  (total = 0 \/ countA r = 0 \/ countB r = 0 -> lift r = zero).
Proof.
  cbn zeta. unfold pair_row. cbn [supportPct confAtoB confBtoA lift countA countB].
  repeat split.
  - apply supportPct_of_finite.
  - apply conf_of_finite.
  - apply conf_of_finite.
  - apply lift_of_finite.
  - intros ->. reflexivity.
  - intros ->. reflexivity.
  - intros ->. reflexivity.
  - intros [-> | [E | E]]; unfold lift_of; [reflexivity | |];
      rewrite E; cbn [Nat.ltb Nat.leb];
      rewrite ?andb_false_r; reflexivity.
Qed.

Lemma metrics_zero_division_safe_witness :
  lift (pair_row 0 [("1::0", 2); ("2::0", 1)] "1::0||2::0" 1) = zero /\
  confAtoB (pair_row 3 [] "1::0||2::0" 1) = zero.
Proof.
  split.
  - destruct (metrics_zero_division_safe 0 [("1::0", 2); ("2::0", 1)]
                "1::0||2::0" 1) as (_ & _ & _ & _ & H).
    apply H. left. reflexivity.
  - destruct (metrics_zero_division_safe 3 [] "1::0||2::0" 1)
      as (_ & _ & H & _).
    apply H. reflexivity.
Defined.

Lemma double_mul_comm (x y : SpecFloat.spec_float) :
  Double.mul x y = Double.mul y x.
Proof.
  unfold Double.mul, SpecFloat.SFmul.
  destruct x as [sx|sx| |sx mx ex], y as [sy|sy| |sy my ey];
    rewrite ?(xorb_comm sx sy); try reflexivity.
  rewrite (Pos.mul_comm mx my), (Z.add_comm ex ey). reflexivity.
Qed.

Lemma double_lift_of_swap total support countA countB :
  Double.lift_of total support countA countB
  = Double.lift_of total support countB countA.
Proof.
  unfold Double.lift_of.
  rewrite (double_mul_comm (Double.div (Double.of_nat countA) _)).
  destruct (0 <? total), (0 <? countA), (0 <? countB); reflexivity.
Qed.

(** C8, as the code has it: symmetry of the lift.  The lift that the
    code computes for a pair is the same when the two item counts are
    exchanged, in the double precision of the source and in exact
    arithmetic alike, also when a guard fails and the lift is 0.  The
    closed form of the claim is left out: the doubles only approximate
    it. *)
Theorem lift_symmetric (total support countA countB : nat) :
  Double.lift_of total support countA countB
  = Double.lift_of total support countB countA /\
  lift_of total support countA countB = lift_of total support countB countA.
Proof. split; [apply double_lift_of_swap | apply lift_of_swap]. Qed.

(** C8 as stated fails on the doubles of the code: with 5 eligible
    orders and a pair of support 1 whose items have the counts 1 and 1,
    the quotient [N * s / (a * b)] is 5, and the lift that the code
    computes, [(1/5) / ((1/5) * (1/5))], is the double just below 5
    (printed as 4.999999999999999). *)
Lemma lift_closed_form_rounded :
  Double.lift_of 5 1 1 1
  = SpecFloat.S754_finite false 5629499534213119 (-50) /\
  Double.of_nat 5 = SpecFloat.S754_finite false 5629499534213120 (-50) /\
  SpecFloat.SFcompare (Double.lift_of 5 1 1 1) (Double.of_nat 5) = Some Lt /\
  ~ (exists q, Double.value (Double.lift_of 5 1 1 1) = Some q /\
               (q == inject_Z 5 * inject_Z 1 / (inject_Z 1 * inject_Z 1))%Q).
Proof.
  split; [vm_compute; reflexivity|].
  split; [vm_compute; reflexivity|].
  split; [vm_compute; reflexivity|].
  intros (q & Hq & E).
  assert (Double.lift_of 5 1 1 1
          = SpecFloat.S754_finite false 5629499534213119 (-50)) as Hl
    by (vm_compute; reflexivity).
  rewrite Hl in Hq. cbn [Double.value] in Hq. injection Hq as <-.
  vm_compute in E. discriminate.
Qed.

End MetricFacts.

(** ** Eligibility and line filtering *)

Section EligibilityFacts.
Import Pairs.
Variable Date_parse : string -> option Z.

Lemma before_none dt : before Date_parse dt None = false.
Proof. reflexivity. Qed.

Lemma isOrderEligible_no_date order fromIso toIso :
  toDateSafe Date_parse (resolved_date order) = None ->
  isOrderEligible Date_parse order fromIso toIso
  = isOrderEligible Date_parse order None None.
Proof.
  intros Hd. unfold isOrderEligible. rewrite Hd. reflexivity.
Qed.

Lemma isOrderEligible_dated order dt sf st f t :
  toDateSafe Date_parse (resolved_date order) = Some dt ->
  Js.nonempty sf = true -> Date_parse sf = Some f ->
  Js.nonempty st = true -> Date_parse st = Some t ->
  isOrderEligible Date_parse order (Some sf) (Some st)
  = isOrderEligible Date_parse order None None
    && (f <=? dt)%Z && (dt <=? t)%Z.
Proof.
  intros Hd Hsf Hf Hst Ht. unfold isOrderEligible. rewrite Hd.
  destruct (negb _); [reflexivity|].
  destruct (_ || _); [reflexivity|].
  unfold before, after. rewrite Hsf, Hf, Hst, Ht. cbn [andb].
  rewrite Z.gtb_ltb.
  destruct (Z.ltb_spec dt f), (Z.leb_spec f dt), (Z.ltb_spec t dt),
    (Z.leb_spec dt t); try reflexivity; lia.
Qed.

(** The checks of [isOrderEligible] that come before the date. *)
Lemma isOrderEligible_unbounded order :
  isOrderEligible Date_parse order None None
  = String.eqb (Js.toLowerCase (Js.or_empty (o_status order))) "completed"
    && negb (Num.strict_eq (Num.or_zero (o_total order)) Num.zero)
    && negb (Num.ge (Num.or_zero (o_total_refunded order))
                    (Num.or_zero (o_total order))).
Proof.
  unfold isOrderEligible.
  destruct (String.eqb _ "completed"); [|reflexivity]. cbn [negb andb].
  destruct (Num.strict_eq _ _); [reflexivity|]. cbn [negb orb andb].
  destruct (Num.ge _ _); [reflexivity|]. cbn [negb].
  destruct (toDateSafe _ _); reflexivity.
Qed.

Lemma isOrderEligible_from order dt sf f :
  toDateSafe Date_parse (resolved_date order) = Some dt ->
  Js.nonempty sf = true -> Date_parse sf = Some f ->
  isOrderEligible Date_parse order (Some sf) None
  = isOrderEligible Date_parse order None None && (f <=? dt)%Z.
Proof.
  intros Hd Hsf Hf. unfold isOrderEligible. rewrite Hd.
  destruct (negb _); [reflexivity|].
  destruct (_ || _); [reflexivity|].
  unfold before, after. rewrite Hsf, Hf. cbn [andb].
  destruct (Z.ltb_spec dt f), (Z.leb_spec f dt); try reflexivity; lia.
Qed.

Lemma isOrderEligible_to order dt st t :
  toDateSafe Date_parse (resolved_date order) = Some dt ->
  Js.nonempty st = true -> Date_parse st = Some t ->
  isOrderEligible Date_parse order None (Some st)
  = isOrderEligible Date_parse order None None && (dt <=? t)%Z.
Proof.
  intros Hd Hst Ht. unfold isOrderEligible. rewrite Hd.
  destruct (negb _); [reflexivity|].
  destruct (_ || _); [reflexivity|].
  unfold before, after. rewrite Hst, Ht. cbn [andb].
  rewrite Z.gtb_ltb.
  destruct (Z.ltb_spec t dt), (Z.leb_spec dt t); try reflexivity; lia.
Qed.

(** C7: an order whose resolved date is absent or cannot be parsed is
    never excluded by a date range: for every range it is eligible
    exactly when it passes the checks of the status and of the refund, so
    that a completed order that is not refunded in full is eligible.
    When the date is present, the order is eligible exactly when it
    passes these checks and its date is not before the start of the
    range, when one is set, and not after its end, when one is set: with
    both ends set, when the date lies in the closed interval. *)
Theorem undated_orders_ignore_range (order : Order) :
  let passes :=
    String.eqb (Js.toLowerCase (Js.or_empty (o_status order))) "completed"
    && negb (Num.strict_eq (Num.or_zero (o_total order)) Num.zero)
    && negb (Num.ge (Num.or_zero (o_total_refunded order))
                    (Num.or_zero (o_total order))) in
  (toDateSafe Date_parse (resolved_date order) = None ->
   forall fromIso toIso,
     isOrderEligible Date_parse order fromIso toIso = passes) /\
  (forall dt,
     toDateSafe Date_parse (resolved_date order) = Some dt ->
     isOrderEligible Date_parse order None None = passes /\
     (forall sf f,
        Js.nonempty sf = true -> Date_parse sf = Some f ->
        isOrderEligible Date_parse order (Some sf) None
        = passes && (f <=? dt)%Z) /\
     (forall st t,
        Js.nonempty st = true -> Date_parse st = Some t ->
        isOrderEligible Date_parse order None (Some st)
        = passes && (dt <=? t)%Z) /\
     (forall sf st f t,
        Js.nonempty sf = true -> Date_parse sf = Some f ->
        Js.nonempty st = true -> Date_parse st = Some t ->
        isOrderEligible Date_parse order (Some sf) (Some st)
        = passes && (f <=? dt)%Z && (dt <=? t)%Z)).
Proof.
  cbv zeta. rewrite <- isOrderEligible_unbounded. split.
  - intros Hd f t. apply isOrderEligible_no_date, Hd.
  - intros dt Hd. split; [reflexivity|]. split; [|split].
    + intros sf f. by apply isOrderEligible_from.
    + intros st t. by apply isOrderEligible_to.
    + intros sf st f t. by apply isOrderEligible_dated.
Qed.

Lemma refunded_not_eligible order fromIso toIso :
  Num.strict_eq (Num.or_zero (o_total order)) Num.zero = true \/
  Num.ge (Num.or_zero (o_total_refunded order)) (Num.or_zero (o_total order))
  = true ->
  isOrderEligible Date_parse order fromIso toIso = false.
Proof.
  intros H. unfold isOrderEligible.
  destruct (negb _); [reflexivity|].
  replace (_ || _) with true; [reflexivity|].
  symmetry. apply orb_true_iff. exact H.
Qed.

Lemma eligible_drop order l1 l2 fromIso toIso :
  isOrderEligible Date_parse order fromIso toIso = false ->
  eligible Date_parse (l1 ++ order :: l2) fromIso toIso
  = eligible Date_parse (l1 ++ l2) fromIso toIso.
Proof.
  intros H. unfold eligible. rewrite !List.filter_app. cbn [List.filter].
  rewrite H. reflexivity.
Qed.

Lemma line_step_skip st li :
  Num.le (Num.or_zero (li_quantity li)) Num.zero = true \/
  Num.le (Num.or_zero (Js.nullish (li_total li) (li_subtotal li))) Num.zero
  = true ->
  line_step st li = st.
Proof.
  intros H. unfold line_step.
  destruct (Num.le (Num.or_zero (li_quantity li)) Num.zero); [reflexivity|].
  destruct H as [H|H]; [discriminate|]. rewrite H. reflexivity.
Qed.

Lemma extractItemsForOrder_lines o o' :
  fold_left line_step (o_line_items o) ([], false)
  = fold_left line_step (o_line_items o') ([], false) ->
  extractItemsForOrder o = extractItemsForOrder o'.
Proof. intros H. unfold extractItemsForOrder. rewrite H. reflexivity. Qed.

End EligibilityFacts.

Lemma undated_orders_ignore_range_witness :
  Pairs.toDateSafe Demo.Date_parse (Pairs.resolved_date Demo.order_X) = None
  /\
  Pairs.isOrderEligible Demo.Date_parse Demo.order_X
    (Some "2024-03-01T00:00:00.000Z") (Some "2024-03-31T23:59:59.000Z")
  = true
  /\
  Pairs.isOrderEligible Demo.Date_parse Demo.dated_order
    (Some "2024-03-01T00:00:00.000Z") (Some "2024-03-31T23:59:59.000Z")
  = true && (1709251200000 <=? 1710496800000)%Z
    && (1710496800000 <=? 1711929599000)%Z
  /\
  Pairs.isOrderEligible Demo.Date_parse Demo.dated_order
    (Some "2024-03-31T23:59:59.000Z") None
  = true && (1711929599000 <=? 1710496800000)%Z.
Proof.
  split; [reflexivity|]. split; [|split].
  - apply (proj1 (undated_orders_ignore_range Demo.Date_parse
                    Demo.order_X)).
    reflexivity.
  - apply (proj2 (proj2 (proj2
             (proj2 (undated_orders_ignore_range Demo.Date_parse
                       Demo.dated_order)
                    1710496800000%Z eq_refl)))); reflexivity.
  - apply (proj1 (proj2
             (proj2 (undated_orders_ignore_range Demo.Date_parse
                       Demo.dated_order)
                    1710496800000%Z eq_refl))); reflexivity.
Defined.

(** C2, as the code has it: in the pairs computation an order whose
    total is 0, or whose refunded total is at least its total, is not
    eligible whatever its status, and the result is the one computed
    without it (no count, no share of [totalEligibleOrders]).  The bundle
    pages decide from the status alone: two orders with the same status
    are both accepted or both rejected. *)
Theorem refunded_orders_excluded_from_pairs
        (Date_parse : string -> option Z) (order : Order)
        (fromIso toIso : option string) :
  Num.strict_eq (Num.or_zero (o_total order)) Num.zero = true \/
  Num.ge (Num.or_zero (o_total_refunded order)) (Num.or_zero (o_total order))
  = true ->
  Pairs.isOrderEligible Date_parse order fromIso toIso = false /\
  (forall l1 l2 minCount sortBy,
     Pairs.compute Date_parse (l1 ++ order :: l2) fromIso toIso minCount sortBy
     = Pairs.compute Date_parse (l1 ++ l2) fromIso toIso minCount sortBy) /\
  (forall variant order',
     o_status order' = o_status order ->
     Bundles.is_eligible variant order' = Bundles.is_eligible variant order).
Proof.
  intros H.
  pose proof (refunded_not_eligible Date_parse order fromIso toIso H) as Hn.
  split; [exact Hn|]. split.
  - intros l1 l2 minCount sortBy. unfold Pairs.compute, Pairs.aggregate.
    rewrite (eligible_drop Date_parse order l1 l2 fromIso toIso Hn).
    reflexivity.
  - intros variant order' Hs. unfold Bundles.is_eligible. rewrite Hs.
    reflexivity.
Qed.

Lemma refunded_orders_excluded_from_pairs_witness :
  Pairs.isOrderEligible Demo.Date_parse Demo.refunded_order None None = false.
Proof.
  apply (refunded_orders_excluded_from_pairs Demo.Date_parse
           Demo.refunded_order None None).
  right. reflexivity.
Defined.

(** C2 as stated fails on the bundle pages: a completed order refunded in
    full is counted in [totalEligibleOrders] and in the count of its
    bundle. *)
Lemma refunded_order_counted_in_bundles :
  Num.ge (Num.or_zero (o_total_refunded Demo.refunded_order))
         (Num.or_zero (o_total Demo.refunded_order)) = true /\
  Bundles.totalEligibleOrders Bundles.ByDisplayName [Demo.refunded_order] = 1 /\
  Bundles.count <$>
    JsMap.get (Bundles.build_maps String.compare Bundles.ByDisplayName false
                 Bundles.MAX_SIZE [Demo.refunded_order] 1) "Protein Bar"
  = Some 1 /\
  Bundles.totalEligibleOrders Bundles.ByProductId [Demo.refunded_order] = 1 /\
  Bundles.count <$>
    JsMap.get (Bundles.build_maps String.compare Bundles.ByProductId false
                 Bundles.MAX_SIZE [Demo.refunded_order] 1) "11"
  = Some 1.
Proof. repeat split; vm_compute; reflexivity. Qed.

(** C6, as the code has it: in the pairs computation a line whose
    quantity is at most 0, or whose value ([total], else [subtotal]) is at
    most 0, leaves the extraction untouched, so the items of the order are
    those of the order without that line.  The bundle pages do not read
    the quantity or the value of a line. *)
Theorem zero_signal_lines_skipped_in_pairs (li : LineItem) :
  Num.le (Num.or_zero (li_quantity li)) Num.zero = true \/
  Num.le (Num.or_zero (Js.nullish (li_total li) (li_subtotal li))) Num.zero
  = true ->
  (forall st, Pairs.line_step st li = st) /\
  (forall o o' l1 l2,
     o_line_items o = l1 ++ li :: l2 -> o_line_items o' = l1 ++ l2 ->
     Pairs.extractItemsForOrder o = Pairs.extractItemsForOrder o') /\
  (forall explode st quantity subtotal total,
     Bundles.line_step explode st
       (mkLineItem (li_id li) (li_product_id li) (li_variation_id li)
                   (li_name li) quantity subtotal total (li_meta_data li))
     = Bundles.line_step explode st li).
Proof.
  intros H. split; [|split].
  - intros st. apply line_step_skip, H.
  - intros o o' l1 l2 Ho Ho'. apply extractItemsForOrder_lines.
    rewrite Ho, Ho', !fold_left_app. cbn [fold_left].
    rewrite (line_step_skip _ li H). reflexivity.
  - intros explode st quantity subtotal total. reflexivity.
Qed.

Lemma zero_signal_lines_skipped_in_pairs_witness :
  Pairs.line_step ([], false) (Demo.line 12 "Free Sample" 0 0) = ([], false).
Proof.
  apply (zero_signal_lines_skipped_in_pairs (Demo.line 12 "Free Sample" 0 0)).
  left. reflexivity.
Defined.

(** C6 as stated fails on the bundle pages: a line of quantity 0 and
    value 0 still yields an item, which is counted alone and in a bundle
    with the other item of the order. *)
Lemma zero_line_counted_in_bundles :
  Num.le (Num.or_zero (li_quantity (Demo.line 12 "Free Sample" 0 0)))
         Num.zero = true /\
  Bundles.displayName <$>
    Bundles.extractLineItems Bundles.ByDisplayName false Demo.zero_line_order
  = ["Protein Bar"; "Free Sample"] /\
  Bundles.count <$>
    JsMap.get (Bundles.build_maps String.compare Bundles.ByDisplayName false
                 Bundles.MAX_SIZE [Demo.zero_line_order] 1) "Free Sample"
  = Some 1 /\
  Bundles.count <$>
    JsMap.get (Bundles.build_maps String.compare Bundles.ByDisplayName false
                 Bundles.MAX_SIZE [Demo.zero_line_order] 2)
              "Free Sample | Protein Bar"
  = Some 1.
Proof. repeat split; vm_compute; reflexivity. Qed.

(** ** Lists *)

Section ListFacts.
Context {A B : Type}.

Lemma elem_of_filter_bool (f : A -> bool) (l : list A) (x : A) :
  x ∈ List.filter f l <-> x ∈ l /\ f x = true.
Proof. rewrite !list_elem_of_In. apply filter_In. Qed.

Lemma filter_bool_sublist (f : A -> bool) (l : list A) :
  List.filter f l `sublist_of` l.
Proof.
  induction l as [|x l IH]; simpl; [constructor|].
  destruct (f x); by constructor.
Qed.

Lemma filter_bool_fmap (g : A -> B) (f : B -> bool) (l : list A) :
  List.filter f (g <$> l) = g <$> List.filter (fun x => f (g x)) l.
Proof.
  induction l as [|x l IH]; [reflexivity|].
  rewrite fmap_cons. cbn [List.filter].
  destruct (f (g x)); rewrite ?fmap_cons, IH; reflexivity.
Qed.

Lemma NoDup_all_equal (l : list A) :
  NoDup l -> (forall x y, x ∈ l -> y ∈ l -> x = y) -> length l <= 1.
Proof.
  intros Hnd Heq. destruct l as [|x [|y l]]; simpl; try lia.
  apply NoDup_cons in Hnd as [Hx _]. exfalso. apply Hx.
  rewrite (Heq x y); [left | left | right; left].
Qed.

Lemma fmap_inj_on (f : A -> B) (l : list A) :
  NoDup (f <$> l) -> forall x y, x ∈ l -> y ∈ l -> f x = f y -> x = y.
Proof.
  induction l as [|a l IH]; intros Hnd x y Hx Hy E; [inversion Hx|].
  rewrite fmap_cons in Hnd. apply NoDup_cons in Hnd as [Ha Hnd].
  apply elem_of_cons in Hx as [->|Hx]; apply elem_of_cons in Hy as [->|Hy].
  - reflexivity.
  - exfalso. apply Ha. rewrite E. apply list_elem_of_fmap. by exists y.
  - exfalso. apply Ha. rewrite <- E. apply list_elem_of_fmap. by exists x.
  - by apply IH.
Qed.

Lemma fmap_eq_inj_on (f : A -> B) (l : list A) :
  (forall x y, x ∈ l -> y ∈ l -> f x = f y -> x = y) ->
  forall c1 c2, c1 ⊆ l -> c2 ⊆ l -> f <$> c1 = f <$> c2 -> c1 = c2.
Proof.
  intros Hinj. induction c1 as [|x c1 IH]; intros [|y c2] H1 H2 E;
    try discriminate; [reflexivity|].
  rewrite !fmap_cons in E. injection E as Ex E. f_equal.
  - apply Hinj; [apply H1; left | apply H2; left | exact Ex].
  - apply IH; [| |exact E].
    + intros z Hz. apply H1. by right.
    + intros z Hz. apply H2. by right.
Qed.

Lemma sublist_fmap_inv (f : A -> B) (l : list A) : forall ks,
  ks `sublist_of` (f <$> l) ->
  exists c, c `sublist_of` l /\ f <$> c = ks.
Proof.
  induction l as [|x l IH]; intros ks Hs.
  - apply sublist_nil_r in Hs as ->. exists []. split; [constructor|reflexivity].
  - rewrite fmap_cons in Hs. apply sublist_cons_r in Hs as [Hs|(ks' & -> & Hs)].
    + destruct (IH ks Hs) as (c & Hc & <-).
      exists c. split; [by apply sublist_cons | reflexivity].
    + destruct (IH ks' Hs) as (c & Hc & <-).
      exists (x :: c). split; [by apply sublist_skip | reflexivity].
Qed.

Lemma flat_map_filter_length_le (ev : A -> list B) (p q : B -> bool)
      (l : list A) :
  (forall o, o ∈ l ->
     length (List.filter p (ev o)) <= length (List.filter q (ev o))) ->
  length (List.filter p (flat_map ev l))
  <= length (List.filter q (flat_map ev l)).
Proof.
  induction l as [|o l IH]; intros H; simpl; [lia|].
  rewrite !List.filter_app, !length_app.
  specialize (H o) as Ho. specialize (Ho ltac:(left)).
  assert (length (List.filter p (flat_map ev l))
          <= length (List.filter q (flat_map ev l))).
  { apply IH. intros o' Ho'. apply H. by right. }
  lia.
Qed.

End ListFacts.

(** ** The enumerator *)

Section SortFacts.
Context {A : Type} (cmp : A -> A -> comparison).

Lemma sort_insert_perm x l : sort_insert cmp x l ≡ₚ x :: l.
Proof.
  induction l as [|y r IH]; simpl; [reflexivity|].
  destruct (cmp x y); try reflexivity.
  rewrite IH. apply Permutation_swap.
Qed.

Lemma sort_perm l : sort cmp l ≡ₚ l.
Proof.
  induction l as [|x r IH]; simpl; [reflexivity|].
  rewrite sort_insert_perm. f_equiv. exact IH.
Qed.

Lemma sort_length l : length (sort cmp l) = length l.
Proof. apply Permutation_length, sort_perm. Qed.

Lemma sort_NoDup l : NoDup l -> NoDup (sort cmp l).
Proof. intros H. rewrite sort_perm. exact H. Qed.
End SortFacts.

Section SortedFacts.
Context {A : Type} (cmp : A -> A -> comparison).
Context (R : A -> A -> Prop) (P : A -> Prop).
Hypothesis R_trans :
  forall x y z, P x -> P y -> P z -> R x y -> R y z -> R x z.
Hypothesis cmp_gt : forall x y, P x -> P y -> cmp x y = Gt -> R y x.
Hypothesis cmp_le : forall x y, P x -> P y -> cmp x y <> Gt -> R x y.

Lemma sort_insert_sorted x l :
  P x -> Forall P l -> StronglySorted R l ->
  StronglySorted R (sort_insert cmp x l).
Proof.
  intros Hx. induction l as [|y r IH]; intros HP Hs; simpl.
  - constructor; [constructor | constructor].
  - apply Forall_cons in HP as [Hy HP].
    apply StronglySorted_inv in Hs as [Hs Hyr].
    destruct (cmp x y) eqn:Hc.
    1,2: constructor; [by constructor|];
         assert (R x y) by (apply cmp_le; [done..|congruence]);
         constructor; [done|];
         apply Forall_forall; intros z Hz;
         apply (R_trans x y z); try done;
         [ by apply (proj1 (Forall_forall _ _) HP)
         | by apply (proj1 (Forall_forall _ _) Hyr) ].
    constructor; [by apply IH|].
    rewrite sort_insert_perm. constructor; [by apply cmp_gt | done].
Qed.

Lemma sort_sorted l : Forall P l -> StronglySorted R (sort cmp l).
Proof.
  induction l as [|x r IH]; intros HP; simpl; [constructor|].
  apply Forall_cons in HP as [Hx HP].
  apply sort_insert_sorted; [done| |by apply IH].
  rewrite sort_perm. done.
Qed.

(** The sort is stable: elements that the comparator never puts after one
    another keep their relative order. *)
Lemma sort_insert_filter (p : A -> bool) x l :
  (forall y, y ∈ l -> p x = true -> p y = true -> cmp x y <> Gt) ->
  List.filter p (sort_insert cmp x l) = List.filter p (x :: l).
Proof.
  induction l as [|y r IH]; intros H; [reflexivity|].
  cbn [sort_insert]. destruct (cmp x y) eqn:Hc; try reflexivity.
  cbn [List.filter]. rewrite IH by (intros z Hz; apply H; by right).
  cbn [List.filter]. destruct (p x) eqn:Hpx, (p y) eqn:Hpy; try reflexivity.
  exfalso. apply (H y); [left|done|done|done].
Qed.

Lemma sort_stable (p : A -> bool) l :
  (forall x y, p x = true -> p y = true -> cmp x y <> Gt) ->
  List.filter p (sort cmp l) = List.filter p l.
Proof.
  intros H. induction l as [|x r IH]; [reflexivity|].
  cbn [sort foldr]. rewrite sort_insert_filter by (intros; by apply H).
  cbn [List.filter]. fold (sort cmp r). rewrite IH. reflexivity.
Qed.

End SortedFacts.

Lemma StronglySorted_lookup {A : Type} (R : A -> A -> Prop) (l : list A)
      (i j : nat) (x y : A) :
  StronglySorted R l -> i < j -> l !! i = Some x -> l !! j = Some y ->
  R x y.
Proof.
  intros Hs. revert i j.
  induction Hs as [|a l Hs IH Hall]; intros i j Hij Hi Hj.
  - discriminate.
  - destruct j as [|j]; [lia|]. destruct i as [|i]; simpl in *.
    + injection Hi as <-.
      apply (proj1 (Forall_forall _ _) Hall). by eapply list_elem_of_lookup_2.
    + apply (IH i j); [lia|done|done].
Qed.

(** Two sorted lists with the same elements are equal, when the order is
    antisymmetric on these elements. *)
Lemma sorted_perm_eq {A : Type} (R : A -> A -> Prop) (l1 : list A) :
  forall l2,
    (forall x y, x ∈ l1 -> y ∈ l1 -> R x y -> R y x -> x = y) ->
    StronglySorted R l1 -> StronglySorted R l2 -> l1 ≡ₚ l2 -> l1 = l2.
Proof.
  induction l1 as [|x l1 IH]; intros l2 Hanti H1 H2 Hp.
  - by apply Permutation_nil_l in Hp.
  - destruct l2 as [|y l2]; [by apply Permutation_nil_r in Hp|].
    apply StronglySorted_inv in H1 as [H1 Hx].
    apply StronglySorted_inv in H2 as [H2 Hy].
    assert (x = y) as <-.
    { assert (x ∈ y :: l2) as Hxin by (rewrite <- Hp; left).
      assert (y ∈ x :: l1) as Hyin by (rewrite Hp; left).
      apply elem_of_cons in Hxin as [E|Hxin]; [exact E|].
      apply elem_of_cons in Hyin as [E|Hyin]; [by symmetry|].
      apply Hanti; [left | by right | |].
      - by apply (proj1 (Forall_forall _ _) Hx).
      - by apply (proj1 (Forall_forall _ _) Hy). }
    f_equal. apply IH; [|done|done|by apply Permutation_cons_inv in Hp].
    intros a b Ha Hb. apply Hanti; by right.
Qed.

Section CombinationFacts.
Context {X : Type}.
Implicit Types (l c cur rest : list X) (res : list (list X)).

Lemma bt_combs d : forall cur rest res,
  Bundles.bt d cur rest res = res ++ (app cur <$> combs d rest).
Proof.
  induction d as [|d IHd]; intros cur rest res.
  - destruct rest; simpl; rewrite app_nil_r; reflexivity.
  - simpl. revert res.
    induction rest as [|x r IHr]; intros res.
    + simpl. rewrite app_nil_r. reflexivity.
    + rewrite IHr, IHd. cbn [combs].
      rewrite fmap_app, <- list_fmap_compose, <- app_assoc.
      f_equal. f_equal. apply list_fmap_ext. intros _ c _. simpl.
      rewrite <- app_assoc. reflexivity.
Qed.

Lemma combs_short k l : length l < k -> combs k l = [].
Proof.
  revert k. induction l as [|x r IH]; intros [|k] H; simpl in *;
    try lia; [reflexivity|].
  rewrite !IH by lia. reflexivity.
Qed.

Lemma combinations_combs l k : Bundles.combinations l k = combs k l.
Proof.
  unfold Bundles.combinations. destruct (Nat.ltb_spec (length l) k).
  - symmetry. apply combs_short. assumption.
  - rewrite bt_combs. simpl. apply list_fmap_id.
Qed.

Lemma elem_of_combs c k l : c ∈ combs k l <-> sublist c l /\ length c = k.
Proof.
  revert c k. induction l as [|x r IH]; intros c [|k]; simpl.
  - rewrite list_elem_of_singleton. split.
    + intros ->. split; [constructor | reflexivity].
    + intros [_ H]. destruct c; [reflexivity | discriminate].
  - split; [intros H; inversion H|].
    intros [H1 H2]. apply sublist_nil_r in H1. subst. discriminate.
  - rewrite list_elem_of_singleton. split.
    + intros ->. split; [apply sublist_nil_l | reflexivity].
    + intros [_ H]. destruct c; [reflexivity | discriminate].
  - rewrite elem_of_app, list_elem_of_fmap. split.
    + intros [(c' & -> & Hc') | Hc].
      * apply IH in Hc' as [Hs Hl]. split; [by constructor | simpl; lia].
      * apply IH in Hc as [Hs Hl].
        split; [by apply sublist_cons | assumption].
    + intros [Hs Hl]. inversion Hs as [|y c' r' Hs'|y c' r' Hs']; subst.
      * left. exists c'. split; [reflexivity|].
        apply IH. split; [assumption | simpl in Hl; lia].
      * right. apply IH. split; assumption.
Qed.

Lemma combs_NoDup k l : NoDup l -> NoDup (combs k l).
Proof.
  revert k. induction l as [|x r IH]; intros [|k] Hnd; simpl.
  - apply NoDup_singleton.
  - constructor.
  - apply NoDup_singleton.
  - apply NoDup_cons in Hnd as [Hx Hr].
    apply NoDup_app. split; [|split].
    + apply NoDup_fmap_2; [|apply IH, Hr]. intros ? ? E. congruence.
    + intros c (c' & -> & _)%list_elem_of_fmap (Hs & _)%elem_of_combs.
      apply Hx. eapply elem_of_sublist; [|exact Hs]. left.
    + apply IH, Hr.
Qed.

Lemma binom_gt n k : n < k -> binom n k = 0.
Proof.
  revert k. induction n as [|n IH]; intros [|k] H; simpl; try lia.
  rewrite !IH by lia. reflexivity.
Qed.

Lemma binom_diag n : binom n n = 1.
Proof.
  induction n as [|n IH]; simpl; [reflexivity|].
  rewrite IH, binom_gt by lia. reflexivity.
Qed.

(** [binom] is the usual coefficient: [binom (n + k) k = (n + k)! / (n! k!)]. *)
Lemma binom_fact n : forall k,
  binom (n + k) k * (fact k * fact n) = fact (n + k).
Proof.
  induction n as [|n IHn]; intros k.
  - simpl. rewrite binom_diag. lia.
  - induction k as [|k IHk].
    + rewrite Nat.add_0_r. destruct n; simpl; lia.
    + specialize (IHn (S k)).
      replace (S n + S k) with (S (S n + k)) by lia.
      replace (n + S k) with (S n + k) in IHn by lia.
      change (binom (S (S n + k)) (S k))
        with (binom (S n + k) k + binom (S n + k) (S k)).
      change (fact (S (S n + k))) with (S (S n + k) * fact (S n + k)).
      change (fact (S k)) with (S k * fact k) in *.
      change (fact (S n)) with (S n * fact n) in *.
      transitivity
        (binom (S n + k) k * (fact k * (S n * fact n)) * S k
         + binom (S n + k) (S k) * (S k * fact k * fact n) * S n); [lia|].
      rewrite IHk, IHn. lia.
Qed.

Lemma combs_length k l : length (combs k l) = binom (length l) k.
Proof.
  revert k. induction l as [|x r IH]; intros [|k]; simpl; try reflexivity.
  rewrite length_app, length_fmap, !IH. reflexivity.
Qed.

Lemma elem_of_enumerate c K l :
  c ∈ enumerate K l <-> sublist c l /\ 1 <= length c <= Nat.min K (length l).
Proof.
  unfold enumerate. rewrite list_elem_of_In, in_flat_map. split.
  - intros (s & Hs & Hc). apply in_seq in Hs.
    destruct (Nat.ltb_spec (length l) s); [inversion Hc|].
    apply list_elem_of_In in Hc. rewrite combinations_combs in Hc.
    apply elem_of_combs in Hc as [Hsub Hlen]. split; [assumption | lia].
  - intros [Hsub Hlen]. exists (length c). split; [apply in_seq; lia|].
    destruct (Nat.ltb_spec (length l) (length c)); [lia|].
    apply list_elem_of_In. rewrite combinations_combs.
    apply elem_of_combs. split; [assumption | reflexivity].
Qed.

Lemma enumerate_NoDup_go l : NoDup l -> forall a n,
  NoDup (flat_map (fun s => if length l <? s then []
                            else Bundles.combinations l s) (seq a n)).
Proof.
  intros Hnd a n. revert a. induction n as [|n IH]; intros a; simpl.
  - constructor.
  - apply NoDup_app. split; [|split].
    + destruct (length l <? a); [constructor|].
      rewrite combinations_combs. apply combs_NoDup, Hnd.
    + intros c Hc Hc'. apply list_elem_of_In, in_flat_map in Hc'.
      destruct Hc' as (s & Hs & Hc'). apply in_seq in Hs.
      destruct (length l <? a); [inversion Hc|].
      destruct (length l <? s); [inversion Hc'|].
      apply list_elem_of_In in Hc'. rewrite combinations_combs in Hc, Hc'.
      apply elem_of_combs in Hc as [_ Hc]. apply elem_of_combs in Hc' as [_ Hc'].
      lia.
    + apply IH.
Qed.

Lemma enumerate_NoDup K l : NoDup l -> NoDup (enumerate K l).
Proof. intros H. apply enumerate_NoDup_go, H. Qed.

Lemma enumerate_length_go l : forall n a,
  length (flat_map (fun s => if length l <? s then []
                             else Bundles.combinations l s) (seq a n))
  = sum_list_with (binom (length l)) (seq a n).
Proof.
  induction n as [|n IH]; intros a; simpl; [reflexivity|].
  rewrite length_app, IH. f_equal.
  destruct (Nat.ltb_spec (length l) a).
  - rewrite binom_gt by assumption. reflexivity.
  - rewrite combinations_combs. apply combs_length.
Qed.

Lemma sum_binom_tail n : forall m a,
  n < a -> sum_list_with (binom n) (seq a m) = 0.
Proof.
  induction m as [|m IH]; intros a Ha; simpl; [reflexivity|].
  rewrite binom_gt, IH by lia. reflexivity.
Qed.

Lemma enumerate_length K l :
  length (enumerate K l)
  = sum_list_with (binom (length l)) (seq 1 (Nat.min K (length l))).
Proof.
  unfold enumerate. rewrite enumerate_length_go.
  replace K with (Nat.min K (length l) + (K - Nat.min K (length l))) at 1
    by lia.
  rewrite seq_app, sum_list_with_app.
  destruct (Nat.le_gt_cases K (length l)).
  - replace (K - Nat.min K (length l)) with 0 by lia. simpl. lia.
  - rewrite (sum_binom_tail _ _ (1 + Nat.min K (length l))) by lia. lia.
Qed.

End CombinationFacts.

Section EnumeratorFacts.
Import Bundles.
Variable localeCompare : string -> string -> comparison.
Variable variant : Variant.

Lemma fold_left_flat_map {S T U : Type} (f : S -> U -> S) (g : T -> list U) :
  forall l init,
    fold_left f (flat_map g l) init
    = fold_left (fun acc x => fold_left f (g x) acc) l init.
Proof.
  induction l as [|x l IH]; intros init; simpl; [reflexivity|].
  rewrite fold_left_app. apply IH.
Qed.

Lemma fold_left_ext_in {S U : Type} (f g : S -> U -> S) :
  forall l init,
    (forall acc x, x ∈ l -> f acc x = g acc x) ->
    fold_left f l init = fold_left g l init.
Proof.
  induction l as [|x l IH]; intros init H; simpl; [reflexivity|].
  rewrite H by left. apply IH. intros acc y Hy. apply H. by right.
Qed.

(** The loop over the sizes visits the enumerated itemsets in order. *)
Lemma size_loop_enumerate order items K maps :
  fold_left (size_step localeCompare variant order items) (seq 1 K) maps
  = fold_left (fun m c => comb_step localeCompare variant order (length c) m c)
              (enumerate K items) maps.
Proof.
  unfold enumerate. rewrite fold_left_flat_map.
  apply fold_left_ext_in. intros acc s _. unfold size_step.
  destruct (length items <? s); [reflexivity|].
  apply fold_left_ext_in. intros m c Hc.
  rewrite combinations_combs in Hc. apply elem_of_combs in Hc as [_ ->].
  reflexivity.
Qed.

(** The sort of the items of an order leaves them in ascending order of
    their keys. *)
Lemma sorted_by_key (items l : list BItem) :
  total_on localeCompare (keyOf variant <$> items) -> l ≡ₚ items ->
  StronglySorted
    (fun a b => localeCompare (keyOf variant a) (keyOf variant b) <> Gt)
    (sort (fun a b => localeCompare (keyOf variant a) (keyOf variant b)) l).
Proof.
  intros (Htrans & Htotal & _) Hp.
  assert (forall x, x ∈ items -> keyOf variant x ∈ keyOf variant <$> items)
    as Hk by (intros x Hx; apply list_elem_of_fmap; by exists x).
  apply (sort_sorted _ _ (fun x => x ∈ items)).
  - intros x y z Hx Hy Hz. apply Htrans; by apply Hk.
  - intros x y Hx Hy. apply Htotal; by apply Hk.
  - intros x y _ _ H. exact H.
  - apply Forall_forall. intros x Hx. by rewrite <- Hp.
Qed.

(** The sorted items depend on the set of the items only. *)
Lemma sort_deterministic (items items' : list BItem) :
  total_on localeCompare (keyOf variant <$> items) ->
  NoDup (keyOf variant <$> items) -> items' ≡ₚ items ->
  sort (fun a b => localeCompare (keyOf variant a) (keyOf variant b)) items'
  = sort (fun a b => localeCompare (keyOf variant a) (keyOf variant b)) items.
Proof.
  intros Htot Hnd Hp.
  apply (sorted_perm_eq
           (fun a b => localeCompare (keyOf variant a) (keyOf variant b)
                       <> Gt)).
  - intros x y Hx Hy Hxy Hyx.
    rewrite sort_perm, Hp in Hx. rewrite sort_perm, Hp in Hy.
    apply (fmap_inj_on (keyOf variant) items Hnd); [done..|].
    destruct Htot as (_ & _ & Hanti).
    apply Hanti; [| |done..]; apply list_elem_of_fmap; by eexists.
  - by apply (sorted_by_key items items').
  - by apply (sorted_by_key items items).
  - by rewrite !sort_perm.
Qed.

(** C5: completeness and determinism of the enumerator.  For [n] distinct
    items and a maximum size [K], the items are first sorted by key: when
    the comparator is a total order on the keys, the sorted items are in
    ascending order of their keys, and, the keys being distinct, they are
    the same list in whatever order the items come, so that the same set
    of items gives the same itemsets in the same order.  The itemsets that
    the loop over the sizes goes through are exactly the sublists of the
    sorted items of a length between 1 and [min K n], each of them once;
    their number is the sum of the binomial coefficients [C(n,k)] for [k]
    from 1 to [min K n]. *)
Theorem enumerator_complete (items : list BItem) (K : nat) :
  NoDup items ->
  let sorted :=
    sort (fun a b => localeCompare (keyOf variant a) (keyOf variant b)) items in
  let n := length items in
  sorted ≡ₚ items /\
  (total_on localeCompare (keyOf variant <$> items) ->
   StronglySorted
     (fun a b => localeCompare (keyOf variant a) (keyOf variant b) <> Gt)
     sorted /\
   (NoDup (keyOf variant <$> items) ->
    forall items', items' ≡ₚ items ->
      sort (fun a b => localeCompare (keyOf variant a) (keyOf variant b))
           items' = sorted /\
      enumerate K
        (sort (fun a b => localeCompare (keyOf variant a) (keyOf variant b))
              items')
      = enumerate K sorted)) /\
  (forall c, c ∈ enumerate K sorted
             <-> sublist c sorted /\ 1 <= length c <= Nat.min K n) /\
  NoDup (enumerate K sorted) /\
  length (enumerate K sorted) = sum_list_with (binom n) (seq 1 (Nat.min K n)) /\
  (forall order maps,
     fold_left (size_step localeCompare variant order sorted) (seq 1 K) maps
     = fold_left
         (fun m c => comb_step localeCompare variant order (length c) m c)
         (enumerate K sorted) maps).
Proof.
  intros Hnd sorted n. subst sorted n.
  split; [apply sort_perm|].
  split; [|split; [|split; [|split]]].
  - intros Htot. split; [by apply (sorted_by_key items items)|].
    intros Hk items' Hp.
    rewrite (sort_deterministic items items') by done. done.
  - intros c. rewrite elem_of_enumerate, sort_length. reflexivity.
  - apply enumerate_NoDup, sort_NoDup, Hnd.
  - rewrite enumerate_length, sort_length. reflexivity.
  - intros order maps. apply size_loop_enumerate.
Qed.

End EnumeratorFacts.

Lemma three_items_NoDup : NoDup Demo.three_items.
Proof.
  unfold Demo.three_items. repeat (apply NoDup_cons; split).
  - intros H. repeat (apply elem_of_cons in H as [H|H]; [discriminate|]).
    inversion H.
  - intros H. repeat (apply elem_of_cons in H as [H|H]; [discriminate|]).
    inversion H.
  - intros H. inversion H.
  - constructor.
Defined.

Lemma string_compare_le (a b : string) :
  String.compare a b <> Gt <-> String.le a b.
Proof.
  unfold String.le, String.leb.
  destruct (String.compare a b); split; try done.
Qed.

(** The comparison of the code units is a total order on all strings. *)
Lemma string_compare_total (ks : list string) : total_on String.compare ks.
Proof.
  split; [|split].
  - intros a b c _ _ _. rewrite !string_compare_le. apply transitivity.
  - intros a b _ _ H. rewrite String.compare_antisym, H. discriminate.
  - intros a b _ _. rewrite !string_compare_le. apply (anti_symm String.le).
Qed.

Lemma enumerator_complete_witness :
  let by_name := fun a b => String.compare
                              (Bundles.keyOf Bundles.ByDisplayName a)
                              (Bundles.keyOf Bundles.ByDisplayName b) in
  sort by_name (rev Demo.three_items) = sort by_name Demo.three_items /\
  (Bundles.keyOf Bundles.ByDisplayName <$> sort by_name Demo.three_items)
  = ["Creatine Mono"; "Protein Bar"; "Whey Protein"] /\
  length (enumerate 7 (sort by_name Demo.three_items))
  = sum_list_with (binom 3) (seq 1 3).
Proof.
  intros by_name.
  destruct (enumerator_complete String.compare Bundles.ByDisplayName
              Demo.three_items 7 three_items_NoDup)
    as (_ & Hsort & _ & _ & H & _).
  split; [|split; [reflexivity | exact H]].
  apply (proj2 (Hsort (string_compare_total _))).
  - apply (bool_decide_unpack _). vm_compute. exact I.
  - symmetry. apply Permutation_rev.
Defined.

(** ** The aggregation of the bundle pages *)

Lemma take_snoc_cap {A : Type} (n : nat) (l : list A) (x : A) :
  take n (l ++ [x])
  = if length (take n l) <? n then take n l ++ [x] else take n l.
Proof.
  destruct (Nat.le_gt_cases n (length l)) as [H|H].
  - rewrite take_app_le, length_take_le by assumption.
    rewrite Nat.ltb_irrefl. reflexivity.
  - rewrite (take_ge l) by lia. rewrite take_ge by (rewrite length_app; simpl; lia).
    destruct (Nat.ltb_spec (length l) n); [reflexivity | lia].
Qed.

Lemma fold_left_fmap {S T U : Type} (f : S -> U -> S) (g : T -> U) :
  forall l init,
    fold_left f (g <$> l) init = fold_left (fun a x => f a (g x)) l init.
Proof.
  induction l as [|x l IH]; intros init; simpl; [reflexivity | apply IH].
Qed.

Section AggregationFacts.
Import Bundles.
Variable localeCompare : string -> string -> comparison.
Variable variant : Variant.
Variable explodeGummies : bool.

Abbreviation step := (ev_step localeCompare variant).
Abbreviation evs_of := (events localeCompare variant explodeGummies).

Lemma order_step_events maxSize maps order :
  order_step localeCompare variant explodeGummies maxSize maps order
  = fold_left step
      (order_events localeCompare variant explodeGummies maxSize order) maps.
Proof.
  unfold order_step, order_events.
  destruct (negb (is_eligible variant order)); [reflexivity|].
  destruct (length _ <? 1); [reflexivity|].
  rewrite size_loop_enumerate, fold_left_fmap. reflexivity.
Qed.

Lemma build_maps_events maxSize orders :
  build_maps localeCompare variant explodeGummies maxSize orders
  = fold_left step (evs_of maxSize orders) (fun _ => []).
Proof.
  unfold build_maps, events. rewrite fold_left_flat_map.
  apply fold_left_ext_in. intros maps order _. apply order_step_events.
Qed.

Lemma hits_snoc s key evs e :
  hits variant s key (evs ++ [e])
  = hits variant s key evs
    ++ (if (length e.2 =? s) && String.eqb (bundleKey variant e.2) key
        then [e] else []).
Proof. unfold hits. rewrite List.filter_app. reflexivity. Qed.

Lemma upd_eq {V : Type} (maps : nat -> V) s m : upd maps s m s = m.
Proof. unfold upd. rewrite Nat.eqb_refl. reflexivity. Qed.

Lemma upd_ne {V : Type} (maps : nat -> V) s s' m :
  s' <> s -> upd maps s m s' = maps s'.
Proof.
  intros H. unfold upd. destruct (Nat.eqb_spec s' s); [contradiction|].
  reflexivity.
Qed.

(** What a turn does to the maps: the record of its key gets one more
    count and, below the cap, one more reference; all else is kept. *)
Lemma ev_step_get maps e :
  let s0 := length e.2 in
  let key0 := bundleKey variant e.2 in
  let old := default (new_rec localeCompare variant e.2)
                     (JsMap.get (maps s0) key0) in
  (exists rec',
     JsMap.get (step maps e s0) key0 = Some rec' /\
     count rec' = count old + 1 /\
     sample rec' = (if length (sample old) <? 6
                    then sample old ++ [sample_ref e.1] else sample old)) /\
  (forall s key, (s, key) <> (s0, key0) ->
     JsMap.get (step maps e s) key = JsMap.get (maps s) key).
Proof.
  intros s0 key0 old. unfold ev_step, comb_step.
  fold s0. fold key0. unfold JsMap.has.
  destruct (JsMap.get (maps s0) key0) as [r|] eqn:Hget.
  - rewrite Hget. split.
    + eexists. rewrite upd_eq, get_set_eq. repeat split; reflexivity.
    + intros s key Hne. destruct (Nat.eq_dec s s0) as [->|Hs].
      * rewrite upd_eq. apply get_set_ne. congruence.
      * apply (f_equal (fun m => JsMap.get m key)). apply upd_ne, Hs.
  - rewrite get_set_eq. split.
    + eexists. rewrite upd_eq, get_set_eq. repeat split; reflexivity.
    + intros s key Hne. destruct (Nat.eq_dec s s0) as [->|Hs].
      * rewrite upd_eq, !get_set_ne by congruence. reflexivity.
      * apply (f_equal (fun m => JsMap.get m key)). apply upd_ne, Hs.
Qed.

Lemma agrees_step maps evs e :
  agrees variant maps evs -> agrees variant (step maps e) (evs ++ [e]).
Proof.
  intros Inv s key.
  destruct (ev_step_get maps e) as [(rec' & Hget & Hcount & Hsample) Hother].
  rewrite hits_snoc.
  destruct (Nat.eqb_spec (length e.2) s) as [Hs|Hs];
    [destruct (String.eqb_spec (bundleKey variant e.2) key) as [Hk|Hk]|].
  - subst s key. rewrite Hget. cbn [andb].
    specialize (Inv (length e.2) (bundleKey variant e.2)).
    rewrite fmap_app, length_app. cbn [fmap list_fmap length].
    destruct (JsMap.get (maps (length e.2)) (bundleKey variant e.2))
      as [r|]; cbn [from_option id] in Hcount, Hsample.
    + destruct Inv as (_ & Hc & Hsm). split; [|split].
      * intros H. apply app_eq_nil in H as [_ H]. discriminate.
      * lia.
      * rewrite Hsample, Hsm. symmetry. apply take_snoc_cap.
    + rewrite Inv. split; [|split].
      * discriminate.
      * rewrite Hcount. reflexivity.
      * rewrite Hsample. reflexivity.
  - cbn [andb]. rewrite app_nil_r, Hother by congruence. apply Inv.
  - cbn [andb]. rewrite app_nil_r, Hother by congruence. apply Inv.
Qed.

Lemma agrees_fold evs' : forall maps evs,
  agrees variant maps evs ->
  agrees variant (fold_left step evs' maps) (evs ++ evs').
Proof.
  induction evs' as [|e evs' IH]; intros maps evs Inv; simpl.
  - rewrite app_nil_r. exact Inv.
  - replace (evs ++ e :: evs') with ((evs ++ [e]) ++ evs')
      by (rewrite <- app_assoc; reflexivity).
    apply IH, agrees_step, Inv.
Qed.

Lemma agrees_build maxSize orders :
  agrees variant
    (build_maps localeCompare variant explodeGummies maxSize orders)
    (evs_of maxSize orders).
Proof.
  rewrite build_maps_events.
  apply (agrees_fold (evs_of maxSize orders) (fun _ => []) []).
  intros s key. reflexivity.
Qed.

End AggregationFacts.

(** ** Keys of the bundle pages *)

Section JsMapForall.
Context {V : Type}.

Lemma set_Forall (P : string * V -> Prop) (m : list (string * V)) k v :
  Forall P m -> P (k, v) -> Forall P (JsMap.set m k v).
Proof.
  intros Hm Hkv. induction m as [|[k' v'] m IH]; simpl.
  - by constructor.
  - apply Forall_cons in Hm as [H0 Hm].
    destruct (String.eqb_spec k' k) as [->|Hne].
    + by constructor.
    + constructor; [assumption | by apply IH].
Qed.

Lemma set_NoDup (m : list (string * V)) k v :
  NoDup (fst <$> m) -> NoDup (fst <$> JsMap.set m k v).
Proof.
  intros Hnd. destruct (JsMap.get m k) as [v0|] eqn:Hget.
  - rewrite set_keys_old; [assumption | by eexists].
  - rewrite set_keys_new by assumption.
    apply NoDup_app. split; [assumption|]. split.
    + intros x Hx Hx'. apply list_elem_of_singleton in Hx' as ->.
      by apply get_None_keys in Hget.
    + apply NoDup_singleton.
Qed.

End JsMapForall.

Section BundleKeyFacts.
Import Bundles.
Variable localeCompare : string -> string -> comparison.
Variable variant : Variant.
Variable explodeGummies : bool.

Abbreviation keyed :=
  (fun m : list (string * BItem) =>
     NoDup (fst <$> m) /\ Forall (fun e => keyOf variant e.2 = e.1) m).

Lemma seen_step_keyed m it : keyed m -> keyed (seen_step variant m it).
Proof.
  intros [Hnd Hk]. unfold seen_step.
  destruct (JsMap.get m (keyOf variant it)) as [existing|] eqn:Hget.
  - assert (keyOf variant existing = keyOf variant it) as Hex.
    { apply get_elem_of in Hget. rewrite Forall_forall in Hk.
      apply (Hk _ Hget). }
    destruct (flavors existing), (flavors it); try (split; assumption).
    destruct (String.eqb _ _); [|split; assumption].
    split; [apply set_NoDup, Hnd|].
    apply set_Forall; [exact Hk|]. cbn [fst snd]. rewrite <- Hex.
    unfold keyOf. destruct variant; reflexivity.
  - split; [apply set_NoDup, Hnd|]. apply set_Forall; [exact Hk|reflexivity].
Qed.

Lemma seen2_step_keyed m it : keyed m -> keyed (seen2_step variant m it).
Proof.
  intros [Hnd Hk]. unfold seen2_step.
  destruct (JsMap.has m (keyOf variant it)); [split; assumption|].
  split; [apply set_NoDup, Hnd|]. apply set_Forall; [exact Hk|reflexivity].
Qed.

Lemma fold_keyed (f : list (string * BItem) -> BItem -> list (string * BItem))
      (items : list BItem) :
  (forall m it, keyed m -> keyed (f m it)) ->
  forall m, keyed m -> keyed (fold_left f items m).
Proof.
  intros Hf. induction items as [|it items IH]; intros m Hm; simpl;
    [exact Hm | apply IH, Hf, Hm].
Qed.

Lemma values_keys (m : list (string * BItem)) :
  keyed m -> keyOf variant <$> JsMap.values m = fst <$> m.
Proof.
  intros [_ Hk]. unfold JsMap.values. rewrite <- list_fmap_compose.
  apply Forall_fmap_ext. eapply Forall_impl; [exact Hk|].
  intros e He. exact He.
Qed.

(** The items of an order have pairwise distinct keys. *)
Lemma extractLineItems_keys_NoDup order :
  NoDup (keyOf variant <$> extractLineItems variant explodeGummies order).
Proof.
  assert (keyed []) as H0 by (split; constructor).
  unfold extractLineItems.
  destruct (fold_left _ _ _) as [[nonGummies flavorSet] saw].
  destruct (negb explodeGummies).
  - pose proof (fold_keyed (seen_step variant)
                  (if 0 <? length flavorSet
                   then nonGummies ++
                        [mkBItem "gummies" "Gummies" "Gummies" "0" ""
                                 (Some flavorSet)]
                   else if saw
                   then nonGummies ++
                        [mkBItem "gummies" "Gummies" "Gummies" "0" ""
                                 (Some ["Unspecified"])]
                   else nonGummies)
                  (seen_step_keyed) [] H0) as H.
    rewrite values_keys by exact H. apply H.
  - pose proof (fold_keyed (seen2_step variant) nonGummies
                  (seen2_step_keyed) [] H0) as H.
    rewrite values_keys by exact H. apply H.
Qed.

Lemma sorted_keys_NoDup order :
  NoDup (keyOf variant <$>
         sort (fun a b => localeCompare (keyOf variant a) (keyOf variant b))
              (extractLineItems variant explodeGummies order)).
Proof.
  rewrite sort_perm. apply extractLineItems_keys_NoDup.
Qed.

End BundleKeyFacts.

Section BundleAntimonotone.
Import Bundles.
Variable localeCompare : string -> string -> comparison.
Variable variant : Variant.
Variable explodeGummies : bool.

Abbreviation keys_free :=
  (fun c : list BItem => forallb bar_free (keyOf variant <$> c)).

Abbreviation reaches :=
  (fun (X c : list BItem) =>
     (length c =? length X)
     && String.eqb (bundleKey variant c) (bundleKey variant X)).

Lemma keys_free_subseteq (l c : list BItem) :
  keys_free l = true -> c ⊆ l -> keys_free c = true.
Proof.
  intros Hl Hc. apply forallb_forall. intros k Hk.
  apply list_elem_of_In, list_elem_of_fmap in Hk as (x & -> & Hx).
  rewrite forallb_forall in Hl. apply Hl, list_elem_of_In, list_elem_of_fmap.
  exists x. split; [reflexivity | apply Hc, Hx].
Qed.

(** Two combinations of equal length with the same bundle key have the
    same keys, when the keys are free of bars. *)
Lemma bundleKey_inj (c1 c2 : list BItem) :
  keys_free c1 = true -> keys_free c2 = true ->
  length c1 = length c2 ->
  bundleKey variant c1 = bundleKey variant c2 ->
  keyOf variant <$> c1 = keyOf variant <$> c2.
Proof.
  intros H1 H2 Hlen E. apply join_bundle_inj; try assumption.
  rewrite !length_fmap. exact Hlen.
Qed.

Lemma reaches_spec X c :
  reaches X c = true
  <-> length c = length X /\ bundleKey variant c = bundleKey variant X.
Proof.
  rewrite andb_true_iff, Nat.eqb_eq, String.eqb_eq. reflexivity.
Qed.

(** Within the items of one order, an itemset that is reached brings
    each of its sub-itemsets with it, and is reached once. *)
Lemma sub_itemset_reached (l : list BItem) (K : nat) (T S : list BItem) :
  NoDup (keyOf variant <$> l) -> keys_free l = true ->
  keys_free T = true -> S `sublist_of` T -> 1 <= length S -> length T <= K ->
  length (List.filter (reaches T) (enumerate K l))
  <= length (List.filter (reaches S) (enumerate K l)).
Proof.
  intros Hnd Hfree HT Hsub HS HK.
  assert (forall c, c ∈ List.filter (reaches T) (enumerate K l) ->
                    c `sublist_of` l /\ length c = length T /\
                    keyOf variant <$> c = keyOf variant <$> T) as Hin.
  { intros c Hc. apply elem_of_filter_bool in Hc as [Hc Hr].
    apply elem_of_enumerate in Hc as [Hc _].
    apply reaches_spec in Hr as [Hlen Hkey].
    split; [assumption|]. split; [assumption|].
    apply bundleKey_inj; try assumption.
    eapply keys_free_subseteq; [exact Hfree | by apply sublist_subseteq]. }
  assert (length (List.filter (reaches T) (enumerate K l)) <= 1) as Hone.
  { apply NoDup_all_equal.
    - apply (sublist_NoDup _ (enumerate K l)); [|apply filter_bool_sublist].
      apply enumerate_NoDup. eapply NoDup_fmap_1, Hnd.
    - intros x y Hx Hy.
      destruct (Hin x Hx) as (Hxl & _ & Hxk).
      destruct (Hin y Hy) as (Hyl & _ & Hyk).
      eapply (fmap_eq_inj_on (keyOf variant) l);
        [apply fmap_inj_on, Hnd | by apply sublist_subseteq
        | by apply sublist_subseteq | congruence]. }
  destruct (List.filter (reaches T) (enumerate K l)) as [|T' rest] eqn:HT';
    [simpl; lia|].
  destruct (Hin T' ltac:(left)) as (HT'l & HT'len & HT'k).
  assert (keyOf variant <$> S `sublist_of` keyOf variant <$> T') as Hks.
  { rewrite HT'k. by apply fmap_sublist. }
  apply sublist_fmap_inv in Hks as (S' & HS' & HS'k).
  assert (length S' = length S) as HS'len.
  { rewrite <- (length_fmap (keyOf variant) S'), HS'k. apply length_fmap. }
  assert (S' ∈ List.filter (reaches S) (enumerate K l)) as Hmem.
  { apply elem_of_filter_bool. split.
    - apply elem_of_enumerate. split; [by etrans|].
      apply sublist_length in HS', HT'l, Hsub. lia.
    - apply reaches_spec. split; [assumption|].
      unfold bundleKey. rewrite HS'k. reflexivity. }
  destruct (List.filter (reaches S) (enumerate K l)); [inversion Hmem|].
  simpl in *. lia.
Qed.

Lemma count_at_hits maxSize orders s key :
  count_at (build_maps localeCompare variant explodeGummies maxSize orders)
           s key
  = length (hits variant s key
              (events localeCompare variant explodeGummies maxSize orders)).
Proof.
  unfold count_at.
  pose proof (agrees_build localeCompare variant explodeGummies maxSize
                orders s key) as Inv.
  destruct (JsMap.get _ key) as [rec|]; simpl.
  - tauto.
  - rewrite Inv. reflexivity.
Qed.

Lemma elem_of_events maxSize orders o c :
  (o, c) ∈ events localeCompare variant explodeGummies maxSize orders ->
  o ∈ orders /\ is_eligible variant o = true /\
  c ∈ enumerate maxSize
        (sort (fun a b => localeCompare (keyOf variant a) (keyOf variant b))
              (extractLineItems variant explodeGummies o)).
Proof.
  unfold events. rewrite list_elem_of_In, in_flat_map.
  intros (o' & Ho' & Hin). unfold order_events in Hin.
  destruct (is_eligible variant o') eqn:He; [|inversion Hin].
  cbn [negb] in Hin. destruct (_ <? 1); [inversion Hin|].
  apply list_elem_of_In, list_elem_of_fmap in Hin as (c' & [= -> ->] & Hc').
  split; [by apply list_elem_of_In|]. split; [exact He | exact Hc'].
Qed.

(** Antimonotonicity of the counts of the bundle pages, for keys that
    are free of bars. *)
Lemma bundle_counts_antimonotone maxSize orders oT (T S : list BItem) :
  forallb (fun o => negb (is_eligible variant o)
                    || keys_free (extractLineItems variant explodeGummies o))
          orders = true ->
  (oT, T) ∈ events localeCompare variant explodeGummies maxSize orders ->
  S `sublist_of` T -> 1 <= length S ->
  count_at (build_maps localeCompare variant explodeGummies maxSize orders)
           (length T) (bundleKey variant T)
  <= count_at (build_maps localeCompare variant explodeGummies maxSize orders)
              (length S) (bundleKey variant S).
Proof.
  intros Hfree HT Hsub HS. rewrite !count_at_hits.
  assert (forall o, o ∈ orders -> is_eligible variant o = true ->
            keys_free
              (sort (fun a b => localeCompare (keyOf variant a)
                                              (keyOf variant b))
                    (extractLineItems variant explodeGummies o)) = true)
    as Hsorted.
  { intros o Ho He. rewrite forallb_forall in Hfree.
    specialize (Hfree o ltac:(by apply list_elem_of_In)).
    rewrite He in Hfree. cbn [negb orb] in Hfree.
    eapply keys_free_subseteq; [exact Hfree|].
    intros x Hx. by rewrite sort_perm in Hx. }
  apply elem_of_events in HT as (HoT & HeT & HT).
  apply elem_of_enumerate in HT as [HTs HTlen].
  assert (keys_free T = true) as HTfree.
  { eapply keys_free_subseteq; [apply Hsorted; [exact HoT | exact HeT]|].
    by apply sublist_subseteq. }
  unfold hits, events. apply flat_map_filter_length_le. intros o Ho.
  unfold order_events.
  destruct (is_eligible variant o) eqn:He; [|simpl; lia].
  cbn [negb]. destruct (_ <? 1); [simpl; lia|].
  rewrite !filter_bool_fmap, !length_fmap. cbn [fst snd].
  apply sub_itemset_reached; try assumption; [|by apply Hsorted|lia].
  apply sorted_keys_NoDup.
Qed.

End BundleAntimonotone.

(** ** Keys of the pairs page *)

Section PairKeyFacts.

Lemma app_nil_r_string (a : string) : a +:+ "" = a.
Proof.
  induction a as [|c a IH]; [reflexivity|].
  rewrite app_String, IH. reflexivity.
Qed.

Lemma rev_app_rev_app (a c d : string) :
  String.rev_app (String.rev_app a c) d = String.rev_app c (a +:+ d).
Proof.
  revert c d. induction a as [|x a IH]; intros c d; [reflexivity|].
  cbn [String.rev_app]. rewrite IH. reflexivity.
Qed.

Lemma rev_rev_app (a cur : string) :
  String.rev (String.rev_app a cur) = String.rev cur +:+ a.
Proof.
  unfold String.rev. rewrite rev_app_rev_app, app_nil_r_string.
  revert a. induction cur as [|x cur IH]; intros a; [reflexivity|].
  cbn [String.rev_app].
  rewrite (IH (String x a)), (IH (String x "")).
  clear IH. induction (String.rev_app cur "") as [|y r IHr]; [reflexivity|].
  rewrite !app_String, IHr. reflexivity.
Qed.

Lemma split_bars_go_other cur c s :
  c <> "|"%char ->
  Js.split_bars_go cur (String c s) = Js.split_bars_go (String c cur) s.
Proof.
  intros Hc. destruct c as [[] [] [] [] [] [] [] []];
    try reflexivity; contradiction.
Qed.

Lemma split_bars_go_free a : forall cur s,
  bar_free a = true ->
  Js.split_bars_go cur (a +:+ s) = Js.split_bars_go (String.rev_app a cur) s.
Proof.
  induction a as [|c a IH]; intros cur s Ha; [reflexivity|].
  rewrite app_String, split_bars_go_other by (eapply bar_free_head, Ha).
  apply IH. eapply bar_free_tail, Ha.
Qed.

(** [(a + "||" + b).split("||")] is [[a, b]] when [a] and [b] hold no
    bar. *)
Lemma split_bars_pairKey a b :
  bar_free a = true -> bar_free b = true ->
  Js.split_bars (Pairs.pairKey (a, b)) = [a; b].
Proof.
  intros Ha Hb. unfold Js.split_bars, Pairs.pairKey. cbn [fst snd].
  rewrite split_bars_go_free by assumption.
  change ("||" +:+ b) with (String "|" (String "|" b)).
  cbn [Js.split_bars_go Ascii.eqb].
  rewrite <- (app_nil_r_string b) at 1.
  rewrite split_bars_go_free by assumption. cbn [Js.split_bars_go].
  rewrite !rev_rev_app. reflexivity.
Qed.

Lemma pairKey_inj a b a' b' :
  bar_free a = true -> bar_free a' = true ->
  Pairs.pairKey (a, b) = Pairs.pairKey (a', b') -> a = a' /\ b = b'.
Proof.
  intros Ha Ha' E. unfold Pairs.pairKey in E. cbn [fst snd] in E.
  destruct (cut_unique "|" a a' b b' Ha Ha' E) as [-> E'].
  rewrite !app_String, !app_empty in E'. injection E' as ->. auto.
Qed.

Lemma bar_free_uint d : bar_free (NilEmpty.string_of_uint d) = true.
Proof. induction d; simpl; auto. Qed.

Lemma bar_free_String_of_Z z : bar_free (Js.String_of_Z z) = true.
Proof.
  assert (forall d, bar_free (NilZero.string_of_uint d) = true) as H.
  { intros d. unfold NilZero.string_of_uint.
    destruct d; try reflexivity; exact (bar_free_uint _). }
  unfold Js.String_of_Z, NilZero.string_of_int.
  destruct (Z.to_int z) as [d|d]; [apply H|].
  cbn [bar_free]. rewrite H. reflexivity.
Qed.

Lemma bar_free_String_of_id x : bar_free (Js.String_of_id x) = true.
Proof. destruct x; [apply bar_free_String_of_Z | reflexivity]. Qed.

End PairKeyFacts.

Section BumpFacts.
Import Pairs.
Implicit Types (m : list (string * nat)) (k : string).

Lemma bump_get_eq m k :
  JsMap.get (bump m k) k = Some (default 0 (JsMap.get m k) + 1).
Proof. apply get_set_eq. Qed.

Lemma bump_get_ne m k k' : k <> k' -> JsMap.get (bump m k) k' = JsMap.get m k'.
Proof. apply get_set_ne. Qed.

Lemma bump_fold_notin ks : forall m k,
  k ∉ ks -> JsMap.get (fold_left bump ks m) k = JsMap.get m k.
Proof.
  induction ks as [|x ks IH]; intros m k Hk; simpl; [reflexivity|].
  apply not_elem_of_cons in Hk as [Hx Hk].
  rewrite IH by assumption. apply bump_get_ne. congruence.
Qed.

Lemma bump_fold_in ks : forall m k,
  NoDup ks -> k ∈ ks ->
  JsMap.get (fold_left bump ks m) k = Some (default 0 (JsMap.get m k) + 1).
Proof.
  induction ks as [|x ks IH]; intros m k Hnd Hk; [inversion Hk|].
  apply NoDup_cons in Hnd as [Hx Hnd]. simpl.
  apply elem_of_cons in Hk as [->|Hk].
  - rewrite bump_fold_notin by assumption. apply bump_get_eq.
  - rewrite IH by assumption. rewrite bump_get_ne; [reflexivity|].
    intros ->. contradiction.
Qed.

(** A fold of [bump] never lowers a count. *)
Lemma bump_fold_mono ks : forall m k,
  default 0 (JsMap.get m k) <= default 0 (JsMap.get (fold_left bump ks m) k).
Proof.
  induction ks as [|x ks IH]; intros m k; simpl; [lia|].
  etrans; [|apply IH].
  destruct (String.eqb_spec x k) as [->|Hne].
  - rewrite bump_get_eq. simpl. lia.
  - rewrite bump_get_ne by assumption. lia.
Qed.

End BumpFacts.

Section PairsExtractFacts.
Import Pairs.

Abbreviation line_items := (fun li : LineItem => (line_step ([], false) li).1).
Abbreviation line_saw := (fun li : LineItem => (line_step ([], false) li).2).

Lemma line_step_decomp st li :
  line_step st li = (st.1 ++ line_items li, st.2 || line_saw li).
Proof.
  destruct st as [items saw]. unfold line_step. cbn [fst snd].
  destruct (Num.le _ _); [by rewrite app_nil_r, orb_false_r|].
  destruct (Num.le _ _); [by rewrite app_nil_r, orb_false_r|].
  destruct (existsb _ _).
  - by rewrite app_nil_r, orb_true_r.
  - by rewrite orb_false_r.
Qed.

Lemma fold_line_step lines : forall st,
  fold_left line_step lines st
  = (st.1 ++ flat_map line_items lines, st.2 || existsb line_saw lines).
Proof.
  induction lines as [|li lines IH]; intros st; simpl.
  - destruct st. by rewrite app_nil_r, orb_false_r.
  - rewrite IH, line_step_decomp. cbn [fst snd].
    rewrite <- app_assoc, <- orb_assoc. reflexivity.
Qed.

(** A line pushes at most one item, and none when it is a gummies
    line. *)
Lemma line_items_cases li :
  (line_items li = [] \/ exists it, line_items li = [it] /\ line_saw li = false)
  /\ Forall (fun it => bar_free (key it) = true) (line_items li).
Proof.
  unfold line_step. cbn [fst snd].
  destruct (Num.le _ _); [split; [by left | constructor]|].
  destruct (Num.le _ _); [split; [by left | constructor]|].
  destruct (existsb _ _); [split; [by left | constructor]|].
  split; [right; eexists; split; reflexivity|].
  repeat constructor. cbn [key].
  rewrite !bar_free_app, bar_free_String_of_id, bar_free_String_of_Z.
  reflexivity.
Qed.

(** The items before the dedupe loop. *)
Lemma extract_unfold ord :
  extractItemsForOrder ord
  = JsMap.values
      (fold_left uniq_step
         (if existsb line_saw (o_line_items ord)
          then flat_map line_items (o_line_items ord)
               ++ [mkItem "gummies::consolidated" "Gummies"]
          else flat_map line_items (o_line_items ord)) []).
Proof.
  unfold extractItemsForOrder. rewrite fold_line_step. reflexivity.
Qed.

Lemma raw_keys_spec ord k :
  k ∈ key <$>
      (if existsb line_saw (o_line_items ord)
       then flat_map line_items (o_line_items ord)
            ++ [mkItem "gummies::consolidated" "Gummies"]
       else flat_map line_items (o_line_items ord))
  <-> exists li, li ∈ o_line_items ord /\ line_key li = Some k.
Proof.
  assert (k ∈ key <$> flat_map line_items (o_line_items ord)
          <-> exists li, li ∈ o_line_items ord /\
                exists it, line_items li = [it] /\ key it = k) as Hflat.
  { rewrite list_elem_of_fmap. split.
    - intros (it & -> & Hit).
      apply list_elem_of_In, in_flat_map in Hit as (li & Hli & Hit).
      exists li. split; [by apply list_elem_of_In|].
      destruct (line_items_cases li) as [[E|(it' & E & _)] _];
        rewrite E in Hit; [inversion Hit|].
      destruct Hit as [->|[]]. eauto.
    - intros (li & Hli & it & E & <-). exists it. split; [reflexivity|].
      apply list_elem_of_In, in_flat_map. exists li.
      split; [by apply list_elem_of_In|]. rewrite E. by left. }
  assert (forall li, line_key li = Some k
            <-> (exists it, line_items li = [it] /\ key it = k)
                \/ (line_items li = [] /\ line_saw li = true
                    /\ k = "gummies::consolidated")) as Hkey.
  { intros li. unfold line_key.
    destruct (line_items_cases li) as [[E|(it & E & E')] _].
    - destruct (line_step ([], false) li) as [its saw]. cbn [fst snd] in *.
      subst its. destruct saw; split.
      + intros [= <-]. right. auto.
      + intros [(it & [=] & _)|(_ & _ & ->)]. reflexivity.
      + discriminate.
      + intros [(it & [=] & _)|(_ & [=] & _)].
    - destruct (line_step ([], false) li) as [its saw]. cbn [fst snd] in *.
      subst its saw. split.
      + intros [= <-]. left. eauto.
      + intros [(it' & [= <-] & <-)|([=] & _)]. reflexivity. }
  destruct (existsb line_saw (o_line_items ord)) eqn:Hsaw.
  - rewrite fmap_app, elem_of_app, Hflat. cbn [fmap list_fmap key].
    rewrite list_elem_of_singleton. split.
    + intros [(li & Hli & Hit)| ->].
      * exists li. split; [assumption|]. apply Hkey. by left.
      * apply existsb_exists in Hsaw as (li & Hli & Hs).
        exists li. split; [by apply list_elem_of_In|]. apply Hkey. right.
        destruct (line_items_cases li) as [[E|(it & _ & E')] _];
          [auto | congruence].
    + intros (li & Hli & Hk). apply Hkey in Hk as [Hk|(_ & _ & ->)].
      * left. eauto.
      * by right.
  - rewrite Hflat. split.
    + intros (li & Hli & Hit). exists li. split; [assumption|].
      apply Hkey. by left.
    + intros (li & Hli & Hk). apply Hkey in Hk as [Hk|(_ & Hs & _)].
      * eauto.
      * exfalso. assert (existsb line_saw (o_line_items ord) = true).
        { apply existsb_exists. exists li. split; [by apply list_elem_of_In|].
          exact Hs. }
        congruence.
Qed.

Abbreviation pkeyed :=
  (fun m : list (string * Item) =>
     NoDup (fst <$> m) /\ Forall (fun e => key e.2 = e.1) m).

Lemma uniq_step_keyed m it : pkeyed m -> pkeyed (uniq_step m it).
Proof.
  intros [Hnd Hk]. unfold uniq_step.
  destruct (JsMap.has m (key it)); [split; assumption|].
  split; [apply set_NoDup, Hnd|]. apply set_Forall; [exact Hk|reflexivity].
Qed.

Lemma uniq_step_keys m it k :
  k ∈ fst <$> uniq_step m it <-> k ∈ fst <$> m \/ k = key it.
Proof.
  unfold uniq_step, JsMap.has.
  destruct (JsMap.get m (key it)) as [v|] eqn:Hget.
  - split; [by left|]. intros [H| ->]; [assumption|].
    apply get_elem_of in Hget. apply list_elem_of_fmap. by exists (key it, v).
  - rewrite set_keys_new by assumption.
    rewrite elem_of_app, list_elem_of_singleton. reflexivity.
Qed.

Lemma uniq_fold items : forall m,
  pkeyed m ->
  pkeyed (fold_left uniq_step items m) /\
  (forall k, k ∈ fst <$> fold_left uniq_step items m
             <-> k ∈ fst <$> m \/ k ∈ key <$> items).
Proof.
  induction items as [|it items IH]; intros m Hm; cbn [fold_left].
  - split; [exact Hm|]. intros k. split; [by left|].
    intros [H|H]; [exact H | inversion H].
  - destruct (IH _ (uniq_step_keyed m it Hm)) as [H1 H2].
    split; [exact H1|]. intros k.
    rewrite H2, uniq_step_keys, fmap_cons, elem_of_cons. tauto.
Qed.

(** The items of an order: distinct keys, the keys that its lines
    resolve to, none of them with a bar. *)
Lemma extract_keys ord :
  NoDup (key <$> extractItemsForOrder ord) /\
  (forall k, k ∈ key <$> extractItemsForOrder ord
             <-> exists li, li ∈ o_line_items ord /\ line_key li = Some k) /\
  forallb bar_free (key <$> extractItemsForOrder ord) = true.
Proof.
  rewrite extract_unfold.
  set (raw := if existsb line_saw (o_line_items ord) then _ else _).
  destruct (uniq_fold raw [] ltac:(split; constructor)) as [[Hnd Hk] Hkeys].
  assert (key <$> JsMap.values (fold_left uniq_step raw [])
          = fst <$> fold_left uniq_step raw []) as ->.
  { unfold JsMap.values. rewrite <- list_fmap_compose.
    apply Forall_fmap_ext. eapply Forall_impl; [exact Hk|].
    intros e He. exact He. }
  assert (forall k, k ∈ fst <$> fold_left uniq_step raw [] <->
            exists li, li ∈ o_line_items ord /\ line_key li = Some k) as Hspec.
  { intros k. rewrite Hkeys, <- raw_keys_spec. fold raw.
    split; [intros [H|H]; [inversion H | exact H] | by right]. }
  split; [exact Hnd|]. split; [exact Hspec|].
  apply forallb_forall. intros k Hk'.
  apply list_elem_of_In, Hspec in Hk' as (li & _ & Hli).
  unfold line_key in Hli.
  destruct (line_items_cases li) as [_ Hfree].
  destruct (line_step ([], false) li) as [[|it its] saw]; cbn [fst] in *.
  - destruct saw; [|discriminate]. by injection Hli as <-.
  - injection Hli as <-. by apply Forall_cons in Hfree as [Hfree _].
Qed.

End PairsExtractFacts.

(** ** The aggregation of the pairs page *)

Section PairsAggFacts.
Import Pairs.

Lemma existsb_eqb_false (k : string) (seen : list string) :
  k ∉ seen -> existsb (String.eqb k) seen = false.
Proof.
  intros Hk. destruct (existsb _ _) eqn:E; [|reflexivity].
  apply existsb_exists in E as (x & Hx & Heq).
  apply String.eqb_eq in Heq as ->. exfalso.
  by apply Hk, list_elem_of_In.
Qed.

Lemma item_fold items : forall c seen,
  NoDup (seen ++ (key <$> items)) ->
  itemCounts (fold_left item_step items (c, seen)).1
  = fold_left bump (key <$> items) (itemCounts c) /\
  pairCounts (fold_left item_step items (c, seen)).1 = pairCounts c.
Proof.
  induction items as [|it items IH]; intros c seen Hnd; [by split|].
  rewrite fmap_cons in Hnd. cbn [fold_left item_step].
  rewrite existsb_eqb_false.
  - rewrite fmap_cons. cbn [fold_left].
    apply (IH (mkCounts (bump (itemCounts c) (key it)) (pairCounts c)
                        (JsMap.set (products c) (key it) (label it)))
              (seen ++ [key it])).
    rewrite <- app_assoc. exact Hnd.
  - apply NoDup_app in Hnd as (_ & Hdis & _). intros Hin.
    apply (Hdis _ Hin). left.
Qed.

Lemma pair_fold pairs : forall c,
  itemCounts (fold_left pair_step pairs c) = itemCounts c /\
  pairCounts (fold_left pair_step pairs c)
  = fold_left bump (pairKey <$> pairs) (pairCounts c).
Proof.
  induction pairs as [|ab pairs IH]; intros c; [by split|].
  rewrite fmap_cons. cbn [fold_left].
  destruct (IH (pair_step c ab)) as [-> ->]. by split.
Qed.

(** What one order does to the two count maps. *)
Lemma order_step_counts c ord :
  itemCounts (order_step c ord)
  = fold_left bump (key <$> extractItemsForOrder ord) (itemCounts c) /\
  pairCounts (order_step c ord)
  = fold_left bump
      (pairKey <$>
       index_pairs (sort String.compare (key <$> extractItemsForOrder ord)))
      (pairCounts c).
Proof.
  unfold order_step.
  destruct (extractItemsForOrder ord) as [|it items] eqn:E; [by split|].
  cbn [length Nat.ltb Nat.leb]. rewrite <- E.
  destruct (pair_fold
              (index_pairs (sort String.compare
                                 (key <$> extractItemsForOrder ord)))
              (fold_left item_step (extractItemsForOrder ord) (c, [])).1)
    as [-> ->].
  destruct (item_fold (extractItemsForOrder ord) c [])
    as [-> ->]; [rewrite app_nil_l; apply extract_keys | by split].
Qed.

Lemma elem_of_index_pairs ks a b :
  (a, b) ∈ index_pairs ks -> a ∈ ks /\ b ∈ ks.
Proof.
  induction ks as [|x ks IH]; cbn [index_pairs]; [intros H; inversion H|].
  rewrite elem_of_app, list_elem_of_fmap.
  intros [(b' & [= -> ->] & Hb)|H].
  - split; [left | by right].
  - destruct (IH H). split; by right.
Qed.

Lemma index_pairs_NoDup ks : NoDup ks -> NoDup (index_pairs ks).
Proof.
  induction ks as [|x ks IH]; cbn [index_pairs]; intros Hnd; [constructor|].
  apply NoDup_cons in Hnd as [Hx Hnd].
  apply NoDup_app. split; [|split].
  - apply NoDup_fmap_2; [|exact Hnd]. intros ? ? E. congruence.
  - intros [a b] (b' & [= -> ->] & _)%list_elem_of_fmap Hin.
    apply elem_of_index_pairs in Hin as [Hin _]. contradiction.
  - apply IH, Hnd.
Qed.

Lemma pairKeys_NoDup ks :
  NoDup ks -> forallb bar_free ks = true ->
  NoDup (pairKey <$> index_pairs ks).
Proof.
  intros Hnd Hfree. apply NoDup_fmap_2_strong; [|apply index_pairs_NoDup, Hnd].
  intros [a b] [a' b'] H H' E.
  apply elem_of_index_pairs in H as [Ha _].
  apply elem_of_index_pairs in H' as [Ha' _].
  rewrite forallb_forall in Hfree.
  destruct (pairKey_inj a b a' b') as [-> ->];
    [apply Hfree, list_elem_of_In, Ha | apply Hfree, list_elem_of_In, Ha'
    | exact E | reflexivity].
Qed.

Lemma sorted_keys ord :
  let ks := sort String.compare (key <$> extractItemsForOrder ord) in
  NoDup ks /\ forallb bar_free ks = true /\
  (forall k, k ∈ ks <-> k ∈ key <$> extractItemsForOrder ord).
Proof.
  cbn zeta. destruct (extract_keys ord) as (Hnd & _ & Hfree).
  split; [apply sort_NoDup, Hnd|]. split.
  - apply forallb_forall. intros k Hk. rewrite forallb_forall in Hfree.
    apply Hfree, list_elem_of_In. apply list_elem_of_In in Hk.
    by rewrite sort_perm in Hk.
  - intros k. by rewrite sort_perm.
Qed.

(** C4: presence-based counting.  When [N >= 1] lines of an order resolve
    to the key [k], the order adds exactly 1 to the item count of [k],
    and at most 1 to the count of any pair. *)
Theorem presence_based_counting (c : Counts) (ord : Order) (k : string)
        (N : nat) :
  N = length (List.filter (fun li => bool_decide (line_key li = Some k))
                          (o_line_items ord)) ->
  1 <= N ->
  JsMap.get (itemCounts (order_step c ord)) k
  = Some (default 0 (JsMap.get (itemCounts c) k) + 1) /\
  (forall pk,
     default 0 (JsMap.get (pairCounts (order_step c ord)) pk)
     <= default 0 (JsMap.get (pairCounts c) pk) + 1).
Proof.
  intros -> HN. destruct (order_step_counts c ord) as [-> ->].
  destruct (extract_keys ord) as (Hnd & Hspec & _).
  split.
  - apply bump_fold_in; [exact Hnd|]. apply Hspec.
    destruct (List.filter _ _) as [|li rest] eqn:E; [simpl in HN; lia|].
    assert (li ∈ List.filter
                   (fun li => bool_decide (line_key li = Some k))
                   (o_line_items ord)) as Hli by (rewrite E; left).
    apply elem_of_filter_bool in Hli as [Hli Hk].
    apply bool_decide_eq_true in Hk. eauto.
  - intros pk. destruct (sorted_keys ord) as (Hs & Hfree & _).
    destruct (decide (pk ∈ pairKey <$>
                index_pairs (sort String.compare
                                  (key <$> extractItemsForOrder ord))))
      as [Hin|Hout].
    + rewrite bump_fold_in by (try apply pairKeys_NoDup; assumption).
      reflexivity.
    + rewrite bump_fold_notin by assumption. lia.
Qed.

Abbreviation bounded :=
  (fun c : Counts =>
     forall pk cnt,
       JsMap.get (pairCounts c) pk = Some cnt ->
       exists a b,
         pk = pairKey (a, b) /\ bar_free a = true /\ bar_free b = true /\
         cnt <= default 0 (JsMap.get (itemCounts c) a) /\
         cnt <= default 0 (JsMap.get (itemCounts c) b)).

Lemma bounded_step c ord : bounded c -> bounded (order_step c ord).
Proof.
  intros Inv pk cnt. destruct (order_step_counts c ord) as [-> ->].
  destruct (extract_keys ord) as (Hnd & _ & _).
  destruct (sorted_keys ord) as (Hs & Hfree & Hsame).
  set (ks := key <$> extractItemsForOrder ord) in *.
  set (pks := pairKey <$> index_pairs (sort String.compare ks)).
  destruct (decide (pk ∈ pks)) as [Hin|Hout].
  - rewrite bump_fold_in by (try apply pairKeys_NoDup; assumption).
    intros [= <-].
    apply list_elem_of_fmap in Hin as ([a b] & -> & Hab).
    apply elem_of_index_pairs in Hab as [Ha Hb].
    rewrite forallb_forall in Hfree.
    pose proof (Hfree a ltac:(by apply list_elem_of_In)) as Hfa.
    pose proof (Hfree b ltac:(by apply list_elem_of_In)) as Hfb.
    exists a, b. split; [reflexivity|]. split; [assumption|].
    split; [assumption|].
    rewrite !bump_fold_in by (try apply Hsame; assumption).
    cbn [from_option id].
    destruct (JsMap.get (pairCounts c) (pairKey (a, b))) as [cnt0|] eqn:Hold;
      cbn [from_option id]; [|lia].
    destruct (Inv _ _ Hold) as (a0 & b0 & E & Ha0 & _ & Hca & Hcb).
    apply pairKey_inj in E as [<- <-]; [lia | assumption..].
  - rewrite bump_fold_notin by assumption. intros Hget.
    destruct (Inv _ _ Hget) as (a & b & -> & Hfa & Hfb & Hca & Hcb).
    exists a, b. split; [reflexivity|]. split; [assumption|].
    split; [assumption|].
    pose proof (bump_fold_mono ks (itemCounts c) a).
    pose proof (bump_fold_mono ks (itemCounts c) b). lia.
Qed.

Lemma bounded_fold orders : forall c,
  bounded c -> bounded (fold_left order_step orders c).
Proof.
  induction orders as [|o orders IH]; intros c Hc; [exact Hc|].
  apply IH, bounded_step, Hc.
Qed.

(** Antimonotonicity of the counts of the pairs page: the support of a
    pair is at most the count of each of its two items. *)
Lemma pair_counts_antimonotone (Date_parse : string -> option Z)
      (orders : list Order) (fromIso toIso : option string)
      (pk : string) (cnt : nat) :
  let c := aggregate Date_parse orders fromIso toIso in
  let total := length (eligible Date_parse orders fromIso toIso) in
  JsMap.get (pairCounts c) pk = Some cnt ->
  support (pair_row total (itemCounts c) pk cnt)
  <= countA (pair_row total (itemCounts c) pk cnt) /\
  support (pair_row total (itemCounts c) pk cnt)
  <= countB (pair_row total (itemCounts c) pk cnt).
Proof.
  intros c total Hget.
  assert (bounded c) as Inv.
  { apply bounded_fold. intros pk' cnt' H. discriminate H. }
  destruct (Inv _ _ Hget) as (a & b & -> & Hfa & Hfb & Hca & Hcb).
  unfold pair_row. cbn [support countA countB].
  rewrite split_bars_pairKey by assumption. split; assumption.
Qed.

End PairsAggFacts.

(** ** The keys of the second bundle page hold no bar *)

Section ProductIdFacts.
Import Bundles.

Abbreviation free := (fun s : string => bar_free s = true).

Abbreviation keyed_by_id :=
  (fun m : list (string * BItem) =>
     NoDup (fst <$> m) /\ Forall (fun e => keyOf ByProductId e.2 = e.1) m).

Lemma bar_free_rev_app a b :
  bar_free (String.rev_app a b) = bar_free a && bar_free b.
Proof.
  revert b. induction a as [|c a IH]; intros b; [reflexivity|].
  cbn [String.rev_app]. rewrite IH. cbn [bar_free].
  destruct (negb _), (bar_free a), (bar_free b); reflexivity.
Qed.

Lemma bar_free_rev a : bar_free (String.rev a) = bar_free a.
Proof. unfold String.rev. rewrite bar_free_rev_app. apply andb_true_r. Qed.

Lemma bar_free_trimStart s : free s -> free (Js.trimStart s).
Proof.
  induction s as [|c s IH]; intros H; [reflexivity|].
  cbn [Js.trimStart]. destruct (Js.is_space c); [|exact H].
  apply IH. eapply bar_free_tail, H.
Qed.

Lemma bar_free_trimEnd s : free s -> free (Js.trimEnd s).
Proof.
  induction s as [|c s IH]; intros H; [reflexivity|].
  cbn [Js.trimEnd]. cbn [bar_free] in H. apply andb_true_iff in H as [Hc Hs].
  specialize (IH Hs). destruct (Js.trimEnd s).
  - destruct (Js.is_space c); [reflexivity|].
    cbn [bar_free]. rewrite Hc. reflexivity.
  - cbn [bar_free] in *. rewrite Hc. exact IH.
Qed.

Lemma bar_free_trim s : free s -> free (Js.trim s).
Proof. intros H. apply bar_free_trimEnd, bar_free_trimStart, H. Qed.

Lemma part_sep_bar c : Js.is_part_sep c = false -> negb (Ascii.eqb c "|") = true.
Proof.
  intros H. destruct (Ascii.eqb_spec c "|") as [->|]; [discriminate|reflexivity].
Qed.

Lemma split_parts_go_free s : forall cur,
  free cur -> Forall free (Js.split_parts_go cur s).
Proof.
  induction s as [|c s IH]; intros cur Hcur; cbn [Js.split_parts_go].
  - repeat constructor. by rewrite bar_free_rev.
  - destruct (Js.is_part_sep c) eqn:Hc.
    + constructor; [by rewrite bar_free_rev | by apply IH].
    + apply IH. cbn [bar_free]. by rewrite part_sep_bar, Hcur.
Qed.

Lemma split_parts_free mv : Forall free (Js.split_parts mv).
Proof.
  unfold Js.split_parts. apply Forall_forall. intros p Hp.
  apply elem_of_filter_bool in Hp as [Hp _].
  apply list_elem_of_fmap in Hp as (q & -> & Hq).
  apply bar_free_trim.
  pose proof (split_parts_go_free mv "" eq_refl) as H.
  rewrite Forall_forall in H. by apply H.
Qed.

Lemma set_add_free set x :
  Forall free set -> free x -> Forall free (set_add set x).
Proof.
  intros Hs Hx. unfold set_add. destruct (existsb _ _); [exact Hs|].
  apply Forall_app. split; [exact Hs | by repeat constructor].
Qed.

Lemma flavors_free :
  Forall (fun f => free (Js.capitalize f)) GUMMIES_FLAVORS.
Proof. repeat constructor. Qed.

Lemma add_flavors_free set text :
  Forall free set -> Forall free (add_flavors set text).
Proof.
  unfold add_flavors. generalize GUMMIES_FLAVORS, flavors_free.
  intros L HL. revert set.
  induction HL as [|f L Hf _ IH]; intros set Hs; [exact Hs|].
  cbn [fold_left]. apply IH.
  destruct (Js.word_test f text); [by apply set_add_free | exact Hs].
Qed.

Lemma part_step_free set p :
  Forall free set -> free p -> Forall free (part_step set p).
Proof.
  intros Hs Hp. unfold part_step.
  assert (forall L, Forall (fun f => free (Js.capitalize f)) L ->
            forall st : list string * bool,
              Forall free st.1 ->
              Forall free
                (fold_left
                   (fun (st : list string * bool) f =>
                      if Js.word_test f p
                      then (set_add st.1 (Js.capitalize f), true) else st)
                   L st).1) as H.
  { intros L HL. induction HL as [|f L Hf _ IH]; intros st Hst; [exact Hst|].
    cbn [fold_left]. apply IH.
    destruct (Js.word_test f p); [by apply set_add_free | exact Hst]. }
  specialize (H GUMMIES_FLAVORS flavors_free (set, false) Hs).
  destruct (fold_left _ GUMMIES_FLAVORS (set, false)) as [set' found].
  cbn [fst] in H. destruct (negb found && _); [by apply set_add_free | exact H].
Qed.

Lemma fold_free {X : Type} (f : list string -> X -> list string) (l : list X) :
  (forall set x, x ∈ l -> Forall free set -> Forall free (f set x)) ->
  forall set, Forall free set -> Forall free (fold_left f l set).
Proof.
  induction l as [|x l IH]; intros Hf set Hs; [exact Hs|].
  cbn [fold_left]. apply IH.
  - intros set' y Hy. apply Hf. by right.
  - apply Hf; [left | exact Hs].
Qed.

(** The loop over the lines keeps product ids and flavours free of
    bars. *)
Lemma line_step_free explode st li :
  Forall (fun it => free (productId it)) st.1.1 -> Forall free st.1.2 ->
  Forall (fun it => free (productId it)) (line_step explode st li).1.1 /\
  Forall free (line_step explode st li).1.2.
Proof.
  destruct st as [[nonGummies flavorSet] saw]. cbn [fst snd].
  intros Hng Hset. unfold line_step.
  destruct (String.eqb _ "Gummies").
  - set (set1 := add_flavors flavorSet _).
    set (set2 := fold_left add_flavors _ set1).
    set (set3 := if (length set2 =? 0) && _ then _ else set2).
    assert (Forall free set2) as H2.
    { apply fold_free; [|by apply add_flavors_free].
      intros. by apply add_flavors_free. }
    assert (Forall free set3) as H3.
    { unfold set3. destruct (_ && _); [|exact H2].
      apply fold_free; [|exact H2]. intros set mv _ Hs.
      pose proof (split_parts_free mv) as Hparts.
      apply fold_free; [|exact Hs]. intros set' p Hp Hs'.
      apply part_step_free; [exact Hs'|].
      rewrite Forall_forall in Hparts. by apply Hparts. }
    cbn [fst snd]. split; [|exact H3].
    destruct explode; [|exact Hng].
    destruct (0 <? length set3); apply Forall_app; split; try exact Hng.
    + apply Forall_fmap. eapply Forall_impl; [exact H3|].
      intros fv Hfv. cbn [productId flavored compose].
      rewrite bar_free_app, Hfv. reflexivity.
    + by repeat constructor.
  - cbn [fst snd]. split; [|exact Hset].
    apply Forall_app. split; [exact Hng|]. repeat constructor.
    cbn [productId]. apply bar_free_String_of_id.
Qed.

Lemma lines_free explode lines : forall st,
  Forall (fun it => free (productId it)) st.1.1 -> Forall free st.1.2 ->
  Forall (fun it => free (productId it))
         (fold_left (line_step explode) lines st).1.1.
Proof.
  induction lines as [|li lines IH]; intros st H1 H2; [exact H1|].
  cbn [fold_left].
  destruct (line_step_free explode st li H1 H2) as [H1' H2'].
  by apply IH.
Qed.

Lemma seen_step_keys_from m it k :
  k ∈ fst <$> seen_step ByProductId m it ->
  k ∈ fst <$> m \/ k = productId it.
Proof.
  unfold seen_step. cbn [keyOf].
  destruct (JsMap.get m (productId it)) as [existing|] eqn:Hget.
  - assert (is_Some (JsMap.get m (productId it))) as Hsome by by eexists.
    destruct (flavors existing), (flavors it); try (by left).
    destruct (String.eqb _ _); [|by left].
    rewrite set_keys_old by assumption. by left.
  - rewrite set_keys_new by assumption.
    rewrite elem_of_app, list_elem_of_singleton. tauto.
Qed.

Lemma seen2_step_keys_from m it k :
  k ∈ fst <$> seen2_step ByProductId m it ->
  k ∈ fst <$> m \/ k = productId it.
Proof.
  unfold seen2_step, JsMap.has. cbn [keyOf].
  destruct (JsMap.get m (productId it)) eqn:Hget; [by left|].
  rewrite set_keys_new by assumption.
  rewrite elem_of_app, list_elem_of_singleton. tauto.
Qed.

Lemma fold_keys_from
      (step : list (string * BItem) -> BItem -> list (string * BItem))
      (items : list BItem) :
  (forall m it k, k ∈ fst <$> step m it -> k ∈ fst <$> m \/ k = productId it) ->
  forall m k,
    k ∈ fst <$> fold_left step items m ->
    k ∈ fst <$> m \/ k ∈ productId <$> items.
Proof.
  intros Hstep. induction items as [|it items IH]; intros m k Hk;
    [by left|].
  cbn [fold_left] in Hk. rewrite fmap_cons, elem_of_cons.
  destruct (IH _ _ Hk) as [H|H]; [|tauto].
  destruct (Hstep _ _ _ H); tauto.
Qed.

(** In the second bundle page no key of an item ever holds a bar. *)
Lemma productId_keys_free explode order :
  forallb bar_free
    (keyOf ByProductId <$> extractLineItems ByProductId explode order) = true.
Proof.
  pose proof (lines_free explode (o_line_items order) ([], [], false)
                ltac:(constructor) ltac:(constructor)) as Hng.
  assert (keyed_by_id []) as H0 by (split; constructor).
  unfold extractLineItems.
  destruct (fold_left _ _ _) as [[nonGummies flavorSet] saw].
  cbn [fst] in Hng.
  assert (forall items m,
            Forall (fun it => free (productId it)) items ->
            (forall k, k ∈ fst <$> m -> k ∈ productId <$> items) ->
            keyed_by_id m ->
            forallb bar_free (keyOf ByProductId <$> JsMap.values m) = true)
    as Hfin.
  { intros items m Hitems Hfrom Hm. rewrite values_keys by exact Hm.
    apply forallb_forall. intros k Hk.
    apply list_elem_of_In, Hfrom, list_elem_of_fmap in Hk as (it & -> & Hit).
    rewrite Forall_forall in Hitems. by apply Hitems. }
  destruct (negb explode).
  - set (items := if 0 <? length flavorSet then _ else _).
    apply (Hfin items).
    + unfold items.
      destruct (0 <? length flavorSet); [|destruct saw]; try exact Hng;
        (apply Forall_app; split; [exact Hng | by repeat constructor]).
    + intros k Hk.
      destruct (fold_keys_from (seen_step ByProductId) items
                  seen_step_keys_from [] k Hk) as [H|H];
        [inversion H | exact H].
    + apply fold_keyed; [apply seen_step_keyed | exact H0].
  - apply (Hfin nonGummies); [exact Hng| |].
    + intros k Hk.
      destruct (fold_keys_from (seen2_step ByProductId) nonGummies
                  seen2_step_keys_from [] k Hk) as [H|H];
        [inversion H | exact H].
    + apply fold_keyed; [apply seen2_step_keyed | exact H0].
Qed.

End ProductIdFacts.

(** ** Antimonotonicity *)

(** X29: antimonotonicity of the counts, where the keys are sound.  In
    the pairs page the support of every pair is at most the count of each
    of its two items.  In the bundle pages
    the count of an itemset reached by the aggregation is at most the
    count of each of its non-empty sub-itemsets: always in the page that
    keys by product id, and in the page that keys by display name when no
    key of an item of an accepted order holds the character of the key
    separator. *)
Theorem counts_antimonotone :
  (forall (Date_parse : string -> option Z) (orders : list Order)
          (fromIso toIso : option string) (pk : string) (cnt : nat),
     let c := Pairs.aggregate Date_parse orders fromIso toIso in
     let total := length (Pairs.eligible Date_parse orders fromIso toIso) in
     JsMap.get (Pairs.pairCounts c) pk = Some cnt ->
     Pairs.support (Pairs.pair_row total (Pairs.itemCounts c) pk cnt)
     <= Pairs.countA (Pairs.pair_row total (Pairs.itemCounts c) pk cnt) /\
     Pairs.support (Pairs.pair_row total (Pairs.itemCounts c) pk cnt)
     <= Pairs.countB (Pairs.pair_row total (Pairs.itemCounts c) pk cnt)) /\
  (forall (localeCompare : string -> string -> comparison)
          (explodeGummies : bool) (maxSize : nat) (orders : list Order)
          (oT : Order) (T S : list Bundles.BItem),
     (oT, T) ∈ events localeCompare Bundles.ByProductId explodeGummies
                      maxSize orders ->
     S `sublist_of` T -> 1 <= length S ->
     count_at (Bundles.build_maps localeCompare Bundles.ByProductId
                                  explodeGummies maxSize orders)
              (length T) (Bundles.bundleKey Bundles.ByProductId T)
     <= count_at (Bundles.build_maps localeCompare Bundles.ByProductId
                                     explodeGummies maxSize orders)
                 (length S) (Bundles.bundleKey Bundles.ByProductId S)) /\
  (forall (localeCompare : string -> string -> comparison)
          (variant : Bundles.Variant) (explodeGummies : bool)
          (maxSize : nat) (orders : list Order) (oT : Order)
          (T S : list Bundles.BItem),
     forallb
       (fun o => negb (Bundles.is_eligible variant o)
                 || forallb bar_free
                      (Bundles.keyOf variant <$>
                       Bundles.extractLineItems variant explodeGummies o))
       orders = true ->
     (oT, T) ∈ events localeCompare variant explodeGummies maxSize orders ->
     S `sublist_of` T -> 1 <= length S ->
     count_at (Bundles.build_maps localeCompare variant explodeGummies
                                  maxSize orders)
              (length T) (Bundles.bundleKey variant T)
     <= count_at (Bundles.build_maps localeCompare variant explodeGummies
                                     maxSize orders)
                 (length S) (Bundles.bundleKey variant S)).
Proof.
  split; [|split].
  - intros. by apply pair_counts_antimonotone.
  - intros localeCompare explodeGummies maxSize orders oT T S HT HS Hlen.
    eapply bundle_counts_antimonotone; try eassumption.
    apply forallb_forall. intros o _.
    rewrite productId_keys_free. apply orb_true_r.
  - intros. by eapply bundle_counts_antimonotone.
Qed.

Lemma counts_antimonotone_witness :
  let T := sort (fun a b => String.compare
                              (Bundles.keyOf Bundles.ByDisplayName a)
                              (Bundles.keyOf Bundles.ByDisplayName b))
                (Bundles.extractLineItems Bundles.ByDisplayName false
                   (Demo.order 1 "completed" 60 0 None
                      [Demo.line 12 "Whey Protein" 1 35;
                       Demo.line 11 "Protein Bar" 1 25;
                       Demo.line 11 "Protein Bar" 2 50])) in
  count_at (Bundles.build_maps String.compare Bundles.ByDisplayName false
              Bundles.MAX_SIZE Demo.two_orders)
           (length T) (Bundles.bundleKey Bundles.ByDisplayName T)
  <= count_at (Bundles.build_maps String.compare Bundles.ByDisplayName false
                 Bundles.MAX_SIZE Demo.two_orders)
              (length (take 1 T))
              (Bundles.bundleKey Bundles.ByDisplayName (take 1 T)).
Proof.
  intros T.
  apply (proj2 (proj2 counts_antimonotone) String.compare
           Bundles.ByDisplayName false
           Bundles.MAX_SIZE Demo.two_orders
           (Demo.order 1 "completed" 60 0 None
              [Demo.line 12 "Whey Protein" 1 35;
               Demo.line 11 "Protein Bar" 1 25;
               Demo.line 11 "Protein Bar" 2 50]) T (take 1 T)).
  - vm_compute. reflexivity.
  - apply list_elem_of_In. vm_compute. right. right. left. reflexivity.
  - apply sublist_take.
  - vm_compute. lia.
Defined.

(** C1: the first bundle page breaks the antimonotonicity of its counts
    where two itemsets of one order are joined to the same key.  The four
    items of [Demo.collision_order] give two combinations of size 2 with
    the same joined key, so that this one order is counted twice for the
    pair [collision_T] and once for its sub-itemset [collision_S]. *)
Lemma bundle_key_collision :
  let maps := Bundles.build_maps String.compare Bundles.ByDisplayName false
                Bundles.MAX_SIZE [Demo.collision_order] in
  (Demo.collision_order, Demo.collision_T)
    ∈ events String.compare Bundles.ByDisplayName false Bundles.MAX_SIZE
             [Demo.collision_order] /\
  Demo.collision_S `sublist_of` Demo.collision_T /\
  Bundles.bundleKey Bundles.ByDisplayName Demo.collision_T = "! | | #2" /\
  Bundles.bundleKey Bundles.ByDisplayName Demo.collision_S = "#2" /\
  count_at maps 2 "! | | #2" = 2 /\
  count_at maps 1 "#2" = 1 /\
  ~ (count_at maps (length Demo.collision_T)
              (Bundles.bundleKey Bundles.ByDisplayName Demo.collision_T)
     <= count_at maps (length Demo.collision_S)
                 (Bundles.bundleKey Bundles.ByDisplayName Demo.collision_S)).
Proof.
  cbn zeta. split; [|split; [|split; [|split; [|split; [|split]]]]].
  - apply list_elem_of_In. vm_compute. tauto.
  - apply sublist_cons. reflexivity.
  - reflexivity.
  - reflexivity.
  - vm_compute. reflexivity.
  - vm_compute. reflexivity.
  - vm_compute. lia.
Qed.

(** C9: the same two combinations make the first bundle page sample one
    order twice.  In the dataset of [Demo.collision_order] followed by the
    five orders of [Demo.collision_followers], six orders contribute to
    the key of the pair; the sample of its record holds the first order
    twice and leaves the sixth one out. *)
Lemma sample_repeats_colliding_order :
  let orders := Demo.collision_order :: Demo.collision_followers in
  let maps := Bundles.build_maps String.compare Bundles.ByDisplayName false
                Bundles.MAX_SIZE orders in
  o_id <$> List.filter
             (contributes String.compare Bundles.ByDisplayName false
                          Bundles.MAX_SIZE 2 "! | | #2") orders
  = [Some 3; Some 201; Some 202; Some 203; Some 204; Some 205]%Z /\
  exists rec,
    JsMap.get (maps 2) "! | | #2" = Some rec /\
    Bundles.count rec = 7 /\
    Bundles.s_id <$> Bundles.sample rec
    = [Some 3; Some 3; Some 201; Some 202; Some 203; Some 204]%Z.
Proof.
  cbv zeta. split; [vm_compute; reflexivity|].
  eexists. split; [vm_compute; reflexivity|].
  split; vm_compute; reflexivity.
Qed.

Lemma presence_based_counting_witness :
  JsMap.get
    (Pairs.itemCounts
       (Pairs.order_step (Pairs.mkCounts [("11::0", 4)] [] [])
          (Demo.order 1 "completed" 60 0 None
             [Demo.line 12 "Whey Protein" 1 35;
              Demo.line 11 "Protein Bar" 1 25;
              Demo.line 11 "Protein Bar" 2 50])))
    "11::0"
  = Some (4 + 1).
Proof.
  apply (presence_based_counting (Pairs.mkCounts [("11::0", 4)] [] [])
           (Demo.order 1 "completed" 60 0 None
              [Demo.line 12 "Whey Protein" 1 35;
               Demo.line 11 "Protein Bar" 1 25;
               Demo.line 11 "Protein Bar" 2 50])
           "11::0" 2).
  - vm_compute. reflexivity.
  - lia.
Defined.

(** ** Words and display names *)

Section WordFacts.

Lemma string_app_assoc (a b c : string) : (a +:+ b) +:+ c = a +:+ b +:+ c.
Proof.
  induction a as [|x a IH]; [reflexivity|].
  rewrite !app_String, IH. reflexivity.
Qed.

Lemma rev_app_app (c t : string) :
  String.rev_app c t = String.rev c +:+ t.
Proof.
  revert t. induction c as [|x c IH]; intros t; [reflexivity|].
  unfold String.rev. cbn [String.rev_app].
  rewrite (IH (String x t)), (IH (String x "")), string_app_assoc.
  reflexivity.
Qed.

Lemma rev_nonempty x c : String.rev (String x c) <> "".
Proof.
  unfold String.rev. cbn [String.rev_app]. rewrite rev_app_app.
  destruct (String.rev c); discriminate.
Qed.

Lemma words_go_cons cur a s :
  String.words_go cur (String a s)
  = if Ascii.is_space a
    then option_list (String.rev <$> cur) ++ String.words_go None s
    else String.words_go (Some (from_option (String a) (String a "") cur)) s.
Proof. reflexivity. Qed.

Lemma words_go_trimStart s :
  String.words_go None (Js.trimStart s) = String.words_go None s.
Proof.
  induction s as [|c s IH]; [reflexivity|].
  cbn [Js.trimStart String.words_go]. unfold Js.is_space.
  destruct (Ascii.is_space c) eqn:Hc; [exact IH|].
  cbn [String.words_go]. rewrite Hc. reflexivity.
Qed.

Lemma words_go_trimEnd s : forall cur,
  String.words_go cur (Js.trimEnd s) = String.words_go cur s.
Proof.
  induction s as [|c s IH]; intros cur; [reflexivity|].
  cbn [Js.trimEnd]. unfold Js.is_space. rewrite (words_go_cons cur c s).
  destruct (Js.trimEnd s) as [|c' r] eqn:E.
  - destruct (Ascii.is_space c) eqn:Hc.
    + rewrite <- IH. cbn [String.words_go]. rewrite app_nil_r. reflexivity.
    + rewrite <- IH. cbn [String.words_go]. rewrite Hc. reflexivity.
  - rewrite (words_go_cons cur c (String c' r)).
    destruct (Ascii.is_space c); rewrite IH; reflexivity.
Qed.

Lemma words_trim s : Js.words (Js.trim s) = Js.words s.
Proof.
  unfold Js.words, String.words, Js.trim.
  rewrite words_go_trimEnd. apply words_go_trimStart.
Qed.

Lemma words_go_some_nonnil s : forall c, String.words_go (Some c) s <> [].
Proof.
  induction s as [|a s IH]; intros c; cbn [String.words_go].
  - discriminate.
  - destruct (Ascii.is_space a); [discriminate | apply IH].
Qed.

Lemma words_nil_trimStart s : Js.words s = [] -> Js.trimStart s = "".
Proof.
  unfold Js.words, String.words.
  induction s as [|c s IH]; [reflexivity|].
  cbn [String.words_go Js.trimStart]. unfold Js.is_space.
  destruct (Ascii.is_space c).
  - exact IH.
  - intros H. exfalso. eapply words_go_some_nonnil, H.
Qed.

Lemma words_nil_trim s : Js.words s = [] -> Js.trim s = "".
Proof.
  intros H. unfold Js.trim. rewrite words_nil_trimStart by assumption.
  reflexivity.
Qed.

Lemma words_go_nonempty s : forall cur w,
  (forall c, cur = Some c -> c <> "") ->
  w ∈ String.words_go cur s -> w <> "".
Proof.
  induction s as [|a s IH]; intros cur w Hcur; cbn [String.words_go].
  - destruct cur as [c|]; cbn; [|intros H; inversion H].
    intros H. apply list_elem_of_singleton in H as ->.
    destruct c; [by specialize (Hcur _ eq_refl) | apply rev_nonempty].
  - destruct (Ascii.is_space a).
    + rewrite elem_of_app. intros [H|H].
      * destruct cur as [c|]; cbn in H; [|inversion H].
        apply list_elem_of_singleton in H as ->.
        destruct c; [by specialize (Hcur _ eq_refl) | apply rev_nonempty].
      * eapply IH; [|exact H]. discriminate.
    + apply IH. intros c [= <-]. destruct cur; discriminate.
Qed.

Lemma words_nonempty s w : w ∈ Js.words s -> w <> "".
Proof. apply words_go_nonempty. discriminate. Qed.

(** The first word is a piece of the string. *)
Lemma words_go_first s : forall cur w ws,
  String.words_go cur s = w :: ws ->
  exists pre post, from_option String.rev "" cur +:+ s = pre +:+ w +:+ post.
Proof.
  induction s as [|a s IH]; intros cur w ws; cbn [String.words_go].
  - destruct cur as [c|]; cbn; [|discriminate].
    intros [= <- _]. exists "", "". reflexivity.
  - destruct (Ascii.is_space a).
    + destruct cur as [c|]; cbn.
      * intros [= <- _]. exists "", (String a s). reflexivity.
      * intros H. destruct (IH None w ws H) as (pre & post & E).
        cbn in E. exists (String a pre), post.
        rewrite app_empty, app_String, <- E. reflexivity.
    + intros H. destruct (IH _ w ws H) as (pre & post & E).
      exists pre, post. rewrite <- E. cbn [from_option].
      destruct cur as [c|]; cbn [from_option].
      * unfold String.rev at 2. cbn [String.rev_app].
        rewrite rev_app_app, string_app_assoc. reflexivity.
      * reflexivity.
Qed.

Lemma toLowerCase_app a b :
  Js.toLowerCase (a +:+ b) = Js.toLowerCase a +:+ Js.toLowerCase b.
Proof.
  induction a as [|x a IH]; [reflexivity|].
  rewrite app_String. cbn [Js.toLowerCase]. rewrite IH. reflexivity.
Qed.

Lemma includes_app_r pre s sub :
  Js.includes s sub = true -> Js.includes (pre +:+ s) sub = true.
Proof.
  intros H. induction pre as [|x pre IH]; [exact H|].
  rewrite app_String. cbn [Js.includes]. rewrite IH. apply orb_true_r.
Qed.

Lemma prefix_app sub s post :
  String.prefix sub s = true -> String.prefix sub (s +:+ post) = true.
Proof.
  revert s. induction sub as [|x sub IH]; intros s H;
    [by destruct (s +:+ post)|].
  destruct s as [|y s]; [discriminate|].
  rewrite app_String. cbn [String.prefix] in *.
  destruct (ascii_dec x y); [apply IH, H | discriminate].
Qed.

Lemma includes_prefix s sub :
  String.prefix sub s = true -> Js.includes s sub = true.
Proof. intros H. destruct s; cbn [Js.includes]; rewrite H; reflexivity. Qed.

End WordFacts.

Section DisplayFacts.
Import Bundles.

Lemma join_take2_nonempty w ws :
  w <> "" -> Js.nonempty (Js.join " " (take 2 (w :: ws))) = true.
Proof.
  intros Hw. destruct w as [|c w]; [contradiction|].
  destruct ws; reflexivity.
Qed.

(** The display name of a line that is not a gummies line, from the
    words of its name. *)
Lemma display_cases li :
  is_gummies_line li = false ->
  (Js.words (Js.or_empty (li_name li)) = [] /\ display_of li = "Unknown") \/
  (exists w ws,
     Js.words (Js.or_empty (li_name li)) = w :: ws /\ w <> "" /\
     display_of li = Js.join " " (take 2 (w :: ws)) /\
     Js.words (Js.trim (rawName_of li)) = w :: ws /\
     Js.includes (Js.toLowerCase (Js.trim (rawName_of li))) "gummi" = false).
Proof.
  unfold is_gummies_line, display_of, normalizeProductName.
  pose proof (words_trim (Js.or_empty (li_name li))) as Hw.
  fold (rawName_of li) in Hw.
  destruct (Js.nonempty (rawName_of li)) eqn:Hne; cbn [negb fst].
  - destruct (Js.includes _ "gummi") eqn:Hg; cbn [fst]; [discriminate|].
    intros _. right.
    destruct (Js.words (Js.or_empty (li_name li))) as [|w ws] eqn:Hws.
    + apply words_nil_trim in Hws. fold (rawName_of li) in Hws.
      rewrite Hws in Hne. discriminate.
    + exists w, ws. rewrite words_trim, Hw.
      assert (w <> "") as Hwne.
      { apply (words_nonempty (Js.or_empty (li_name li))). rewrite Hws. left. }
      split; [reflexivity|]. split; [assumption|]. split; [|by split].
      unfold Js.str_or. rewrite join_take2_nonempty by assumption.
      reflexivity.
  - intros _. left. split; [|reflexivity].
    destruct (rawName_of li) eqn:E; [|discriminate]. by rewrite <- Hw.
Qed.

Lemma display_of_same_words li1 li2 :
  is_gummies_line li1 = false -> is_gummies_line li2 = false ->
  take 2 (Js.words (Js.or_empty (li_name li1)))
  = take 2 (Js.words (Js.or_empty (li_name li2))) ->
  display_of li2 = display_of li1.
Proof.
  intros H1 H2 E.
  destruct (display_cases li1 H1) as [[W1 ->]|(w1 & ws1 & W1 & _ & -> & _)];
    destruct (display_cases li2 H2) as [[W2 ->]|(w2 & ws2 & W2 & _ & -> & _)];
    rewrite W1, W2 in E; try discriminate; [reflexivity|].
  rewrite E. reflexivity.
Qed.

(** The display name of such a line is not the name of an exploded
    gummies item. *)
Lemma display_not_exploded li fv :
  is_gummies_line li = false -> display_of li <> "Gummies(" +:+ fv +:+ ")".
Proof.
  intros H.
  destruct (display_cases li H) as [[_ ->]|(w & ws & _ & Hw & -> & Hws & Hg)];
    [discriminate|].
  intros E.
  assert (String.prefix "gummi" (Js.toLowerCase w) = true) as Hp.
  { destruct w as [|c1 [|c2 [|c3 [|c4 [|c5 w]]]]]; [contradiction|..];
      destruct ws as [|w2 ws]; cbn in E; try discriminate E.
    - injection E as -> -> -> -> -> _.
      apply (prefix_app "gummi" "gummi" (Js.toLowerCase w)). reflexivity.
    - injection E as -> -> -> -> -> _.
      apply (prefix_app "gummi" "gummi" (Js.toLowerCase w)). reflexivity. }
  destruct (words_go_first _ None w ws Hws) as (pre & post & Hs).
  cbn [from_option] in Hs. rewrite app_empty in Hs.
  rewrite Hs, !toLowerCase_app in Hg.
  rewrite includes_app_r in Hg; [discriminate|].
  apply includes_prefix, prefix_app, Hp.
Qed.

Lemma display_not_gummies li :
  is_gummies_line li = false -> display_of li <> "Gummies".
Proof. unfold is_gummies_line. intros H E. rewrite E in H. discriminate. Qed.

Lemma bline_step_plain explode st li :
  is_gummies_line li = false ->
  line_step explode st li = (st.1.1 ++ [plain_item li], st.1.2, st.2)
  /\ displayName (plain_item li) = display_of li
  /\ flavors (plain_item li) = None.
Proof.
  intros H. unfold plain_item, line_step.
  destruct st as [[nonGummies flavorSet] saw].
  unfold is_gummies_line, display_of, rawName_of in H. rewrite H.
  repeat split.
Qed.

Lemma bline_step_gummies explode st li :
  is_gummies_line li = true ->
  exists pushed,
    (line_step explode st li).1.1 = st.1.1 ++ pushed /\
    Forall (fun it => exists fv, displayName it = "Gummies(" +:+ fv +:+ ")")
           pushed.
Proof.
  intros H. unfold line_step.
  destruct st as [[nonGummies flavorSet] saw].
  unfold is_gummies_line, display_of, rawName_of in H. rewrite H.
  cbn [fst snd]. destruct explode.
  - destruct (0 <? length _); eexists; (split; [reflexivity|]).
    + apply Forall_fmap, Forall_forall. intros fv _. by exists fv.
    + repeat constructor. by exists "Unspecified".
  - exists []. split; [by rewrite app_nil_r | constructor].
Qed.

(** The items pushed while going through lines none of which has the
    display name [d]. *)
Lemma bfold_without explode (d : string) lines : forall st,
  (forall fv, d <> "Gummies(" +:+ fv +:+ ")") ->
  (forall li, li ∈ lines -> is_gummies_line li = false -> display_of li <> d) ->
  exists X,
    (fold_left (line_step explode) lines st).1.1 = st.1.1 ++ X /\
    Forall (fun it => displayName it <> d) X.
Proof.
  induction lines as [|li lines IH]; intros st Hd Hl; cbn [fold_left].
  - exists []. split; [by rewrite app_nil_r | constructor].
  - destruct (IH (line_step explode st li) Hd) as (X & -> & HX).
    { intros li' Hli'. apply Hl. by right. }
    destruct (is_gummies_line li) eqn:Hg.
    + destruct (bline_step_gummies explode st li Hg) as (P & -> & HP).
      exists (P ++ X). split; [by rewrite app_assoc|].
      apply Forall_app. split; [|exact HX].
      eapply Forall_impl; [exact HP|]. intros it [fv ->]. by symmetry.
    + destruct (bline_step_plain explode st li Hg) as (-> & Hn & _).
      cbn [fst]. exists (plain_item li :: X).
      split; [by rewrite <- app_assoc|]. constructor; [|exact HX].
      rewrite Hn. apply Hl; [left | exact Hg].
Qed.

Lemma bfold_extends explode lines : forall st,
  exists X, (fold_left (line_step explode) lines st).1.1 = st.1.1 ++ X.
Proof.
  induction lines as [|li lines IH]; intros st; cbn [fold_left].
  - exists []. by rewrite app_nil_r.
  - destruct (IH (line_step explode st li)) as (X & ->).
    destruct (is_gummies_line li) eqn:Hg.
    + destruct (bline_step_gummies explode st li Hg) as (P & -> & _).
      exists (P ++ X). by rewrite app_assoc.
    + destruct (bline_step_plain explode st li Hg) as (-> & _ & _).
      cbn [fst]. exists (plain_item li :: X). by rewrite <- app_assoc.
Qed.

Lemma bfold_first explode (d : string) l1 li l2 st :
  (forall fv, d <> "Gummies(" +:+ fv +:+ ")") ->
  is_gummies_line li = false -> display_of li = d ->
  (forall li', li' ∈ l1 -> is_gummies_line li' = false -> display_of li' <> d) ->
  exists X1 X2,
    (fold_left (line_step explode) (l1 ++ li :: l2) st).1.1
    = st.1.1 ++ X1 ++ plain_item li :: X2 /\
    Forall (fun it => displayName it <> d) X1.
Proof.
  intros Hd Hg Hdisp Hl1. rewrite fold_left_app. cbn [fold_left].
  destruct (bfold_without explode d l1 st Hd Hl1) as (X1 & E1 & HX1).
  destruct (bline_step_plain explode
              (fold_left (line_step explode) l1 st) li Hg) as (E & _ & _).
  rewrite E, E1.
  destruct (bfold_extends explode l2
              (st.1.1 ++ X1 ++ [plain_item li],
               (fold_left (line_step explode) l1 st).1.2,
               (fold_left (line_step explode) l1 st).2)) as (X2 & E2).
  exists X1. exists X2. split; [|exact HX1].
  rewrite <- app_assoc, E2. cbn [fst].
  rewrite <- !app_assoc. reflexivity.
Qed.

End DisplayFacts.

Section DedupeFacts.
Import Bundles.
Variable variant : Variant.

Lemma seen_step_other m it k :
  keyOf variant it <> k ->
  JsMap.get (seen_step variant m it) k = JsMap.get m k.
Proof.
  intros Hk. unfold seen_step.
  destruct (JsMap.get m (keyOf variant it)) as [existing|].
  - destruct (flavors existing), (flavors it); try reflexivity.
    destruct (String.eqb _ _); [|reflexivity]. by apply get_set_ne.
  - by apply get_set_ne.
Qed.

Lemma seen_step_kept m it it0 k :
  JsMap.get m k = Some it0 -> flavors it0 = None ->
  JsMap.get (seen_step variant m it) k = Some it0.
Proof.
  intros Hget Hfl. destruct (decide (keyOf variant it = k)) as [E|Hne].
  - unfold seen_step. rewrite E, Hget, Hfl. exact Hget.
  - rewrite seen_step_other by assumption. exact Hget.
Qed.

Lemma seen_step_new m it :
  JsMap.get m (keyOf variant it) = None ->
  JsMap.get (seen_step variant m it) (keyOf variant it) = Some it.
Proof. intros H. unfold seen_step. rewrite H. apply get_set_eq. Qed.

Lemma seen2_step_other m it k :
  keyOf variant it <> k ->
  JsMap.get (seen2_step variant m it) k = JsMap.get m k.
Proof.
  intros Hk. unfold seen2_step.
  destruct (JsMap.has _ _); [reflexivity | by apply get_set_ne].
Qed.

Lemma seen2_step_kept m it it0 k :
  JsMap.get m k = Some it0 ->
  JsMap.get (seen2_step variant m it) k = Some it0.
Proof.
  intros Hget. destruct (decide (keyOf variant it = k)) as [E|Hne].
  - unfold seen2_step, JsMap.has. rewrite E, Hget. exact Hget.
  - rewrite seen2_step_other by assumption. exact Hget.
Qed.

Lemma seen2_step_new m it :
  JsMap.get m (keyOf variant it) = None ->
  JsMap.get (seen2_step variant m it) (keyOf variant it) = Some it.
Proof.
  intros H. unfold seen2_step, JsMap.has. rewrite H. apply get_set_eq.
Qed.

(** A dedupe loop keeps the first item of each key. *)
Lemma dedupe_first
      (step : list (string * BItem) -> BItem -> list (string * BItem))
      (X1 X2 : list BItem) (it0 : BItem) :
  (forall m it k, keyOf variant it <> k ->
                  JsMap.get (step m it) k = JsMap.get m k) ->
  (forall m it k, JsMap.get m k = Some it0 ->
                  JsMap.get (step m it) k = Some it0) ->
  (forall m it, JsMap.get m (keyOf variant it) = None ->
                JsMap.get (step m it) (keyOf variant it) = Some it) ->
  Forall (fun it => keyOf variant it <> keyOf variant it0) X1 ->
  JsMap.get (fold_left step (X1 ++ it0 :: X2) []) (keyOf variant it0)
  = Some it0.
Proof.
  intros Hother Hkept Hnew HX1.
  rewrite fold_left_app. cbn [fold_left].
  assert (forall m, JsMap.get (fold_left step X1 m) (keyOf variant it0)
                    = JsMap.get m (keyOf variant it0)) as H1.
  { induction HX1 as [|it X1 Hit _ IH]; intros m; [reflexivity|].
    cbn [fold_left]. rewrite IH. by apply Hother. }
  assert (forall m, JsMap.get m (keyOf variant it0) = Some it0 ->
                    JsMap.get (fold_left step X2 m) (keyOf variant it0)
                    = Some it0) as H2.
  { induction X2 as [|it X2 IH]; intros m Hm; [exact Hm|].
    cbn [fold_left]. apply IH, Hkept, Hm. }
  apply H2, Hnew. rewrite H1. reflexivity.
Qed.

End DedupeFacts.

Section CollapseFacts.
Import Bundles.

Lemma first_such {A : Type} (p : A -> bool) (l : list A) (x : A) :
  x ∈ l -> p x = true ->
  exists l1 y l2,
    l = l1 ++ y :: l2 /\ p y = true /\ forall z, z ∈ l1 -> p z = false.
Proof.
  induction l as [|a l IH]; intros Hx Hp; [inversion Hx|].
  destruct (p a) eqn:Ha.
  - exists [], a, l. split; [reflexivity|]. split; [exact Ha|].
    intros z Hz. inversion Hz.
  - apply elem_of_cons in Hx as [->|Hx]; [congruence|].
    destruct (IH Hx Hp) as (l1 & y & l2 & -> & Hy & Hl1).
    exists (a :: l1), y, l2. split; [reflexivity|]. split; [exact Hy|].
    intros z Hz. apply elem_of_cons in Hz as [->|Hz]; [exact Ha | by apply Hl1].
Qed.

Lemma filter_unique {A : Type} (f : A -> string) (l : list A) (x : A) :
  NoDup (f <$> l) -> x ∈ l ->
  List.filter (fun y => bool_decide (f y = f x)) l = [x].
Proof.
  induction l as [|a l IH]; intros Hnd Hx; [inversion Hx|].
  rewrite fmap_cons in Hnd. apply NoDup_cons in Hnd as [Ha Hnd].
  cbn [List.filter]. apply elem_of_cons in Hx as [->|Hx].
  - rewrite bool_decide_eq_true_2 by reflexivity. f_equal.
    clear IH. induction l as [|b l IH]; [reflexivity|].
    rewrite fmap_cons in Ha, Hnd.
    apply not_elem_of_cons in Ha as [Hab Ha].
    apply NoDup_cons in Hnd as [_ Hnd].
    cbn [List.filter]. rewrite bool_decide_eq_false_2 by congruence.
    by apply IH.
  - rewrite bool_decide_eq_false_2; [by apply IH|].
    intros E. apply Ha. rewrite E. apply list_elem_of_fmap. by exists x.
Qed.

Lemma filter_at_most_one {A : Type} (f : A -> string) (l : list A) (d : string) :
  NoDup (f <$> l) ->
  length (List.filter (fun y => bool_decide (f y = d)) l) <= 1.
Proof.
  intros Hnd. apply NoDup_all_equal.
  - apply (sublist_NoDup _ l); [eapply NoDup_fmap_1, Hnd|].
    apply filter_bool_sublist.
  - intros x y Hx Hy.
    apply elem_of_filter_bool in Hx as [Hx Ex].
    apply elem_of_filter_bool in Hy as [Hy Ey].
    apply bool_decide_eq_true in Ex, Ey.
    eapply fmap_inj_on; [exact Hnd | assumption.. | congruence].
Qed.

(** The item kept for the display name of a line that is not a gummies
    line is the one of the first such line. *)
Lemma kept_item explode order l1 li l2 :
  o_line_items order = l1 ++ li :: l2 ->
  is_gummies_line li = false ->
  (forall li', li' ∈ l1 -> is_gummies_line li' = false ->
               display_of li' <> display_of li) ->
  plain_item li ∈ extractLineItems ByDisplayName explode order.
Proof.
  intros Hlines Hg Hl1.
  destruct (bline_step_plain explode ([], [], false) li Hg) as (_ & Hn & Hfl).
  destruct (bfold_first explode (display_of li) l1 li l2 ([], [], false))
    as (X1 & X2 & E & HX1);
    [intros fv; by apply display_not_exploded | assumption | reflexivity
    | assumption |].
  cbn [fst app] in E.
  assert (Forall (fun it => keyOf ByDisplayName it
                            <> keyOf ByDisplayName (plain_item li)) X1) as HX1'.
  { eapply Forall_impl; [exact HX1|]. intros it Hit. cbn [keyOf].
    by rewrite Hn. }
  unfold extractLineItems. rewrite Hlines.
  destruct (fold_left (line_step explode) (l1 ++ li :: l2) ([], [], false))
    as [[nonGummies flavorSet] saw].
  cbn [fst] in E. subst nonGummies.
  assert (forall m : list (string * BItem),
            JsMap.get m (keyOf ByDisplayName (plain_item li))
            = Some (plain_item li) ->
            plain_item li ∈ JsMap.values m) as Hval.
  { intros m Hm. apply get_elem_of in Hm. unfold JsMap.values.
    apply list_elem_of_fmap. by eexists (_, _). }
  destruct explode; cbn [negb].
  - apply Hval, dedupe_first; try assumption.
    + apply seen2_step_other.
    + intros m it k. apply seen2_step_kept.
    + apply seen2_step_new.
  - destruct (0 <? length flavorSet); [|destruct saw];
      rewrite <- ?app_assoc; cbn [app];
      apply Hval, dedupe_first; try assumption;
      try apply seen_step_other; try apply seen_step_new;
      intros m it k Hm; by apply seen_step_kept.
Qed.

End CollapseFacts.

(** C10: display-label identity collapse in the first bundle page.  Two
    lines of an order that are not gummies lines and whose names have the
    same first two words get the same display name; the items of the order
    have pairwise distinct display names, so the order has one item for
    that name, the one built from its first line with that name, and a
    combination holds that name at most once. *)
Theorem display_label_collapse (explodeGummies : bool) (order : Order)
        (li1 li2 : LineItem) :
  li1 ∈ o_line_items order -> li2 ∈ o_line_items order ->
  is_gummies_line li1 = false -> is_gummies_line li2 = false ->
  take 2 (Js.words (Js.or_empty (li_name li1)))
  = take 2 (Js.words (Js.or_empty (li_name li2))) ->
  let items :=
    Bundles.extractLineItems Bundles.ByDisplayName explodeGummies order in
  display_of li2 = display_of li1 /\
  NoDup (Bundles.displayName <$> items) /\
  (exists l1 li l2,
     o_line_items order = l1 ++ li :: l2 /\
     is_gummies_line li = false /\ display_of li = display_of li1 /\
     (forall li', li' ∈ l1 -> is_gummies_line li' = false ->
                  display_of li' <> display_of li1) /\
     List.filter
       (fun it => bool_decide (Bundles.displayName it = display_of li1)) items
     = [plain_item li]) /\
  (forall localeCompare K comb,
     comb ∈ enumerate K
              (sort (fun a b =>
                       localeCompare (Bundles.keyOf Bundles.ByDisplayName a)
                                     (Bundles.keyOf Bundles.ByDisplayName b))
                    items) ->
     length (List.filter
               (fun it => bool_decide
                            (Bundles.displayName it = display_of li1)) comb)
     <= 1).
Proof.
  intros H1 H2 Hg1 Hg2 Hwords items.
  pose proof (extractLineItems_keys_NoDup Bundles.ByDisplayName
                explodeGummies order) as Hnd.
  change (NoDup (Bundles.displayName <$> items)) in Hnd.
  split; [by apply display_of_same_words|]. split; [exact Hnd|]. split.
  - destruct (first_such
                (fun li => negb (is_gummies_line li)
                           && String.eqb (display_of li) (display_of li1))
                (o_line_items order) li1 H1) as (l1 & li & l2 & E & Hp & Hl1).
    { rewrite Hg1, String.eqb_refl. reflexivity. }
    apply andb_true_iff in Hp as [Hg Hd].
    apply negb_true_iff in Hg. apply String.eqb_eq in Hd.
    assert (forall li', li' ∈ l1 -> is_gummies_line li' = false ->
                        display_of li' <> display_of li1) as Hl1'.
    { intros li' Hli' Hg' E'. specialize (Hl1 li' Hli').
      rewrite Hg', E', String.eqb_refl in Hl1. discriminate. }
    exists l1, li, l2. repeat (split; [assumption|]).
    destruct (bline_step_plain explodeGummies ([], [], false) li Hg)
      as (_ & Hn & _).
    rewrite <- Hd, <- Hn. apply filter_unique; [exact Hnd|].
    apply (kept_item explodeGummies order l1 li l2 E Hg).
    rewrite Hd. exact Hl1'.
  - intros localeCompare K comb Hc. apply filter_at_most_one.
    apply elem_of_enumerate in Hc as [Hc _].
    apply (sublist_NoDup _
             (Bundles.displayName <$>
              sort (fun a b =>
                      localeCompare (Bundles.keyOf Bundles.ByDisplayName a)
                                    (Bundles.keyOf Bundles.ByDisplayName b))
                   items)).
    + rewrite sort_perm. exact Hnd.
    + by apply fmap_sublist.
Qed.

Lemma display_label_collapse_witness :
  display_of Demo.bar_vanilla = display_of Demo.bar_chocolate /\
  List.filter
    (fun it => bool_decide
                 (Bundles.displayName it = display_of Demo.bar_chocolate))
    (Bundles.extractLineItems Bundles.ByDisplayName false Demo.two_bars_order)
  = [plain_item Demo.bar_chocolate].
Proof.
  destruct (display_label_collapse false Demo.two_bars_order
              Demo.bar_chocolate Demo.bar_vanilla)
    as (Hsame & _ & _ & _).
  - apply list_elem_of_In. simpl. auto.
  - apply list_elem_of_In. simpl. auto.
  - vm_compute. reflexivity.
  - vm_compute. reflexivity.
  - vm_compute. reflexivity.
  - split; [exact Hsame|]. vm_compute. reflexivity.
Defined.

(** ** The scenarios of the specification, run on the embedding *)

Section Scenarios.
Import Pairs.

Abbreviation run := (fun orders minCount =>
  compute Demo.Date_parse orders None None minCount BySupport).

(** One eligible order with the items X and Y. *)
Example scenario_single_order :
  exists r,
    pairs (run [Demo.order_XY] 1) = [r] /\
    support r = 1 /\ Num.same (supportPct r) (Num.of_nat 100) /\
    Num.same (confAtoB r) (Num.of_nat 1) /\
    Num.same (confBtoA r) (Num.of_nat 1) /\
    Num.same (lift r) (Num.of_nat 1).
Proof. eexists. repeat split; vm_compute; reflexivity. Qed.

(** Two eligible orders, \{X, Y\} and \{X\}. *)
Example scenario_two_orders :
  exists r,
    pairs (run [Demo.order_XY; Demo.order_X] 1) = [r] /\
    countA r = 2 /\ countB r = 1 /\ support r = 1 /\
    Num.same (confAtoB r) (Num.Fin (1 # 2)) /\
    Num.same (confBtoA r) (Num.of_nat 1) /\
    Num.same (lift r) (Num.of_nat 1).
Proof. eexists. repeat split; vm_compute; reflexivity. Qed.

(** A pending order is left out of every count. *)
Example scenario_pending :
  run [Demo.order_pending] 1 = mkResult [] 0.
Proof. reflexivity. Qed.

(** A completed order refunded in full is left out by the pairs page. *)
Example scenario_refunded :
  run [Demo.refunded_order; Demo.order_X] 1 = run [Demo.order_X] 1.
Proof. reflexivity. Qed.

(** Two gummies lines with different flavours: one item in the
    consolidated mode, one item for each flavour in the exploded mode. *)
Example scenario_gummies :
  (fun it => (Bundles.displayName it, Bundles.flavors it)) <$>
    Bundles.extractLineItems Bundles.ByDisplayName false Demo.gummies_order
  = [("Gummies", Some ["Mango"; "Grape"])] /\
  Bundles.displayName <$>
    Bundles.extractLineItems Bundles.ByDisplayName true Demo.gummies_order
  = ["Gummies(Mango)"; "Gummies(Grape)"].
Proof. split; vm_compute; reflexivity. Qed.

(** A minimum count of 2 drops a pair of support 1. *)
Example scenario_min_count :
  pairs (run [Demo.order_XY; Demo.order_X] 2) = [].
Proof. reflexivity. Qed.

End Scenarios.

(** * Further properties of the code *)

(** ** What the counts of the pairs page count *)

Section PairsMeaning.
Import Pairs.

Lemma bump_fold_count ks m k :
  NoDup ks ->
  default 0 (JsMap.get (fold_left bump ks m) k)
  = default 0 (JsMap.get m k) + (if bool_decide (k ∈ ks) then 1 else 0).
Proof.
  intros Hnd. case_bool_decide as Hin.
  - rewrite bump_fold_in by done. reflexivity.
  - rewrite bump_fold_notin by done. lia.
Qed.

Lemma resolves_to_spec ord k :
  resolves_to ord k = true <-> k ∈ key <$> extractItemsForOrder ord.
Proof.
  destruct (extract_keys ord) as (_ & Hk & _). rewrite Hk.
  unfold resolves_to. rewrite existsb_exists. split.
  - intros (li & Hin & Hb). exists li. split; [by apply list_elem_of_In|].
    by apply bool_decide_eq_true in Hb.
  - intros (li & Hin & Hb). exists li. split; [by apply list_elem_of_In|].
    by apply bool_decide_eq_true.
Qed.

Lemma string_le_sorted (ks : list string) :
  StronglySorted String.le (sort String.compare ks).
Proof.
  apply (sort_sorted String.compare String.le (fun _ => True)).
  - intros x y z _ _ _. apply transitivity.
  - intros x y _ _ Hc. unfold String.le, String.leb.
    rewrite String.compare_antisym, Hc. exact I.
  - intros x y _ _ Hc. unfold String.le, String.leb.
    destruct (String.compare x y); [exact I | exact I | congruence].
  - by apply Forall_forall.
Qed.

Lemma index_pairs_sorted ks a b :
  StronglySorted String.le ks -> a ∈ ks -> b ∈ ks ->
  String.compare a b = Lt -> (a, b) ∈ index_pairs ks.
Proof.
  induction 1 as [|x r Hs IH Hall]; intros Ha Hb Hlt; [inversion Ha|].
  cbn [index_pairs]. apply elem_of_app.
  apply elem_of_cons in Ha as [->|Ha].
  - apply elem_of_cons in Hb as [->|Hb].
    + pose proof (String.compare_antisym x x) as E.
      rewrite Hlt in E. discriminate.
    + left. apply list_elem_of_fmap. by exists b.
  - apply elem_of_cons in Hb as [->|Hb].
    + exfalso. pose proof (proj1 (Forall_forall _ _) Hall a Ha) as Hle.
      unfold String.le, String.leb in Hle.
      rewrite String.compare_antisym, Hlt in Hle. exact Hle.
    + right. by apply IH.
Qed.

(** Going the other way, the pairs of the loops are ordered. *)
Lemma index_pairs_ordered ks a b :
  StronglySorted String.le ks -> NoDup ks -> (a, b) ∈ index_pairs ks ->
  String.compare a b = Lt.
Proof.
  induction 1 as [|x r Hs IH Hall]; intros Hnd Hin; [inversion Hin|].
  apply NoDup_cons in Hnd as [Hx Hnd].
  cbn [index_pairs] in Hin. apply elem_of_app in Hin as [Hin|Hin].
  - apply list_elem_of_fmap in Hin as (b' & [= -> ->] & Hb).
    pose proof (proj1 (Forall_forall _ _) Hall _ Hb) as Hle.
    unfold String.le, String.leb in Hle.
    destruct (String.compare x b') eqn:E; [|done|done].
    apply String.compare_eq_iff in E as ->. contradiction.
  - by apply IH.
Qed.

Lemma elem_of_pair_keys ord a b :
  bar_free a = true -> bar_free b = true -> String.compare a b = Lt ->
  pairKey (a, b) ∈ pairKey <$>
    index_pairs (sort String.compare (key <$> extractItemsForOrder ord))
  <-> resolves_to ord a = true /\ resolves_to ord b = true.
Proof.
  intros Ha Hb Hlt. rewrite !resolves_to_spec.
  destruct (sorted_keys ord) as (Hnd & Hfree & Hks). cbv zeta in *.
  rewrite <- !Hks. split.
  - intros Hin. apply list_elem_of_fmap in Hin as ([a' b'] & Heq & Hin).
    pose proof (elem_of_index_pairs _ _ _ Hin) as [Ha' Hb'].
    apply pairKey_inj in Heq as [-> ->]; [done|done|].
    rewrite forallb_forall in Hfree. apply Hfree. by apply list_elem_of_In.
  - intros [Ha' Hb']. apply list_elem_of_fmap. exists (a, b). split; [done|].
    apply index_pairs_sorted; [apply string_le_sorted|done..].
Qed.

(** The count of one key after a run of orders. *)
Lemma item_count_fold os : forall c k,
  default 0 (JsMap.get (itemCounts (fold_left order_step os c)) k)
  = default 0 (JsMap.get (itemCounts c) k)
    + length (List.filter (fun o => resolves_to o k) os).
Proof.
  induction os as [|o os IH]; intros c k; cbn [fold_left List.filter];
    [simpl; lia|].
  rewrite IH. destruct (order_step_counts c o) as [-> _].
  destruct (extract_keys o) as (Hnd & _ & _).
  rewrite bump_fold_count by done.
  destruct (resolves_to o k) eqn:Hr.
  - rewrite bool_decide_true by (by apply resolves_to_spec). simpl. lia.
  - rewrite bool_decide_false; [lia|].
    rewrite <- resolves_to_spec. congruence.
Qed.

Lemma pair_count_fold os a b : forall c,
  bar_free a = true -> bar_free b = true -> String.compare a b = Lt ->
  default 0 (JsMap.get (pairCounts (fold_left order_step os c))
                       (pairKey (a, b)))
  = default 0 (JsMap.get (pairCounts c) (pairKey (a, b)))
    + length (List.filter (fun o => resolves_to o a && resolves_to o b) os).
Proof.
  induction os as [|o os IH]; intros c Ha Hb Hlt; cbn [fold_left List.filter];
    [simpl; lia|].
  rewrite IH by done. destruct (order_step_counts c o) as [_ ->].
  destruct (sorted_keys o) as (Hnd & Hfree & _). cbv zeta in *.
  rewrite bump_fold_count by (by apply pairKeys_NoDup).
  pose proof (elem_of_pair_keys o a b Ha Hb Hlt) as Hiff.
  destruct (resolves_to o a) eqn:Hra, (resolves_to o b) eqn:Hrb; cbn [andb].
  1: rewrite bool_decide_true by (by apply Hiff); simpl; lia.
  all: rewrite bool_decide_false; [lia|]; intros H; apply Hiff in H as [? ?];
       congruence.
Qed.

End PairsMeaning.

(** ** The rows of the pairs page *)

Section PairsRows.
Import Pairs.

Lemma bump_fold_Forall (Q : string * nat -> Prop) ks : forall m,
  Forall Q m -> (forall k n, k ∈ ks -> Q (k, n + 1)) ->
  Forall Q (fold_left bump ks m).
Proof.
  induction ks as [|k ks IH]; intros m Hm HQ; [exact Hm|].
  cbn [fold_left]. apply IH; [|intros; apply HQ; by right].
  apply set_Forall; [exact Hm | apply HQ; left].
Qed.

Lemma bump_fold_NoDup ks : forall m,
  NoDup (fst <$> m) -> NoDup (fst <$> fold_left bump ks m).
Proof.
  induction ks as [|k ks IH]; intros m Hm; [exact Hm|].
  cbn [fold_left]. apply IH, set_NoDup, Hm.
Qed.

Abbreviation counts_wf :=
  (fun c : Counts =>
     NoDup (fst <$> pairCounts c) /\ Forall pair_entry_ok (pairCounts c) /\
     Forall (fun e : string * nat => 1 <= e.2) (itemCounts c)).

Lemma counts_wf_step c ord : counts_wf c -> counts_wf (order_step c ord).
Proof.
  intros (Hnd & Hp & Hi). destruct (order_step_counts c ord) as [-> ->].
  destruct (sorted_keys ord) as (Hnd' & Hfree & _). cbv zeta in *.
  split; [by apply bump_fold_NoDup|]. split.
  - apply bump_fold_Forall; [exact Hp|]. intros pk n Hin.
    apply list_elem_of_fmap in Hin as ([a b] & -> & Hin).
    pose proof (elem_of_index_pairs _ _ _ Hin) as [Ha Hb].
    rewrite forallb_forall in Hfree.
    exists a, b. cbn [fst snd]. split; [reflexivity|].
    split; [by apply Hfree, list_elem_of_In|].
    split; [by apply Hfree, list_elem_of_In|].
    split; [|lia].
    eapply index_pairs_ordered; [apply string_le_sorted|done|done].
  - apply bump_fold_Forall; [exact Hi|]. intros; cbn; lia.
Qed.

Lemma counts_wf_fold os : forall c,
  counts_wf c -> counts_wf (fold_left order_step os c).
Proof.
  induction os as [|o os IH]; intros c Hc; [exact Hc|].
  cbn [fold_left]. apply IH, counts_wf_step, Hc.
Qed.

Lemma counts_wf_aggregate Date_parse orders fromIso toIso :
  counts_wf (aggregate Date_parse orders fromIso toIso).
Proof.
  apply counts_wf_fold. cbn. repeat split; constructor.
Qed.

Lemma filter_single (k : string) (os : list Order) :
  List.filter (fun o => forallb (resolves_to o) [k]) os
  = List.filter (fun o => resolves_to o k) os.
Proof.
  apply List.filter_ext. intros o. cbn. apply andb_true_r.
Qed.

Lemma filter_double (a b : string) (os : list Order) :
  List.filter (fun o => forallb (resolves_to o) [a; b]) os
  = List.filter (fun o => resolves_to o a && resolves_to o b) os.
Proof.
  apply List.filter_ext. intros o. cbn. by rewrite andb_true_r.
Qed.

Lemma item_count_value Date_parse orders fromIso toIso k :
  default 0 (JsMap.get (itemCounts (aggregate Date_parse orders fromIso toIso))
                       k)
  = orders_with Date_parse orders fromIso toIso [k].
Proof.
  unfold aggregate, orders_with. rewrite item_count_fold, filter_single.
  reflexivity.
Qed.

Lemma pair_count_value Date_parse orders fromIso toIso a b :
  bar_free a = true -> bar_free b = true -> String.compare a b = Lt ->
  default 0 (JsMap.get (pairCounts (aggregate Date_parse orders fromIso toIso))
                       (pairKey (a, b)))
  = orders_with Date_parse orders fromIso toIso [a; b].
Proof.
  intros Ha Hb Hlt. unfold aggregate, orders_with.
  rewrite pair_count_fold, filter_double by done. reflexivity.
Qed.

Lemma orders_with_le_total Date_parse orders fromIso toIso ks :
  orders_with Date_parse orders fromIso toIso ks
  <= length (eligible Date_parse orders fromIso toIso).
Proof.
  unfold orders_with. apply sublist_length, filter_bool_sublist.
Qed.

Lemma orders_with_pair_le Date_parse orders fromIso toIso a b :
  orders_with Date_parse orders fromIso toIso [a; b]
  <= orders_with Date_parse orders fromIso toIso [a] /\
  orders_with Date_parse orders fromIso toIso [a; b]
  <= orders_with Date_parse orders fromIso toIso [b].
Proof.
  unfold orders_with. rewrite filter_double, !filter_single.
  induction (eligible Date_parse orders fromIso toIso) as [|o os [IH1 IH2]];
    [split; reflexivity|].
  cbn [List.filter].
  destruct (resolves_to o a), (resolves_to o b); cbn [andb length]; lia.
Qed.

(** The entry behind a row of the result. *)
Lemma row_entry Date_parse orders fromIso toIso minCount sortBy r :
  r ∈ pairs (compute Date_parse orders fromIso toIso minCount sortBy) ->
  exists a b,
    bar_free a = true /\ bar_free b = true /\ String.compare a b = Lt /\
    JsMap.get (pairCounts (aggregate Date_parse orders fromIso toIso))
              (pairKey (a, b)) = Some (support r) /\
    1 <= support r /\ minCount <= support r /\
    r = pair_row (length (eligible Date_parse orders fromIso toIso))
                 (itemCounts (aggregate Date_parse orders fromIso toIso))
                 (pairKey (a, b)) (support r).
Proof.
  unfold compute. cbn [pairs]. rewrite sort_perm.
  intros Hin. apply list_elem_of_fmap in Hin as ([pk cnt] & -> & Hin).
  apply elem_of_filter_bool in Hin as [Hin Hmin]. cbn [fst snd] in *.
  destruct (counts_wf_aggregate Date_parse orders fromIso toIso)
    as (Hnd & Hp & _).
  pose proof (proj1 (Forall_forall _ _) Hp _ Hin)
    as (a & b & Hpk & Ha & Hb & Hlt & Hone).
  cbn [fst snd] in *. subst pk. exists a, b.
  unfold JsMap.entries in Hin.
  repeat split; try done.
  - by apply elem_of_get.
  - apply negb_true_iff, Nat.ltb_ge in Hmin. exact Hmin.
Qed.

End PairsRows.

Section PairsResults.
Import Pairs.
Variable Date_parse : string -> option Z.
Variables (orders : list Order) (fromIso toIso : option string).

Lemma item_count_present (k : string) :
  JsMap.has (itemCounts (aggregate Date_parse orders fromIso toIso)) k = true
  <-> 1 <= orders_with Date_parse orders fromIso toIso [k].
Proof.
  pose proof (item_count_value Date_parse orders fromIso toIso k) as Hv.
  destruct (counts_wf_aggregate Date_parse orders fromIso toIso)
    as (_ & _ & Hi).
  rewrite <- Hv. unfold JsMap.has.
  destruct (JsMap.get _ k) as [n|] eqn:Hget; cbn.
  - split; [intros _|reflexivity].
    apply get_elem_of in Hget.
    exact (proj1 (Forall_forall _ _) Hi _ Hget).
  - split; [discriminate | lia].
Qed.

(** X1: the item count of a key is the number of eligible orders in which
    some line resolves to that key, and the key has an entry in
    [itemCounts] exactly when there is such an order. *)
Theorem item_count_meaning (k : string) :
  let c := aggregate Date_parse orders fromIso toIso in
  count_of (itemCounts c) (Some k)
  = orders_with Date_parse orders fromIso toIso [k] /\
  (JsMap.has (itemCounts c) k = true
   <-> 1 <= orders_with Date_parse orders fromIso toIso [k]).
Proof.
  cbv zeta. split; [apply item_count_value | apply item_count_present].
Qed.

(** X2: the count of the pair key [a||b], for two keys without a bar with
    [a] before [b] in the order of the code units, is the number of
    eligible orders in which both keys are resolved. *)
Theorem pair_count_meaning (a b : string) :
  bar_free a = true -> bar_free b = true -> String.compare a b = Lt ->
  default 0 (JsMap.get (pairCounts (aggregate Date_parse orders fromIso toIso))
                       (pairKey (a, b)))
  = orders_with Date_parse orders fromIso toIso [a; b].
Proof. apply pair_count_value. Qed.

(** X3: the pair keys are canonical.  Every key of [pairCounts] is
    [a||b] for two keys without a bar with [a] strictly before [b], its
    split gives back [a] and [b], and its count is at least 1; so an
    unordered pair has one entry, whatever the order of the lines. *)
Theorem pair_keys_canonical (pk : string) (cnt : nat) :
  JsMap.get (pairCounts (aggregate Date_parse orders fromIso toIso)) pk
  = Some cnt ->
  exists a b,
    pk = pairKey (a, b) /\ Js.split_bars pk = [a; b] /\
    String.compare a b = Lt /\ 1 <= cnt /\
    JsMap.get (pairCounts (aggregate Date_parse orders fromIso toIso))
              (pairKey (b, a)) = None.
Proof.
  intros Hget.
  destruct (counts_wf_aggregate Date_parse orders fromIso toIso)
    as (_ & Hp & _).
  pose proof (proj1 (Forall_forall _ _) Hp _ (get_elem_of _ _ _ Hget))
    as (a & b & Hpk & Ha & Hb & Hlt & Hone).
  cbn [fst snd] in *. subst pk. exists a, b.
  split; [reflexivity|]. split; [by apply split_bars_pairKey|].
  split; [exact Hlt|]. split; [exact Hone|].
  destruct (JsMap.get _ (pairKey (b, a))) as [n|] eqn:Hget'; [|reflexivity].
  pose proof (proj1 (Forall_forall _ _) Hp _ (get_elem_of _ _ _ Hget'))
    as (a' & b' & Hpk' & Ha' & Hb' & Hlt' & _).
  cbn [fst snd] in *. apply pairKey_inj in Hpk' as [<- <-]; [|done..].
  rewrite String.compare_antisym, Hlt in Hlt'. discriminate.
Qed.

(** X4: what a row of the result says.  Each row of [pairs] is about two
    distinct keys [A < B]; its support is the number of eligible orders
    that hold both, at least 1 and at least [minCount]; [countA] and
    [countB] are the numbers of eligible orders that hold each. *)
Theorem row_meaning (minCount : nat) (sortBy : SortBy) (r : PairRow) :
  r ∈ pairs (compute Date_parse orders fromIso toIso minCount sortBy) ->
  exists a b,
    A r = Some a /\ B r = Some b /\ String.compare a b = Lt /\
    support r = orders_with Date_parse orders fromIso toIso [a; b] /\
    countA r = orders_with Date_parse orders fromIso toIso [a] /\
    countB r = orders_with Date_parse orders fromIso toIso [b] /\
    1 <= support r /\ minCount <= support r.
Proof.
  intros Hin.
  destruct (row_entry _ _ _ _ _ _ _ Hin)
    as (a & b & Ha & Hb & Hlt & Hget & Hone & Hmin & Hr).
  exists a, b.
  assert (A r = Some a /\ B r = Some b) as [HA HB].
  { rewrite Hr. unfold pair_row. cbn [A B].
    rewrite split_bars_pairKey by done. split; reflexivity. }
  split; [exact HA|]. split; [exact HB|]. split; [exact Hlt|].
  split.
  { rewrite <- pair_count_value by done. rewrite Hget. reflexivity. }
  split.
  { rewrite Hr. unfold pair_row. cbn [countA].
    rewrite split_bars_pairKey by done. apply item_count_value. }
  split.
  { rewrite Hr. unfold pair_row. cbn [countB].
    rewrite split_bars_pairKey by done. apply item_count_value. }
  split; assumption.
Qed.

(** X5: the rows are complete and without duplicates.  Two keys without
    a bar, [a] before [b], that at least one and at least [minCount]
    eligible orders hold together have a row, and no two rows of [pairs]
    are about the same two keys. *)
Theorem rows_complete (minCount : nat) (sortBy : SortBy) (a b : string) :
  bar_free a = true -> bar_free b = true -> String.compare a b = Lt ->
  1 <= orders_with Date_parse orders fromIso toIso [a; b] ->
  minCount <= orders_with Date_parse orders fromIso toIso [a; b] ->
  (exists r,
     r ∈ pairs (compute Date_parse orders fromIso toIso minCount sortBy) /\
     A r = Some a /\ B r = Some b) /\
  NoDup ((fun r => (A r, B r)) <$>
         pairs (compute Date_parse orders fromIso toIso minCount sortBy)).
Proof.
  intros Ha Hb Hlt Hone Hmin.
  destruct (counts_wf_aggregate Date_parse orders fromIso toIso)
    as (Hnd & Hp & _).
  pose proof (pair_count_value Date_parse orders fromIso toIso a b Ha Hb Hlt)
    as Hv.
  set (c := aggregate Date_parse orders fromIso toIso) in *.
  set (total := length (eligible Date_parse orders fromIso toIso)).
  split.
  - destruct (JsMap.get (pairCounts c) (pairKey (a, b))) as [n|] eqn:Hget;
      cbn in Hv; [|lia].
    exists (pair_row total (itemCounts c) (pairKey (a, b)) n).
    split.
    + unfold compute. cbn [pairs]. rewrite sort_perm.
      apply list_elem_of_fmap. exists (pairKey (a, b), n).
      split; [reflexivity|]. apply elem_of_filter_bool.
      split; [by apply get_elem_of|].
      cbn [snd]. apply negb_true_iff, Nat.ltb_ge. lia.
    + unfold pair_row. cbn [A B]. rewrite split_bars_pairKey by done.
      split; reflexivity.
  - unfold compute. cbn [pairs]. rewrite sort_perm.
    fold c. fold total. rewrite <- list_fmap_compose.
    unfold JsMap.entries.
    assert (Forall pair_entry_ok
              (List.filter (fun e => negb (e.2 <? minCount)) (pairCounts c)))
      as Hp'.
    { apply Forall_forall. intros e He.
      apply elem_of_filter_bool in He as [He _].
      exact (proj1 (Forall_forall _ _) Hp _ He). }
    assert (NoDup (fst <$>
              List.filter (fun e => negb (e.2 <? minCount)) (pairCounts c)))
      as Hnd'.
    { eapply sublist_NoDup; [exact Hnd|].
      apply fmap_sublist, filter_bool_sublist. }
    revert Hp' Hnd'.
    generalize (List.filter (fun e => negb (e.2 <? minCount)) (pairCounts c)).
    intros l Hl Hndl.
    apply (NoDup_fmap_2_strong); [|eapply NoDup_fmap_1; exact Hndl].
    intros [pk1 n1] [pk2 n2] H1 H2 Heq. cbn in Heq.
    pose proof (proj1 (Forall_forall _ _) Hl _ H1)
      as (a1 & b1 & E1 & Ha1 & Hb1 & _).
    pose proof (proj1 (Forall_forall _ _) Hl _ H2)
      as (a2 & b2 & E2 & Ha2 & Hb2 & _).
    cbn [fst snd] in *. subst pk1 pk2.
    unfold pair_row in Heq. cbn [A B] in Heq.
    rewrite !split_bars_pairKey in Heq by done.
    injection Heq as -> ->.
    f_equal.
    pose proof (elem_of_get _ _ _ Hndl H1) as G1.
    pose proof (elem_of_get _ _ _ Hndl H2) as G2.
    congruence.
Qed.

End PairsResults.

Lemma pair_count_meaning_witness :
  default 0 (JsMap.get (Pairs.pairCounts
                          (Pairs.aggregate Demo.Date_parse Demo.two_orders
                                           None None))
                       (Pairs.pairKey ("11::0", "12::0")))
  = orders_with Demo.Date_parse Demo.two_orders None None ["11::0"; "12::0"].
Proof. apply pair_count_meaning; reflexivity. Defined.

Lemma pair_keys_canonical_witness :
  exists a b,
    "11::0||12::0" = Pairs.pairKey (a, b) /\
    Js.split_bars "11::0||12::0" = [a; b] /\
    String.compare a b = Lt /\ 1 <= 1 /\
    JsMap.get (Pairs.pairCounts
                 (Pairs.aggregate Demo.Date_parse Demo.two_orders None None))
              (Pairs.pairKey (b, a)) = None.
Proof.
  apply (pair_keys_canonical Demo.Date_parse Demo.two_orders None None
           "11::0||12::0" 1).
  reflexivity.
Defined.

Lemma row_meaning_witness :
  exists r a b,
    r ∈ Pairs.pairs (Pairs.compute Demo.Date_parse Demo.two_orders None None
                                   1 Pairs.BySupport) /\
    Pairs.A r = Some a /\ Pairs.B r = Some b /\ String.compare a b = Lt /\
    Pairs.support r
    = orders_with Demo.Date_parse Demo.two_orders None None [a; b].
Proof.
  assert (exists r,
            r ∈ Pairs.pairs (Pairs.compute Demo.Date_parse Demo.two_orders
                                           None None 1 Pairs.BySupport))
    as [r Hr] by (eexists; vm_compute; left).
  destruct (row_meaning Demo.Date_parse Demo.two_orders None None
              1 Pairs.BySupport r Hr)
    as (a & b & HA & HB & Hlt & Hs & _).
  exists r, a, b. repeat split; assumption.
Defined.

Lemma rows_complete_witness :
  exists r,
    r ∈ Pairs.pairs (Pairs.compute Demo.Date_parse Demo.two_orders None None
                                   1 Pairs.BySupport) /\
    Pairs.A r = Some "11::0" /\ Pairs.B r = Some "12::0".
Proof.
  apply (rows_complete Demo.Date_parse Demo.two_orders None None
           1 Pairs.BySupport "11::0" "12::0");
    try reflexivity; vm_compute; lia.
Defined.

(** ** Ranges and order of the metrics *)

Section MetricRanges.
Import Num Pairs.

Lemma le_fin (x y : Q) : (x <= y)%Q -> le (Fin x) (Fin y) = true.
Proof.
  intros H. unfold le. cbn [compare].
  destruct (x ?= y)%Q eqn:E; [reflexivity | reflexivity |].
  apply Qle_alt in H. contradiction.
Qed.

Lemma gt_fin (x y : Q) : (y < x)%Q -> gt (Fin x) (Fin y) = true.
Proof.
  intros H. unfold gt. cbn [compare]. apply Qgt_alt in H. rewrite H.
  reflexivity.
Qed.

Lemma Qdiv_nat_le1 (s a : nat) :
  0 < a -> s <= a ->
  (inject_Z (Z.of_nat s) / inject_Z (Z.of_nat a) <= 1)%Q.
Proof.
  intros Ha Hsa. apply Qle_shift_div_r; [by apply inject_nat_pos|].
  rewrite Qmult_1_l. rewrite <- Zle_Qle. lia.
Qed.

Lemma conf_of_range (s a : nat) :
  1 <= s -> s <= a ->
  gt (conf_of s a) zero = true /\ le (conf_of s a) (of_nat 1) = true.
Proof.
  intros Hs Hsa. unfold conf_of.
  destruct (Nat.ltb_spec 0 a); [|lia].
  rewrite div_nat_fin by lia. split.
  - apply gt_fin, Qdiv_pos; apply inject_nat_pos; lia.
  - apply le_fin, Qdiv_nat_le1; lia.
Qed.

Lemma supportPct_of_range (total s : nat) :
  1 <= s -> s <= total ->
  gt (supportPct_of total s) zero = true /\
  le (supportPct_of total s) (of_nat 100) = true.
Proof.
  intros Hs Hst. unfold supportPct_of.
  destruct (Nat.ltb_spec 0 total); [|lia].
  rewrite div_nat_fin by lia. cbn [mul of_nat]. split.
  - apply gt_fin. apply Qmult_lt_0_compat; [|reflexivity].
    apply Qdiv_pos; apply inject_nat_pos; lia.
  - apply le_fin.
    apply Qle_trans with (1 * inject_Z (Z.of_nat 100))%Q.
    + apply Qmult_le_compat_r; [by apply Qdiv_nat_le1 | discriminate].
    + rewrite Qmult_1_l. apply Qle_refl.
Qed.

Lemma lift_of_positive (total s a b : nat) :
  1 <= s -> s <= a -> s <= b -> a <= total ->
  gt (lift_of total s a b) zero = true.
Proof.
  intros Hs Ha Hb Ht. rewrite lift_of_value by lia.
  apply gt_fin. apply Qdiv_pos.
  - apply Qdiv_pos; apply inject_nat_pos; lia.
  - apply Qmult_lt_0_compat; apply Qdiv_pos; apply inject_nat_pos; lia.
Qed.

End MetricRanges.

Section PairsRanking.
Import Pairs.
Variable Date_parse : string -> option Z.
Variables (orders : list Order) (fromIso toIso : option string).

(** X6: the ranges of the metrics.  In every row of [pairs] the support
    is at most each of the two item counts, which are at most the number
    of eligible orders; both confidences lie in (0, 1], the support
    percentage in (0, 100], and the lift is positive. *)
Theorem metric_ranges (minCount : nat) (sortBy : SortBy) (r : PairRow) :
  let res := compute Date_parse orders fromIso toIso minCount sortBy in
  r ∈ pairs res ->
  (support r <= countA r <= totalEligibleOrders res /\
   support r <= countB r <= totalEligibleOrders res) /\
  (Num.gt (confAtoB r) Num.zero = true /\
   Num.le (confAtoB r) (Num.of_nat 1) = true) /\
  (Num.gt (confBtoA r) Num.zero = true /\
   Num.le (confBtoA r) (Num.of_nat 1) = true) /\
  (Num.gt (supportPct r) Num.zero = true /\
   Num.le (supportPct r) (Num.of_nat 100) = true) /\
  Num.gt (lift r) Num.zero = true.
Proof.
  cbv zeta. intros Hin.
  destruct (row_entry _ _ _ _ _ _ _ Hin)
    as (a & b & Ha & Hb & Hlt & Hget & Hone & _ & Hr).
  assert (countA r = orders_with Date_parse orders fromIso toIso [a]) as HcA.
  { rewrite Hr. unfold pair_row. cbn [countA].
    rewrite split_bars_pairKey by done. apply item_count_value. }
  assert (countB r = orders_with Date_parse orders fromIso toIso [b]) as HcB.
  { rewrite Hr. unfold pair_row. cbn [countB].
    rewrite split_bars_pairKey by done. apply item_count_value. }
  assert (support r = orders_with Date_parse orders fromIso toIso [a; b])
    as Hs.
  { rewrite <- pair_count_value by done. rewrite Hget. reflexivity. }
  pose proof (orders_with_pair_le Date_parse orders fromIso toIso a b)
    as [HleA HleB].
  pose proof (orders_with_le_total Date_parse orders fromIso toIso [a]) as HtA.
  pose proof (orders_with_le_total Date_parse orders fromIso toIso [b]) as HtB.
  unfold compute. cbn [totalEligibleOrders].
  set (total := length (eligible Date_parse orders fromIso toIso)) in *.
  rewrite <- Hs, <- HcA in HleA. rewrite <- Hs, <- HcB in HleB.
  rewrite <- HcA in HtA. rewrite <- HcB in HtB.
  split; [lia|].
  assert (confAtoB r = conf_of (support r) (countA r)) as ->
    by (rewrite Hr; reflexivity).
  assert (confBtoA r = conf_of (support r) (countB r)) as ->
    by (rewrite Hr; reflexivity).
  assert (supportPct r = supportPct_of total (support r)) as ->
    by (rewrite Hr; reflexivity).
  assert (lift r = lift_of total (support r) (countA r) (countB r)) as ->
    by (rewrite Hr; reflexivity).
  split; [by apply conf_of_range|].
  split; [by apply conf_of_range|].
  split; [apply supportPct_of_range; lia|].
  apply lift_of_positive; lia.
Qed.

Lemma support_sorted (rows : list PairRow) :
  StronglySorted (fun x y => support y <= support x)
                 (sort (row_cmp BySupport) rows).
Proof.
  apply (sort_sorted (row_cmp BySupport) (fun x y => support y <= support x)
           (fun _ => True)).
  - intros x y z _ _ _. lia.
  - intros x y _ _. cbn [row_cmp]. intros H%Nat.compare_gt_iff. lia.
  - intros x y _ _. cbn [row_cmp]. intros H.
    destruct (Nat.compare_spec (support y) (support x)); [lia|lia|done].
  - by apply Forall_forall.
Qed.

(** X7: the ranking under the default sort.  When the rows are sorted by
    support, which compares two integers, the rows of [pairs] come in
    descending order of support: a row never has a smaller support than a
    row after it. *)
Theorem pairs_ranked (minCount : nat) (i j : nat) (x y : PairRow) :
  let res := compute Date_parse orders fromIso toIso minCount BySupport in
  i < j -> pairs res !! i = Some x -> pairs res !! j = Some y ->
  support y <= support x.
Proof.
  cbv zeta. intros Hij Hi Hj.
  eapply (StronglySorted_lookup (fun x y => support y <= support x));
    [|exact Hij|exact Hi|exact Hj].
  unfold compute. cbn [pairs]. apply support_sorted.
Qed.

(** X8: ties keep the order of first encounter.  Under the default sort,
    the rows of one support value come in the order in which their pair
    keys entered [pairCounts]. *)
Theorem pairs_ties_stable (minCount n : nat) :
  let c := aggregate Date_parse orders fromIso toIso in
  let total := length (eligible Date_parse orders fromIso toIso) in
  List.filter (fun r => support r =? n)
    (pairs (compute Date_parse orders fromIso toIso minCount BySupport))
  = (fun e => pair_row total (itemCounts c) e.1 e.2) <$>
      List.filter (fun e => (e.2 =? n) && negb (e.2 <? minCount))
                  (JsMap.entries (pairCounts c)).
Proof.
  cbv zeta. unfold compute. cbn [pairs].
  rewrite sort_stable.
  - rewrite filter_bool_fmap. f_equal.
    unfold pair_row. cbn [support].
    induction (JsMap.entries _) as [|e l IH]; [reflexivity|].
    cbn [List.filter].
    destruct (negb (e.2 <? minCount)), (e.2 =? n) eqn:E; cbn [andb List.filter];
      rewrite ?E, IH; reflexivity.
  - intros x y Hx%Nat.eqb_eq Hy%Nat.eqb_eq. cbn [row_cmp].
    rewrite Hx, Hy, Nat.compare_refl. discriminate.
Qed.

End PairsRanking.

Lemma metric_ranges_witness :
  exists r,
    r ∈ Pairs.pairs (Pairs.compute Demo.Date_parse Demo.two_orders None None
                                   1 Pairs.BySupport) /\
    Num.le (Pairs.confAtoB r) (Num.of_nat 1) = true /\
    Num.le (Pairs.supportPct r) (Num.of_nat 100) = true.
Proof.
  assert (exists r,
            r ∈ Pairs.pairs (Pairs.compute Demo.Date_parse Demo.two_orders
                                           None None 1 Pairs.BySupport))
    as [r Hr] by (eexists; vm_compute; left).
  destruct (metric_ranges Demo.Date_parse Demo.two_orders None None
              1 Pairs.BySupport r Hr)
    as (_ & (_ & H1) & _ & (_ & H2) & _).
  exists r. repeat split; assumption.
Defined.

Lemma pairs_ranked_witness :
  exists x y,
    Pairs.pairs (Pairs.compute Demo.Date_parse
                   (Demo.order_XY :: Demo.order_XY :: Demo.two_orders)
                   None None 1 Pairs.BySupport) !! 0 = Some x /\
    Pairs.pairs (Pairs.compute Demo.Date_parse
                   (Demo.order_XY :: Demo.order_XY :: Demo.two_orders)
                   None None 1 Pairs.BySupport) !! 1 = Some y /\
    Pairs.support x = 2 /\ Pairs.support y = 1 /\
    Pairs.support y <= Pairs.support x.
Proof.
  eexists. eexists.
  split; [vm_compute; reflexivity|]. split; [vm_compute; reflexivity|].
  split; [reflexivity|]. split; [reflexivity|].
  apply (pairs_ranked Demo.Date_parse
           (Demo.order_XY :: Demo.order_XY :: Demo.two_orders)
           None None 1 0 1);
    first [lia | vm_compute; reflexivity].
Defined.

(** ** The results do not depend on the order of the data *)

Section PairsShuffle.
Import Pairs.
Variable Date_parse : string -> option Z.
Variables (fromIso toIso : option string).

Lemma filter_length_perm {T : Type} (f : T -> bool) (l l' : list T) :
  l ≡ₚ l' -> length (List.filter f l) = length (List.filter f l').
Proof.
  induction 1 as [|x l l' _ IH|x y l|l1 l2 l3 _ IH1 _ IH2];
    cbn [List.filter]; [reflexivity| | |congruence].
  - destruct (f x); cbn [length]; congruence.
  - destruct (f x), (f y); reflexivity.
Qed.

Lemma existsb_perm {T : Type} (f : T -> bool) (l l' : list T) :
  l ≡ₚ l' -> existsb f l = existsb f l'.
Proof.
  induction 1 as [|x l l' _ IH|x y l|l1 l2 l3 _ IH1 _ IH2];
    cbn [existsb]; [reflexivity| | |congruence].
  - by rewrite IH.
  - destruct (f x), (f y); reflexivity.
Qed.

Lemma relined_same o o' :
  relined o o' ->
  isOrderEligible Date_parse o' fromIso toIso
  = isOrderEligible Date_parse o fromIso toIso /\
  forall k, resolves_to o' k = resolves_to o k.
Proof.
  intros [Hp ->]. split; [reflexivity|].
  intros k. unfold resolves_to. cbn [o_line_items].
  symmetry. by apply existsb_perm.
Qed.

Lemma reshuffled_counts orders orders' :
  reshuffled orders orders' ->
  length (eligible Date_parse orders fromIso toIso)
  = length (eligible Date_parse orders' fromIso toIso) /\
  forall ks,
    orders_with Date_parse orders fromIso toIso ks
    = orders_with Date_parse orders' fromIso toIso ks.
Proof.
  intros (mid & Hrel & Hperm).
  assert (length (eligible Date_parse orders fromIso toIso)
          = length (eligible Date_parse mid fromIso toIso) /\
          forall ks,
            orders_with Date_parse orders fromIso toIso ks
            = orders_with Date_parse mid fromIso toIso ks) as [H1 H2].
  { unfold orders_with, eligible. clear Hperm.
    induction Hrel as [|o o' os os' Ho _ [IH1 IH2]]; [by split|].
    destruct (relined_same _ _ Ho) as [He Hr].
    cbn [List.filter]. rewrite He.
    destruct (isOrderEligible Date_parse o fromIso toIso).
    - split; [cbn [length]; congruence|].
      intros ks. cbn [List.filter].
      assert (forallb (resolves_to o') ks = forallb (resolves_to o) ks) as ->.
      { induction ks as [|k ks IHk]; [reflexivity|].
        cbn [forallb]. by rewrite Hr, IHk. }
      destruct (forallb (resolves_to o) ks); cbn [length]; by rewrite IH2.
    - split; [exact IH1 | exact IH2]. }
  rewrite H1. split.
  - unfold eligible. by apply filter_length_perm.
  - intros ks. rewrite H2. unfold orders_with, eligible.
    apply filter_length_perm.
    clear -Hperm.
    induction Hperm as [|x l l' _ IH|x y l|l1 l2 l3 _ IH1 _ IH2];
      cbn [List.filter]; [reflexivity| | |by etrans].
    + destruct (isOrderEligible _ x _ _); [by constructor | done].
    + destruct (isOrderEligible _ x _ _), (isOrderEligible _ y _ _);
        try reflexivity. apply Permutation_swap.
Qed.

Lemma get_perm {V : Type} (m m' : list (string * V)) :
  NoDup (fst <$> m) -> NoDup (fst <$> m') ->
  (forall k, JsMap.get m k = JsMap.get m' k) -> m ≡ₚ m'.
Proof.
  intros Hm Hm' Hget. apply NoDup_Permutation.
  - by eapply NoDup_fmap_1.
  - by eapply NoDup_fmap_1.
  - intros [k v]. split; intros Hin.
    + apply get_elem_of. rewrite <- Hget. by apply elem_of_get.
    + apply get_elem_of. rewrite Hget. by apply elem_of_get.
Qed.

Lemma filter_bool_perm {T : Type} (f : T -> bool) (l l' : list T) :
  l ≡ₚ l' -> List.filter f l ≡ₚ List.filter f l'.
Proof.
  induction 1 as [|x l l' _ IH|x y l|l1 l2 l3 _ IH1 _ IH2];
    cbn [List.filter]; [reflexivity| | |by etrans].
  - destruct (f x); [by constructor | done].
  - destruct (f x), (f y); try reflexivity. apply Permutation_swap.
Qed.

(** X9: the result does not depend on the order of the data.  When the
    orders are put in another order and the lines of each order in
    another order, the number of eligible orders is the same and [pairs]
    holds the same rows, up to the order of the rows. *)
Theorem pairs_order_independent (orders orders' : list Order)
        (minCount : nat) (sortBy : SortBy) :
  reshuffled orders orders' ->
  totalEligibleOrders (compute Date_parse orders fromIso toIso minCount sortBy)
  = totalEligibleOrders
      (compute Date_parse orders' fromIso toIso minCount sortBy) /\
  pairs (compute Date_parse orders fromIso toIso minCount sortBy)
  ≡ₚ pairs (compute Date_parse orders' fromIso toIso minCount sortBy).
Proof.
  intros Hsh. destruct (reshuffled_counts _ _ Hsh) as [Htot Hw].
  unfold compute. cbn [totalEligibleOrders pairs].
  split; [exact Htot|]. rewrite !sort_perm, <- Htot.
  set (c := aggregate Date_parse orders fromIso toIso).
  set (c' := aggregate Date_parse orders' fromIso toIso).
  set (total := length (eligible Date_parse orders fromIso toIso)).
  destruct (counts_wf_aggregate Date_parse orders fromIso toIso)
    as (Hnd & Hp & _).
  destruct (counts_wf_aggregate Date_parse orders' fromIso toIso)
    as (Hnd' & Hp' & _).
  fold c in Hnd, Hp. fold c' in Hnd', Hp'.
  assert (forall k, count_of (itemCounts c) k = count_of (itemCounts c') k)
    as Hic.
  { intros [k|]; [|reflexivity]. cbn.
    unfold c, c'. rewrite !item_count_value. apply Hw. }
  assert (forall e, pair_row total (itemCounts c) e.1 e.2
                    = pair_row total (itemCounts c') e.1 e.2) as Hrow.
  { intros e. unfold pair_row. by rewrite !Hic. }
  rewrite (list_fmap_ext _ (fun e => pair_row total (itemCounts c') e.1 e.2))
    by (intros; apply Hrow).
  apply fmap_Permutation, filter_bool_perm. unfold JsMap.entries.
  assert (forall m m' : Counts,
            Forall pair_entry_ok (pairCounts m) ->
            (forall a b, bar_free a = true -> bar_free b = true ->
               String.compare a b = Lt ->
               default 0 (JsMap.get (pairCounts m) (pairKey (a, b)))
               = default 0 (JsMap.get (pairCounts m') (pairKey (a, b)))) ->
            Forall pair_entry_ok (pairCounts m') ->
            forall pk n, JsMap.get (pairCounts m) pk = Some n ->
                         JsMap.get (pairCounts m') pk = Some n) as Hdir.
  { intros m m' Hm Heq Hm' pk n Hget.
    pose proof (proj1 (Forall_forall _ _) Hm _ (get_elem_of _ _ _ Hget))
      as (a & b & Hpk & Ha & Hb & Hlt & Hone).
    cbn [fst snd] in *. subst pk.
    specialize (Heq a b Ha Hb Hlt). rewrite Hget in Heq. cbn in Heq.
    destruct (JsMap.get (pairCounts m') (pairKey (a, b))) as [n'|];
      cbn in Heq; [congruence | lia]. }
  assert (forall a b, bar_free a = true -> bar_free b = true ->
            String.compare a b = Lt ->
            default 0 (JsMap.get (pairCounts c) (pairKey (a, b)))
            = default 0 (JsMap.get (pairCounts c') (pairKey (a, b)))) as Heq.
  { intros a b Ha Hb Hlt. unfold c, c'.
    rewrite !pair_count_value by done. apply Hw. }
  apply get_perm; [done..|]. intros pk.
  destruct (JsMap.get (pairCounts c) pk) as [n|] eqn:G.
  - symmetry. by apply (Hdir c c').
  - destruct (JsMap.get (pairCounts c') pk) as [n'|] eqn:G'; [|reflexivity].
    apply (Hdir c' c) in G'; [congruence|done| |done].
    intros a b Ha Hb Hlt. symmetry. by apply Heq.
Qed.

End PairsShuffle.

Lemma pairs_order_independent_witness :
  Pairs.pairs (Pairs.compute Demo.Date_parse Demo.two_orders None None
                             1 Pairs.BySupport)
  ≡ₚ Pairs.pairs (Pairs.compute Demo.Date_parse (reverse Demo.two_orders)
                                None None 1 Pairs.BySupport).
Proof.
  apply (pairs_order_independent Demo.Date_parse None None
           Demo.two_orders (reverse Demo.two_orders) 1 Pairs.BySupport).
  exists Demo.two_orders. split.
  - repeat constructor.
  - vm_compute. apply Permutation_swap.
Defined.

(** ** The view of the pairs page *)

Section PairsViewFacts.
Import Pairs PairsView.
Variable localeCompare : string -> string -> comparison.
Variable Date_parse : string -> option Z.
Variables (orders : list Order) (fromIso toIso : option string).

Lemma label_or_Some pbk (a : string) :
  label_or pbk (Some a) = Some (labelFor pbk a).
Proof.
  unfold labelFor, label_or. cbn [default from_option id].
  destruct (JsMap.get pbk a) as [l|]; [|reflexivity].
  destruct (Js.nonempty l); reflexivity.
Qed.

Lemma filter_rows_total pbk q (arr : list PairRow) :
  Forall (fun p => exists a b, A p = Some a /\ B p = Some b) arr ->
  exists l,
    filter_rows pbk q arr = Some l /\ l `sublist_of` arr /\
    forall p, p ∈ l ->
      exists a b, A p = Some a /\ B p = Some b /\
        Js.includes (Js.toLowerCase (labelFor pbk a)) q
        || Js.includes (Js.toLowerCase (labelFor pbk b)) q = true.
Proof.
  induction 1 as [|p arr (a & b & HA & HB) _ (l & Hl & Hsub & Hall)].
  - exists []. split; [reflexivity|]. split; [constructor|].
    intros p Hp. inversion Hp.
  - cbn [filter_rows]. unfold row_matches.
    rewrite HA, HB, !label_or_Some, Hl.
    destruct (Js.includes (Js.toLowerCase (labelFor pbk a)) q) eqn:Ea;
      [|destruct (Js.includes (Js.toLowerCase (labelFor pbk b)) q) eqn:Eb].
    + exists (p :: l). split; [reflexivity|]. split; [by constructor|].
      intros p' [-> |Hp]%elem_of_cons; [|by apply Hall].
      exists a, b. by rewrite Ea.
    + exists (p :: l). split; [reflexivity|]. split; [by constructor|].
      intros p' [-> |Hp]%elem_of_cons; [|by apply Hall].
      exists a, b. by rewrite Ea, Eb.
    + exists l. split; [reflexivity|]. split; [by constructor|]. exact Hall.
Qed.

Lemma rows_have_keys minCount sortBy :
  Forall (fun p => exists a b, A p = Some a /\ B p = Some b)
         (pairs (compute Date_parse orders fromIso toIso minCount sortBy)).
Proof.
  apply Forall_forall. intros r Hin.
  destruct (row_entry _ _ _ _ _ _ _ Hin)
    as (a & b & Ha & Hb & _ & _ & _ & _ & Hr).
  exists a, b. rewrite Hr. unfold pair_row. cbn [A B].
  rewrite split_bars_pairKey by done. split; reflexivity.
Qed.

(** X10: the table of the pairs page.  On the rows of the engine the
    search filter never calls a method on [undefined]; the rows shown are
    rows of [pairs] in their order, at most [topN] of them; a blank query
    shows the first [topN] rows; and with a query each row shown has the
    query (trimmed, in lower case) in the label of one of its two
    products. *)
Theorem displayed_pairs_sound (minCount : nat) (sortBy : SortBy)
        (query : string) (topN : nat) :
  let res := compute Date_parse orders fromIso toIso minCount sortBy in
  let pbk := productsByKey localeCompare
               (products (aggregate Date_parse orders fromIso toIso)) in
  let q := Js.toLowerCase (Js.trim query) in
  exists l,
    displayedPairs pbk (pairs res) query topN = Some l /\
    l `sublist_of` pairs res /\ length l <= topN /\
    (Js.trim query = "" -> l = take topN (pairs res)) /\
    (Js.trim query <> "" ->
     forall p, p ∈ l ->
       exists a b, A p = Some a /\ B p = Some b /\
         Js.includes (Js.toLowerCase (labelFor pbk a)) q
         || Js.includes (Js.toLowerCase (labelFor pbk b)) q = true).
Proof.
  cbv zeta. unfold displayedPairs.
  set (pbk := productsByKey _ _).
  set (res := compute _ _ _ _ _ _).
  destruct (Js.trim query) as [|c s] eqn:Hq.
  - cbn [Js.toLowerCase Js.nonempty]. exists (take topN (pairs res)).
    split; [reflexivity|]. split; [apply sublist_take|].
    split; [rewrite length_take; lia|]. split; [reflexivity|]. done.
  - cbn [Js.toLowerCase Js.nonempty].
    destruct (filter_rows_total pbk
                (String (Js.lower_char c) (Js.toLowerCase s)) (pairs res)
                (rows_have_keys minCount sortBy))
      as (l & Hl & Hsub & Hall).
    exists (take topN l). rewrite Hl. split; [reflexivity|].
    split; [etrans; [apply sublist_take | exact Hsub]|].
    split; [rewrite length_take; lia|]. split; [discriminate|].
    intros _ p Hp. apply Hall.
    eapply elem_of_sublist; [exact Hp | apply sublist_take].
Qed.

Lemma orders_with_swap (a b : string) :
  orders_with Date_parse orders fromIso toIso [a; b]
  = orders_with Date_parse orders fromIso toIso [b; a].
Proof.
  unfold orders_with. f_equal. apply List.filter_ext. intros o. cbn.
  rewrite !andb_true_r. apply andb_comm.
Qed.

Lemma elem_of_also_fold sel (ps : list PairRow) : forall acc e,
  e ∈ fold_left (also_step sel) ps acc ->
  e ∈ acc \/
  exists p, p ∈ ps /\
    ((A p = Some sel /\
      e = mkAlsoRow (B p) (support p) (confAtoB p) (lift p)) \/
     (B p = Some sel /\
      e = mkAlsoRow (A p) (support p) (confBtoA p) (lift p))).
Proof.
  induction ps as [|p ps IH]; intros acc e He; [by left|].
  cbn [fold_left] in He. apply IH in He as [He|(p' & Hp' & H)].
  - unfold also_step in He.
    repeat case_bool_decide.
    + apply elem_of_app in He as [He| ->%list_elem_of_singleton]; [by left|].
      right. exists p. split; [left | by left].
    + apply elem_of_app in He as [He| ->%list_elem_of_singleton]; [by left|].
      right. exists p. split; [left | by right].
    + by left.
  - right. exists p'. split; [by right | exact H].
Qed.

(** X11: the also-bought list.  Each entry names a product other than the
    selected one; its support is the number of eligible orders that hold
    both, and its [conf] is that support divided by the number of
    eligible orders that hold the selected product, at most 1. *)
Theorem also_bought_meaning (minCount : nat) (sortBy : SortBy)
        (selectedProductKey : string) (e : AlsoRow) :
  e ∈ alsoBought
        (pairs (compute Date_parse orders fromIso toIso minCount sortBy))
        selectedProductKey ->
  exists k,
    productKey e = Some k /\ k <> selectedProductKey /\
    ab_support e
    = orders_with Date_parse orders fromIso toIso [selectedProductKey; k] /\
    1 <= ab_support e /\
    conf e
    = conf_of (ab_support e)
        (orders_with Date_parse orders fromIso toIso [selectedProductKey]) /\
    Num.le (conf e) (Num.of_nat 1) = true.
Proof.
  unfold alsoBought. destruct (Js.nonempty selectedProductKey);
    cbn [negb]; [|intros H; inversion H].
  rewrite sort_perm. intros He.
  apply elem_of_also_fold in He as [He|(p & Hp & H)]; [inversion He|].
  destruct (row_entry _ _ _ _ _ _ _ Hp)
    as (a & b & Ha & Hb & Hlt & Hget & Hone & _ & Hr).
  assert (support p = orders_with Date_parse orders fromIso toIso [a; b])
    as Hs.
  { rewrite <- pair_count_value by done. rewrite Hget. reflexivity. }
  pose proof (orders_with_pair_le Date_parse orders fromIso toIso a b)
    as [HleA HleB].
  assert (a <> b) as Hab.
  { intros ->. pose proof (String.compare_antisym b b) as E.
    rewrite Hlt in E. discriminate. }
  assert (A p = Some a /\ B p = Some b /\
          confAtoB p = conf_of (support p)
                         (orders_with Date_parse orders fromIso toIso [a]) /\
          confBtoA p = conf_of (support p)
                         (orders_with Date_parse orders fromIso toIso [b]))
    as (HA & HB & HcA & HcB).
  { rewrite Hr. unfold pair_row. cbn [A B confAtoB confBtoA support].
    rewrite split_bars_pairKey by done.
    cbn [lookup list_lookup count_of mbind option_bind].
    rewrite <- !item_count_value. repeat split; reflexivity. }
  destruct H as [[Hsel ->]|[Hsel ->]]; cbn [productKey ab_support conf].
  - rewrite HA in Hsel. injection Hsel as <-. exists b.
    split; [exact HB|]. split; [congruence|]. split; [exact Hs|].
    split; [exact Hone|]. split; [exact HcA|].
    rewrite HcA. apply conf_of_range; lia.
  - rewrite HB in Hsel. injection Hsel as <-. exists a.
    split; [exact HA|]. split; [congruence|].
    split; [rewrite orders_with_swap; exact Hs|].
    split; [exact Hone|]. split; [exact HcB|].
    rewrite HcB. apply conf_of_range; lia.
Qed.

End PairsViewFacts.

Lemma also_bought_meaning_witness :
  exists e k,
    e ∈ PairsView.alsoBought
          (Pairs.pairs (Pairs.compute Demo.Date_parse Demo.two_orders
                                      None None 1 Pairs.BySupport))
          "12::0" /\
    PairsView.productKey e = Some k /\ k <> "12::0".
Proof.
  assert (exists e,
            e ∈ PairsView.alsoBought
                  (Pairs.pairs (Pairs.compute Demo.Date_parse Demo.two_orders
                                              None None 1 Pairs.BySupport))
                  "12::0")
    as [e He] by (eexists; vm_compute; left).
  destruct (also_bought_meaning Demo.Date_parse Demo.two_orders None None
              1 Pairs.BySupport "12::0" e He) as (k & Hk & Hne & _).
  exists e, k. repeat split; assumption.
Defined.

(** ** The CSV text of the pairs page *)

Section CsvFacts.
Import PairsView.

Abbreviation no_quote_first :=
  (fun t : string =>
     match t with String c _ => c <> dquote | EmptyString => True end).

Lemma escaped_cut (s1 : string) : forall s2 t1 t2,
  no_quote_first t1 -> no_quote_first t2 ->
  escape_quotes s1 +:+ String dquote t1
  = escape_quotes s2 +:+ String dquote t2 ->
  s1 = s2 /\ t1 = t2.
Proof.
  induction s1 as [|c1 s1 IH]; intros [|c2 s2] t1 t2 H1 H2 E;
    cbn [escape_quotes] in E.
  - rewrite !app_empty in E. injection E as ->. done.
  - exfalso. rewrite app_empty in E.
    destruct (Ascii.eqb_spec c2 dquote) as [->|Hc];
      rewrite ?app_String in E.
    + injection E as E. subst t1. by apply H1.
    + injection E as E1 E2. congruence.
  - exfalso. rewrite app_empty in E.
    destruct (Ascii.eqb_spec c1 dquote) as [->|Hc];
      rewrite ?app_String in E.
    + injection E as E. subst t2. by apply H2.
    + injection E as E1 E2. congruence.
  - destruct (Ascii.eqb_spec c1 dquote) as [->|Hc1],
             (Ascii.eqb_spec c2 dquote) as [->|Hc2];
      rewrite ?app_String in E.
    + injection E as E. destruct (IH s2 t1 t2 H1 H2 E) as [-> ->]. done.
    + injection E as E1 E2. congruence.
    + injection E as E1 E2. congruence.
    + injection E as E1 E2. subst c2.
      destruct (IH s2 t1 t2 H1 H2 E2) as [-> ->]. done.
Qed.

Lemma field_cut s1 s2 t1 t2 :
  no_quote_first t1 -> no_quote_first t2 ->
  csv_field s1 +:+ t1 = csv_field s2 +:+ t2 -> s1 = s2 /\ t1 = t2.
Proof.
  intros H1 H2 E. unfold csv_field in E. rewrite !app_String in E.
  injection E as E. rewrite !string_app_assoc in E.
  rewrite !app_String, !app_empty in E.
  by apply escaped_cut.
Qed.

Abbreviation csv_line :=
  (fun r : list string => Js.join "," (csv_field <$> r)).

Abbreviation line_end :=
  (fun t : string =>
     match t with String c _ => c = newline | EmptyString => True end).

Lemma line_cut (r1 : list string) : forall r2 t1 t2,
  r1 <> [] -> r2 <> [] -> line_end t1 -> line_end t2 ->
  csv_line r1 +:+ t1 = csv_line r2 +:+ t2 -> r1 = r2 /\ t1 = t2.
Proof.
  induction r1 as [|f1 r1 IH]; intros [|f2 r2] t1 t2 N1 N2 H1 H2 E;
    try done.
  assert (forall t, line_end t -> no_quote_first t) as Hend.
  { intros [|c t]; [done|]. cbn. intros ->. discriminate. }
  destruct r1 as [|g1 r1], r2 as [|g2 r2]; rewrite ?fmap_cons in E.
  - cbn [fmap list_fmap Js.join String.concat] in E.
    apply field_cut in E as [-> ->]; [done|by apply Hend..].
  - exfalso. rewrite (join_cons2 "," (csv_field f2)) in E.
    cbn [fmap list_fmap Js.join String.concat] in E.
    rewrite !string_app_assoc in E.
    apply field_cut in E as [_ ->]; [|by apply Hend|cbn; discriminate].
    cbn in H1. discriminate.
  - exfalso. rewrite (join_cons2 "," (csv_field f1)) in E.
    cbn [fmap list_fmap Js.join String.concat] in E.
    rewrite !string_app_assoc in E.
    apply field_cut in E as [_ <-]; [|cbn; discriminate|by apply Hend].
    cbn in H2. discriminate.
  - rewrite !(join_cons2 ",") in E.
    change (csv_field g1 :: (csv_field <$> r1))
      with (csv_field <$> (g1 :: r1)) in E.
    change (csv_field g2 :: (csv_field <$> r2))
      with (csv_field <$> (g2 :: r2)) in E.
    remember (Js.join "," (csv_field <$> g1 :: r1)) as J1 eqn:EJ1.
    remember (Js.join "," (csv_field <$> g2 :: r2)) as J2 eqn:EJ2.
    rewrite !string_app_assoc in E.
    apply field_cut in E as [-> E]; [|cbn; discriminate..].
    rewrite !app_String, !app_empty in E. injection E as E.
    subst J1 J2.
    apply IH in E as [-> ->]; done.
Qed.

(** X12: the CSV text determines the table.  Two tables whose rows are
    not empty and that give the same text are the same table: the quotes
    of a field are doubled, so that a comma, a line feed or a quote in a
    field is never taken for a separator. *)
Theorem csv_text_injective (rows1 rows2 : list (list string)) :
  Forall (fun r => r <> []) rows1 -> Forall (fun r => r <> []) rows2 ->
  csv_text rows1 = csv_text rows2 -> rows1 = rows2.
Proof.
  unfold csv_text. revert rows2.
  induction rows1 as [|r1 rows1 IH]; intros [|r2 rows2] N1 N2 E; try done.
  - exfalso. apply Forall_cons in N2 as [N2 _].
    destruct r2 as [|f r2]; [done|].
    destruct rows2, r2; discriminate.
  - exfalso. apply Forall_cons in N1 as [N1 _].
    destruct r1 as [|f r1]; [done|].
    destruct rows1, r1; discriminate.
  - apply Forall_cons in N1 as [Hr1 N1]. apply Forall_cons in N2 as [Hr2 N2].
    destruct rows1 as [|r1' rows1], rows2 as [|r2' rows2];
      rewrite ?fmap_cons in E.
    + cbn [fmap list_fmap Js.join String.concat] in E.
      rewrite <- (app_nil_r_string (Js.join "," (csv_field <$> r1))) in E.
      rewrite <- (app_nil_r_string (Js.join "," (csv_field <$> r2))) in E.
      apply line_cut in E as [-> _]; done.
    + exfalso. rewrite (join_cons2 _ (csv_line r2)) in E.
      cbn [fmap list_fmap Js.join String.concat] in E.
      rewrite <- (app_nil_r_string (Js.join "," (csv_field <$> r1))) in E.
      apply line_cut in E as [_ E]; done.
    + exfalso. rewrite (join_cons2 _ (csv_line r1)) in E.
      cbn [fmap list_fmap Js.join String.concat] in E.
      rewrite <- (app_nil_r_string (Js.join "," (csv_field <$> r2))) in E.
      apply line_cut in E as [_ E]; done.
    + rewrite !(join_cons2 (String newline "")) in E.
      change (csv_line r1' :: (csv_line <$> rows1))
        with (csv_line <$> (r1' :: rows1)) in E.
      change (csv_line r2' :: (csv_line <$> rows2))
        with (csv_line <$> (r2' :: rows2)) in E.
      remember (Js.join (String newline "") (csv_line <$> r1' :: rows1))
        as J1 eqn:EJ1.
      remember (Js.join (String newline "") (csv_line <$> r2' :: rows2))
        as J2 eqn:EJ2.
      apply line_cut in E as [-> E]; [|done..].
      rewrite !app_String, !app_empty in E. injection E as E.
      subst J1 J2. f_equal. by apply IH.
Qed.

End CsvFacts.

Lemma csv_text_injective_witness :
  [["1::0"; "Whey, vanilla"]; ["2::0"; "Bar"]]
  = [["1::0"; "Whey, vanilla"]; ["2::0"; "Bar"]].
Proof.
  apply csv_text_injective.
  - repeat constructor; discriminate.
  - repeat constructor; discriminate.
  - reflexivity.
Defined.

(** ** The records of the bundle pages *)

Section RecordFacts.
Import Bundles.
Variable localeCompare : string -> string -> comparison.
Variable variant : Variant.
Variable explodeGummies : bool.

Lemma sum_bump (m : list (string * nat)) (k : string) :
  sum_list (snd <$> Pairs.bump m k) = sum_list (snd <$> m) + 1.
Proof.
  unfold Pairs.bump. induction m as [|[k' v'] m IH]; [reflexivity|].
  cbn [JsMap.get JsMap.set]. destruct (String.eqb k' k).
  - cbn. lia.
  - rewrite !fmap_cons. cbn [sum_list snd]. rewrite IH. lia.
Qed.

(** What a record keeps apart from its label. *)
Abbreviation rec_ok :=
  (fun rec : Rec =>
     sum_list (snd <$> variants rec) = count rec /\
     Forall (fun e : string * nat => 1 <= e.2) (variants rec) /\
     NoDup (fst <$> variants rec) /\
     length (sample rec) = Nat.min (count rec) 6).

Lemma rec_ok_step (old : Rec) (vk : string) (ref : SampleRef) :
  rec_ok old ->
  rec_ok (mkRec (count old + 1)
                (JsMap.set (variants old) vk
                   (default 0 (JsMap.get (variants old) vk) + 1))
                (if length (sample old) <? 6 then sample old ++ [ref]
                 else sample old)
                (label old))
  /\ 1 <= count old + 1.
Proof.
  intros (Hsum & Hall & Hnd & Hlen). cbn [count variants sample].
  split; [|lia]. split; [|split; [|split]].
  - rewrite <- Hsum. apply (sum_bump (variants old) vk).
  - apply set_Forall; [exact Hall | cbn; lia].
  - by apply set_NoDup.
  - destruct (Nat.ltb_spec (length (sample old)) 6).
    + rewrite length_app. cbn [length]. lia.
    + lia.
Qed.

Abbreviation maps_ok :=
  (fun maps : nat -> list (string * Rec) =>
     forall s key rec, JsMap.get (maps s) key = Some rec ->
                       rec_ok rec /\ 1 <= count rec).

Lemma maps_ok_step maps e :
  maps_ok maps -> maps_ok (ev_step localeCompare variant maps e).
Proof.
  intros Hok s key rec.
  destruct (decide ((s, key) = (length e.2, bundleKey variant e.2)))
    as [[= -> ->]|Hne].
  - unfold ev_step, comb_step. unfold JsMap.has.
    destruct (JsMap.get (maps (length e.2)) (bundleKey variant e.2))
      as [old|] eqn:Hget.
    + rewrite Hget, upd_eq, get_set_eq. intros [= <-].
      apply rec_ok_step. by apply (Hok _ _ _ Hget).
    + rewrite get_set_eq, upd_eq, get_set_eq. intros [= <-].
      apply (rec_ok_step (new_rec localeCompare variant e.2)).
      cbn. repeat split; constructor.
  - destruct (ev_step_get localeCompare variant maps e) as [_ Hother].
    rewrite Hother by exact Hne. apply Hok.
Qed.

Lemma maps_ok_build maxSize orders :
  maps_ok (build_maps localeCompare variant explodeGummies maxSize orders).
Proof.
  rewrite build_maps_events.
  generalize (events localeCompare variant explodeGummies maxSize orders).
  intros evs.
  assert (maps_ok (fun _ => [])) as H0 by (intros s key rec [=]).
  revert H0. generalize (fun _ : nat => @nil (string * Rec)).
  induction evs as [|e evs IH]; intros maps Hok; [exact Hok|].
  cbn [fold_left]. apply IH, maps_ok_step, Hok.
Qed.

Lemma hits_size maxSize orders s key :
  hits variant s key
       (events localeCompare variant explodeGummies maxSize orders) <> [] ->
  1 <= s <= maxSize.
Proof.
  intros H.
  destruct (hits variant s key _) as [|[o c] l] eqn:E; [done|].
  assert ((o, c) ∈ hits variant s key
            (events localeCompare variant explodeGummies maxSize orders))
    as Hin by (rewrite E; left).
  apply elem_of_filter_bool in Hin as [Hin Hb].
  apply andb_true_iff in Hb as [Hs%Nat.eqb_eq _]. cbn [snd] in Hs.
  apply elem_of_events in Hin as (_ & _ & Hc).
  apply elem_of_enumerate in Hc as [_ Hc]. lia.
Qed.

(** X13: the records are consistent.  A record is kept for sizes between
    1 and the maximum only; its count is at least 1; the counts of its
    variants are at least 1 each and add up to its count; and its sample
    holds [min(count, 6)] references. *)
Theorem bundle_record_consistent (maxSize : nat) (orders : list Order)
        (s : nat) (key : string) (rec : Rec) :
  JsMap.get (build_maps localeCompare variant explodeGummies maxSize orders s)
            key = Some rec ->
  1 <= s <= maxSize /\ 1 <= count rec /\
  sum_list (snd <$> variants rec) = count rec /\
  Forall (fun e => 1 <= e.2) (variants rec) /\
  NoDup (fst <$> variants rec) /\
  length (sample rec) = Nat.min (count rec) 6.
Proof.
  intros Hget.
  destruct (maps_ok_build maxSize orders s key rec Hget)
    as ((Hsum & Hall & Hnd & Hlen) & Hone).
  pose proof (agrees_build localeCompare variant explodeGummies
                maxSize orders s key) as Inv.
  rewrite Hget in Inv. destruct Inv as (Hne & _ & _).
  split; [by eapply hits_size|]. repeat split; assumption.
Qed.

End RecordFacts.

Lemma bundle_record_consistent_witness :
  exists rec,
    JsMap.get (Bundles.build_maps String.compare Bundles.ByDisplayName false
                 7 Demo.two_orders 1) "Protein Bar" = Some rec /\
    Bundles.count rec = 2 /\
    sum_list (snd <$> Bundles.variants rec) = Bundles.count rec.
Proof.
  eexists. split; [vm_compute; reflexivity|]. split; [reflexivity|].
  eapply (bundle_record_consistent String.compare Bundles.ByDisplayName false
            7 Demo.two_orders 1 "Protein Bar").
  vm_compute. reflexivity.
Defined.

(** ** What the counts of the bundle pages count *)

Section BundleCounts.
Import Bundles.
Variable localeCompare : string -> string -> comparison.
Variable variant : Variant.
Variable explodeGummies : bool.

Lemma totalEligibleOrders_filter orders :
  totalEligibleOrders variant orders
  = length (List.filter (is_eligible variant) orders).
Proof.
  unfold totalEligibleOrders.
  assert (forall acc,
            fold_left
              (fun acc o => acc + (if is_eligible variant o then 1 else 0))
                      orders acc
            = acc + length (List.filter (is_eligible variant) orders)) as H.
  { induction orders as [|o os IH]; intros acc; cbn [fold_left List.filter];
      [cbn; lia|].
    rewrite IH. destruct (is_eligible variant o); cbn [length]; lia. }
  apply (H 0).
Qed.

Lemma existsb_eqb_elem (k : string) (l : list string) :
  existsb (String.eqb k) l = true <-> k ∈ l.
Proof.
  rewrite existsb_exists. split.
  - intros (x & Hin & ->%String.eqb_eq). by apply list_elem_of_In.
  - intros Hin. exists k. split; [by apply list_elem_of_In|].
    apply String.eqb_refl.
Qed.

Lemma singleton_sublist {T : Type} (x : T) (l : list T) :
  x ∈ l -> [x] `sublist_of` l.
Proof.
  intros (l1 & l2 & ->)%list_elem_of_split.
  apply sublist_inserts_l, sublist_skip, sublist_nil_l.
Qed.

(** Among the itemsets enumerated for distinct items, the ones of size 1
    with the key [k]: one when an item has this key, none otherwise. *)
Lemma singles_length (K : nat) (l : list BItem) (k : string) :
  1 <= K -> NoDup (keyOf variant <$> l) ->
  length (List.filter (fun c => (length c =? 1)
                                && String.eqb (bundleKey variant c) k)
                      (enumerate K l))
  = if existsb (String.eqb k) (keyOf variant <$> l) then 1 else 0.
Proof.
  intros HK Hnd.
  assert (NoDup l) as Hndl by (by eapply NoDup_fmap_1).
  set (F := List.filter _ _).
  assert (forall c, c ∈ F <->
            exists it, it ∈ l /\ c = [it] /\ keyOf variant it = k) as HF.
  { intros c. unfold F. rewrite elem_of_filter_bool, elem_of_enumerate.
    rewrite andb_true_iff, Nat.eqb_eq, String.eqb_eq. split.
    - intros [[Hsub _] [Hlen Hkey]].
      destruct c as [|it [|? ?]]; try discriminate.
      exists it. split; [|split; [reflexivity | exact Hkey]].
      eapply elem_of_sublist; [left | exact Hsub].
    - intros (it & Hin & -> & Hkey). split; [split|split].
      + by apply singleton_sublist.
      + cbn [length]. destruct l; [inversion Hin | cbn [length]; lia].
      + reflexivity.
      + exact Hkey. }
  assert (NoDup F) as HndF.
  { eapply sublist_NoDup; [apply enumerate_NoDup, Hndl|].
    apply filter_bool_sublist. }
  destruct (existsb (String.eqb k) (keyOf variant <$> l)) eqn:Hex.
  - apply existsb_eqb_elem, list_elem_of_fmap in Hex as (it & -> & Hin).
    assert ([it] ∈ F) as Hit by (apply HF; by exists it).
    apply Nat.le_antisymm.
    + apply NoDup_all_equal; [exact HndF|].
      intros c1 c2 (i1 & H1 & -> & K1)%HF (i2 & H2 & -> & K2)%HF.
      f_equal. apply (fmap_inj_on (keyOf variant) l Hnd); congruence.
    + destruct F; [inversion Hit | cbn [length]; lia].
  - destruct F as [|c F'] eqn:EF; [reflexivity|]. exfalso.
    assert (c ∈ c :: F') as Hc by left.
    apply HF in Hc as (it & Hin & _ & Hkey).
    assert (existsb (String.eqb k) (keyOf variant <$> l) = true);
      [|congruence].
    apply existsb_eqb_elem, list_elem_of_fmap. by exists it.
Qed.

Lemma order_singles (maxSize : nat) (o : Order) (k : string) :
  1 <= maxSize ->
  length (hits variant 1 k
            (order_events localeCompare variant explodeGummies maxSize o))
  = if is_eligible variant o && has_item variant explodeGummies o k
    then 1 else 0.
Proof.
  intros HK. unfold order_events, has_item.
  destruct (is_eligible variant o); cbn [negb andb]; [|reflexivity].
  destruct (extractLineItems variant explodeGummies o) as [|it items] eqn:E.
  { reflexivity. }
  cbn [length Nat.ltb Nat.leb]. rewrite <- E.
  unfold hits. rewrite filter_bool_fmap, length_fmap. cbn [snd].
  rewrite singles_length;
    [|exact HK|apply sorted_keys_NoDup].
  rewrite (existsb_perm _ _ (keyOf variant <$>
             extractLineItems variant explodeGummies o));
    [reflexivity|].
  apply fmap_Permutation, sort_perm.
Qed.

Lemma hits_flat_map s key (orders : list Order) maxSize :
  length (hits variant s key
            (events localeCompare variant explodeGummies maxSize orders))
  = sum_list
      ((fun o => length (hits variant s key
                           (order_events localeCompare variant
                                         explodeGummies maxSize o)))
         <$> orders).
Proof.
  unfold events, hits. induction orders as [|o os IH]; [reflexivity|].
  cbn [flat_map]. rewrite List.filter_app, length_app, IH. reflexivity.
Qed.

(** X14: what the count of a single item counts.  In the map of the
    size 1, the count of the key [k] is the number of accepted orders
    that have an item with this key, and it is at most
    [totalEligibleOrders]. *)
Theorem single_count_meaning (maxSize : nat) (orders : list Order)
        (k : string) :
  1 <= maxSize ->
  count_at (build_maps localeCompare variant explodeGummies maxSize orders)
           1 k
  = length (List.filter
              (fun o => is_eligible variant o
                        && has_item variant explodeGummies o k) orders) /\
  count_at (build_maps localeCompare variant explodeGummies maxSize orders)
           1 k
  <= totalEligibleOrders variant orders.
Proof.
  intros HK.
  assert (count_at (build_maps localeCompare variant explodeGummies
                               maxSize orders) 1 k
          = length (List.filter
                      (fun o => is_eligible variant o
                                && has_item variant explodeGummies o k)
                      orders)) as H.
  { rewrite count_at_hits, hits_flat_map.
    induction orders as [|o os IH]; [reflexivity|].
    rewrite fmap_cons. cbn [sum_list List.filter].
    rewrite IH, order_singles by exact HK.
    destruct (is_eligible variant o && has_item variant explodeGummies o k);
      reflexivity. }
  split; [exact H|]. rewrite H, totalEligibleOrders_filter.
  clear H. induction orders as [|o os IH]; [reflexivity|].
  cbn [List.filter].
  destruct (is_eligible variant o), (has_item variant explodeGummies o k);
    cbn [andb length]; lia.
Qed.

(** X15: the counts of the bundle pages do not depend on the order of
    the orders: for a dataset with the same orders in another order,
    every count and the number of eligible orders are the same. *)
Theorem bundle_counts_order_independent (maxSize : nat)
        (orders orders' : list Order) (s : nat) (key : string) :
  orders ≡ₚ orders' ->
  count_at (build_maps localeCompare variant explodeGummies maxSize orders)
           s key
  = count_at (build_maps localeCompare variant explodeGummies maxSize orders')
             s key /\
  totalEligibleOrders variant orders = totalEligibleOrders variant orders'.
Proof.
  intros Hperm. split.
  - rewrite !count_at_hits, !hits_flat_map.
    apply sum_list_with_Permutation_proper. by apply fmap_Permutation.
  - rewrite !totalEligibleOrders_filter. by apply filter_length_perm.
Qed.

End BundleCounts.

Lemma single_count_meaning_witness :
  count_at (Bundles.build_maps String.compare Bundles.ByDisplayName false
              7 Demo.two_orders) 1 "Protein Bar"
  <= Bundles.totalEligibleOrders Bundles.ByDisplayName Demo.two_orders.
Proof.
  apply (single_count_meaning String.compare Bundles.ByDisplayName false
           7 Demo.two_orders "Protein Bar").
  lia.
Defined.

Lemma bundle_counts_order_independent_witness :
  count_at (Bundles.build_maps String.compare Bundles.ByDisplayName false
              7 Demo.two_orders) 1 "Protein Bar"
  = count_at (Bundles.build_maps String.compare Bundles.ByDisplayName false
                7 (reverse Demo.two_orders)) 1 "Protein Bar".
Proof.
  apply (bundle_counts_order_independent String.compare Bundles.ByDisplayName
           false 7 Demo.two_orders (reverse Demo.two_orders) 1 "Protein Bar").
  vm_compute. apply Permutation_swap.
Defined.

(** ** The lists of the bundle pages *)

Section BundleLists.
Import Bundles BundlesView.
Variable localeCompare : string -> string -> comparison.
Variable variant : Variant.
Variable explodeGummies : bool.

Lemma sort_sorted_id {T : Type} (cmp : T -> T -> comparison)
      (R : T -> T -> Prop) (l : list T) :
  (forall x y, R x y -> cmp x y <> Gt) ->
  StronglySorted R l -> sort cmp l = l.
Proof.
  intros HR. induction 1 as [|x l Hs IH Hall]; [reflexivity|].
  cbn [sort foldr]. fold (sort cmp l). rewrite IH.
  destruct l as [|y r]; [reflexivity|]. cbn [sort_insert].
  apply Forall_cons in Hall as [Hxy _]. apply HR in Hxy.
  destruct (cmp x y); [reflexivity | reflexivity | congruence].
Qed.

Lemma count_desc_sorted {T : Type} (f : T -> nat) (l : list T) :
  StronglySorted (fun x y => f y <= f x)
                 (sort (fun a b => Nat.compare (f b) (f a)) l).
Proof.
  apply (sort_sorted _ _ (fun _ => True)).
  - intros x y z _ _ _. lia.
  - intros x y _ _ H%Nat.compare_gt_iff. lia.
  - intros x y _ _ H.
    destruct (Nat.compare_spec (f y) (f x)); [lia | lia | congruence].
  - by apply Forall_forall.
Qed.

Lemma rows_size (orders : list Order) (s : nat) (r : BundleRow) :
  r ∈ bundlesBySize localeCompare variant explodeGummies orders s ->
  1 <= s <= MAX_SIZE /\ 1 <= r_count r.
Proof.
  unfold bundlesBySize. rewrite sort_perm. unfold JsMap.entries.
  intros ([k rec] & -> & Hin)%list_elem_of_fmap.
  assert (NoDup (fst <$> build_maps localeCompare variant explodeGummies
                           MAX_SIZE orders s)) as Hnd.
  { rewrite build_maps_events.
    generalize (events localeCompare variant explodeGummies MAX_SIZE orders).
    intros evs.
    assert (forall s', NoDup (fst <$> (fun _ : nat => @nil (string * Rec)) s'))
      as H0 by (intros; constructor).
    revert H0. generalize (fun _ : nat => @nil (string * Rec)).
    induction evs as [|e evs IH]; intros maps H0; [apply H0|].
    cbn [fold_left]. apply IH. intros s'.
    unfold ev_step, comb_step. unfold JsMap.has.
    destruct (JsMap.get (maps (length e.2)) (bundleKey variant e.2)) eqn:Hget.
    - rewrite Hget. unfold upd.
      destruct (s' =? length e.2) eqn:E; [|apply H0].
      apply set_NoDup, H0.
    - rewrite get_set_eq. unfold upd.
      destruct (s' =? length e.2) eqn:E; [|apply H0].
      apply set_NoDup, set_NoDup, H0. }
  pose proof (elem_of_get _ _ _ Hnd Hin) as Hget.
  destruct (maps_ok_build localeCompare variant explodeGummies
              MAX_SIZE orders s k rec Hget) as (_ & Hone).
  pose proof (agrees_build localeCompare variant explodeGummies
                MAX_SIZE orders s k) as Inv.
  rewrite Hget in Inv. destruct Inv as (Hne & _ & _).
  split; [by eapply hits_size|].
  unfold row_of. destruct variant; exact Hone.
Qed.

(** X16: the lists of the bundle pages are ranked.  The rows of a size
    and the combined list come in descending order of their counts; an
    entry of the combined list is a row of a size shown, between 1 and 7;
    and when a single size is shown the combined list is the list of that
    size. *)
Theorem bundle_lists_ranked (orders : list Order) (selectedSize : nat)
        (showRangeToEnd : bool) :
  let rows := bundlesBySize localeCompare variant explodeGummies orders in
  let combined :=
    combinedList localeCompare variant explodeGummies orders
                 selectedSize showRangeToEnd in
  (forall s, StronglySorted (fun x y => r_count y <= r_count x) (rows s)) /\
  StronglySorted (fun a b => r_count b.2 <= r_count a.2) combined /\
  Forall (fun e => e.1 ∈ sizesToShow selectedSize showRangeToEnd /\
                   1 <= e.1 <= 7 /\ e.2 ∈ rows e.1) combined /\
  (showRangeToEnd = false -> 1 <= selectedSize ->
   combined = (fun b => (selectedSize, b)) <$> rows selectedSize).
Proof.
  cbv zeta. split; [|split; [|split]].
  - intros s. apply (count_desc_sorted r_count).
  - apply (count_desc_sorted (fun a : nat * BundleRow => r_count a.2)).
  - apply Forall_forall. intros [sz r]. unfold combinedList.
    rewrite sort_perm, list_elem_of_In, in_flat_map.
    intros (s & Hs%list_elem_of_In & Hin%list_elem_of_In).
    apply list_elem_of_fmap in Hin as (b & [= -> ->] & Hb). cbn [fst snd].
    split; [exact Hs|]. split; [|exact Hb].
    apply rows_size in Hb as [Hb _]. exact Hb.
  - intros -> Hs. unfold combinedList, sizesToShow.
    destruct (Nat.eqb_spec selectedSize 0); [lia|].
    cbn [flat_map]. rewrite app_nil_r.
    apply (sort_sorted_id _ (fun a b : nat * BundleRow =>
                               r_count b.2 <= r_count a.2)).
    + intros x y H Hc%Nat.compare_gt_iff. lia.
    + pose proof (count_desc_sorted r_count
                    (row_of variant <$>
                     JsMap.entries (build_maps localeCompare variant
                                      explodeGummies MAX_SIZE orders
                                      selectedSize))) as Hsorted.
      fold (bundlesBySize localeCompare variant explodeGummies orders
                          selectedSize) in Hsorted.
      induction Hsorted as [|x l Hs' IH Hall]; [constructor|].
      rewrite fmap_cons. constructor; [exact IH|].
      apply Forall_fmap. exact Hall.
Qed.

End BundleLists.

(** ** The palette *)

Section ColorFacts.
Import BundlesView.

Lemma hash_from_range (s : string) : forall h,
  (0 <= h < 2 ^ 32)%Z -> (0 <= hash_from h s < 2 ^ 32)%Z.
Proof.
  induction s as [|c s IH]; intros h Hh; [exact Hh|].
  cbn [hash_from]. apply IH. apply Z.mod_pos_bound. lia.
Qed.

(** X17: [colorFor] always gives a colour of the palette: the hash stays
    below [2^32] and the index below the length of the palette, so that
    the result is never [undefined]. *)
Theorem colorFor_in_palette (s : string) :
  (0 <= hash_from 0 s < 2 ^ 32)%Z /\
  exists c, colorFor s = Some c /\ c ∈ PALETTE.
Proof.
  split; [apply hash_from_range; lia|].
  unfold colorFor.
  assert (forall i, i < length PALETTE ->
            exists c, PALETTE !! i = Some c /\ c ∈ PALETTE) as H.
  { intros i Hi. destruct (lookup_lt_is_Some_2 PALETTE i Hi) as [c Hc].
    exists c. split; [exact Hc | by eapply list_elem_of_lookup_2]. }
  destruct (Js.nonempty s); cbn [negb]; apply H.
  - pose proof (Z.mod_pos_bound (hash_from 0 s) (Z.of_nat (length PALETTE))
                  ltac:(cbn; lia)). lia.
  - cbn. lia.
Qed.

End ColorFacts.

(** ** The order synchronisation and the pages *)

Section SyncFacts.
Import Sync.

Lemma meta_variant_simplify (l : list MetaDatum) :
  match List.find (fun m => Bundles.is_variant_key (Js.or_empty (md_key m)))
                  (simplifyMeta <$> l) with
  | Some meta => Js.or_empty (md_value meta)
  | None => ""
  end
  = match List.find (fun m => Bundles.is_variant_key (Js.or_empty (md_key m)))
                    l with
    | Some meta => Js.or_empty (md_value meta)
    | None => ""
    end.
Proof.
  induction l as [|m l IH]; [reflexivity|].
  rewrite fmap_cons. cbn [List.find].
  change (Js.or_empty (md_key (simplifyMeta m)))
    with (Js.or_empty (md_key m)).
  destruct (Bundles.is_variant_key (Js.or_empty (md_key m)));
    [reflexivity | exact IH].
Qed.

Lemma omap_value_simplify (l : list MetaDatum) :
  omap md_value (simplifyMeta <$> l) = omap md_value l.
Proof.
  induction l as [|m l IH]; [reflexivity|].
  rewrite fmap_cons. cbn [omap list_omap simplifyMeta md_value].
  destruct (md_value m); by rewrite IH.
Qed.

Lemma bundle_line_step_simplify explode st li :
  Bundles.line_step explode st (simplifyLineItem li)
  = Bundles.line_step explode st li.
Proof.
  unfold Bundles.line_step. destruct st as [[ng set] saw].
  cbn [simplifyLineItem li_name li_product_id li_id li_variation_id
       li_meta_data].
  rewrite omap_value_simplify, meta_variant_simplify. reflexivity.
Qed.

Lemma fold_left_pre {S T U : Type} (f : S -> U -> S) (f' : S -> T -> S)
      (g : T -> U) (l : list T) :
  (forall a x, f a (g x) = f' a x) ->
  forall init, fold_left f (g <$> l) init = fold_left f' l init.
Proof.
  intros H. induction l as [|x l IH]; intros init; [reflexivity|].
  rewrite fmap_cons. cbn [fold_left]. rewrite H. apply IH.
Qed.

Lemma bundle_extract_simplify variant explode o :
  Bundles.extractLineItems variant explode (simplifyOrder o)
  = Bundles.extractLineItems variant explode o.
Proof.
  unfold Bundles.extractLineItems. cbn [simplifyOrder o_line_items].
  rewrite (fold_left_pre _ (Bundles.line_step explode) simplifyLineItem)
    by (intros; apply bundle_line_step_simplify).
  reflexivity.
Qed.

Lemma pairs_extract_simplify o :
  Pairs.extractItemsForOrder (simplifyOrder o) = Pairs.extractItemsForOrder o.
Proof.
  unfold Pairs.extractItemsForOrder. cbn [simplifyOrder o_line_items].
  rewrite (fold_left_pre _ Pairs.line_step simplifyLineItem)
    by (intros; reflexivity).
  reflexivity.
Qed.

Lemma bundle_order_step_simplify localeCompare variant explode maxSize maps o :
  Bundles.order_step localeCompare variant explode maxSize maps
                     (simplifyOrder o)
  = Bundles.order_step localeCompare variant explode maxSize maps o.
Proof.
  unfold Bundles.order_step. rewrite bundle_extract_simplify. reflexivity.
Qed.

(** X18: the synchronisation keeps all that the bundle pages read.  On
    the orders as [simplifyOrder] stores them, the maps of the bundle
    pages, and so their rows, and the number of eligible orders are the
    ones of the orders as the store delivers them. *)
Theorem bundles_unaffected_by_sync
        (localeCompare : string -> string -> comparison)
        (variant : Bundles.Variant) (explodeGummies : bool)
        (orders : list Order) :
  (forall maxSize,
     Bundles.build_maps localeCompare variant explodeGummies maxSize
                        (simplifyOrder <$> orders)
     = Bundles.build_maps localeCompare variant explodeGummies maxSize
                          orders) /\
  (forall s,
     Bundles.bundlesBySize localeCompare variant explodeGummies
                           (simplifyOrder <$> orders) s
     = Bundles.bundlesBySize localeCompare variant explodeGummies orders s) /\
  Bundles.totalEligibleOrders variant (simplifyOrder <$> orders)
  = Bundles.totalEligibleOrders variant orders.
Proof.
  assert (forall maxSize,
     Bundles.build_maps localeCompare variant explodeGummies maxSize
                        (simplifyOrder <$> orders)
     = Bundles.build_maps localeCompare variant explodeGummies maxSize
                          orders) as H.
  { intros maxSize. unfold Bundles.build_maps.
    apply fold_left_pre. intros; apply bundle_order_step_simplify. }
  split; [exact H|]. split.
  - intros s. unfold Bundles.bundlesBySize. by rewrite H.
  - unfold Bundles.totalEligibleOrders. apply fold_left_pre.
    intros; reflexivity.
Qed.

Lemma ge_zero_le (x : Num.jsnum) :
  Num.strict_eq x Num.zero || Num.ge Num.zero x = Num.le x Num.zero.
Proof.
  destruct x as [| | |q]; try reflexivity.
  unfold Num.strict_eq, Num.ge, Num.le, Num.zero. cbn [Num.compare].
  rewrite <- (Qcompare_antisym q 0). destruct (q ?= 0)%Q; reflexivity.
Qed.

(** X19: the refund guard of the pairs page sees no refund after the
    synchronisation.  [simplifyOrder] does not keep [total_refunded],
    [date_paid] and [date_completed]; so a stored order is eligible
    exactly when its status is completed, its total is not zero or
    less, and its creation date, if it can be read, lies in the range,
    whatever was refunded; and it has the items of the order as
    delivered. *)
Theorem pairs_refund_guard_inert_after_sync
        (Date_parse : string -> option Z) (o : Order)
        (fromIso toIso : option string) :
  Pairs.isOrderEligible Date_parse (simplifyOrder o) fromIso toIso
  = String.eqb (Js.toLowerCase (Js.or_empty (o_status o))) "completed"
    && negb (Num.le (Num.or_zero (o_total o)) Num.zero)
    && match Pairs.toDateSafe Date_parse
               (Js.nullish (o_date_created o) (o_date_created_gmt o)) with
       | None => true
       | Some dt => negb (Pairs.before Date_parse dt fromIso)
                    && negb (Pairs.after Date_parse dt toIso)
       end /\
  Pairs.extractItemsForOrder (simplifyOrder o) = Pairs.extractItemsForOrder o.
Proof.
  split; [|apply pairs_extract_simplify].
  unfold Pairs.isOrderEligible, Pairs.resolved_date.
  cbn [simplifyOrder o_status o_total o_total_refunded o_date_paid
       o_date_completed o_date_created o_date_created_gmt Js.nullish].
  change (Num.or_zero None) with Num.zero.
  rewrite ge_zero_le.
  destruct (String.eqb _ "completed"); cbn [negb andb]; [|reflexivity].
  destruct (Num.le _ Num.zero); cbn [negb andb]; [reflexivity|].
  destruct (Pairs.toDateSafe _ _); [|reflexivity].
  destruct (Pairs.before _ _ _); cbn [negb andb]; [reflexivity|].
  destruct (Pairs.after _ _ _); reflexivity.
Qed.

End SyncFacts.

(** ** The gummies items of the bundle pages *)

Section GummiesFacts.
Import Bundles.
Variable variant : Variant.

(** An item pushed for a flavour in the exploded mode. *)
Abbreviation exploded :=
  (fun it : BItem =>
     exists fv pv, displayName it = "Gummies(" +:+ fv +:+ ")" /\
                   productId it = "gummies-" +:+ pv /\ flavors it = None).

Lemma String_of_id_first (x : option Z) :
  exists c s, Js.String_of_id x = String c s /\ c <> "g"%char.
Proof.
  destruct x as [z|]; [|by eexists _, _].
  unfold Js.String_of_id, Js.String_of_Z, NilZero.string_of_int.
  destruct (Z.to_int z) as [d|d].
  - destruct d; cbn; eexists _, _; (split; [reflexivity | discriminate]).
  - eexists _, _. split; [reflexivity | discriminate].
Qed.

Lemma plain_item_productId li :
  is_gummies_line li = false ->
  productId (plain_item li)
  = Js.String_of_id (Js.nullish (li_product_id li) (li_id li)).
Proof.
  intros H. unfold plain_item, line_step.
  unfold is_gummies_line, display_of, rawName_of in H. rewrite H.
  reflexivity.
Qed.

Lemma plain_key_not_gummies li :
  is_gummies_line li = false ->
  keyOf variant (plain_item li) <> GUMMIES_KEY variant /\
  forall it, exploded it -> keyOf variant (plain_item li) <> keyOf variant it.
Proof.
  intros H.
  destruct (bline_step_plain false ([], [], false) li H) as (_ & Hn & _).
  pose proof (plain_item_productId li H) as Hp.
  destruct (String_of_id_first (Js.nullish (li_product_id li) (li_id li)))
    as (c & s & Hs & Hc).
  unfold keyOf, GUMMIES_KEY. destruct variant.
  - rewrite Hn. split; [by apply display_not_gummies|].
    intros it (fv & pv & Hd & _). rewrite Hd. by apply display_not_exploded.
  - rewrite Hp, Hs. split; [intros [= -> _]; done|].
    intros it (fv & pv & _ & Hd & _). rewrite Hd. intros [= -> _]. done.
Qed.

(** The loop over the lines in the consolidated mode. *)
Lemma cons_fold lines : forall st,
  let r := fold_left (line_step false) lines st in
  r.1.1 = st.1.1 ++ (plain_item <$>
                     List.filter (fun li => negb (is_gummies_line li)) lines)
  /\ r.2 = st.2 || existsb is_gummies_line lines
  /\ (existsb is_gummies_line lines = false -> r.1.2 = st.1.2).
Proof.
  induction lines as [|li lines IH]; intros st; cbn [fold_left].
  - cbn. rewrite app_nil_r, orb_false_r. done.
  - cbn zeta in IH. destruct (IH (line_step false st li)) as (H1 & H2 & H3).
    cbn zeta. cbn [List.filter existsb].
    destruct (is_gummies_line li) eqn:Hg; cbn [negb orb].
    + assert ((line_step false st li).1.1 = st.1.1 /\
              (line_step false st li).2 = true) as [E1 E2].
      { unfold line_step. destruct st as [[ng set] saw].
        unfold is_gummies_line, display_of, rawName_of in Hg. rewrite Hg.
        split; reflexivity. }
      rewrite H1, H2, E1, E2.
      split; [reflexivity|]. split; [by rewrite orb_true_r|]. discriminate.
    + destruct (bline_step_plain false st li Hg) as (E & _ & _).
      rewrite E in *. cbn [fst snd] in *.
      rewrite H1, H2, fmap_cons, <- app_assoc.
      split; [reflexivity|]. split; [reflexivity|]. exact H3.
Qed.

(** The loop over the lines in the exploded mode. *)
Lemma expl_fold lines : forall st,
  exists X,
    (fold_left (line_step true) lines st).1.1 = st.1.1 ++ X /\
    Forall (fun it =>
              (exists li, li ∈ lines /\ is_gummies_line li = false /\
                          it = plain_item li) \/
              ((exists li, li ∈ lines /\ is_gummies_line li = true) /\
               exploded it)) X /\
    (forall li, li ∈ lines -> is_gummies_line li = true ->
                exists it, it ∈ X /\ exploded it).
Proof.
  induction lines as [|li lines IH]; intros st; cbn [fold_left].
  - exists []. rewrite app_nil_r. split; [reflexivity|].
    split; [constructor|]. intros li Hli. inversion Hli.
  - destruct (IH (line_step true st li)) as (X & E & HX & Hcov).
    destruct (is_gummies_line li) eqn:Hg.
    + assert (exists P, (line_step true st li).1.1 = st.1.1 ++ P /\
                        P <> [] /\ Forall exploded P) as (P & EP & HP & HPa).
      { unfold line_step. destruct st as [[ng set] saw].
        unfold is_gummies_line, display_of, rawName_of in Hg. rewrite Hg.
        cbn [fst snd].
        match goal with
        | |- context [0 <? length ?s] => destruct s as [|f fs] eqn:Es
        end; cbn [length Nat.ltb Nat.leb].
        - eexists. split; [reflexivity|]. split; [discriminate|].
          repeat constructor. by exists "Unspecified", "unspecified".
        - eexists. split; [reflexivity|]. split; [discriminate|].
          apply Forall_fmap, Forall_forall. intros fv _. by exists fv, fv. }
      exists (P ++ X). rewrite E, EP, <- app_assoc. split; [reflexivity|].
      split.
      * apply Forall_app. split.
        -- eapply Forall_impl; [exact HPa|]. intros it Hit. right.
           split; [|exact Hit]. exists li. split; [left | exact Hg].
        -- eapply Forall_impl; [exact HX|].
           intros it [(l' & Hl' & Hg' & ->)|[(l' & Hl' & Hg') Hit]].
           ++ left. exists l'. split; [by right | done].
           ++ right. split; [|exact Hit]. exists l'. split; [by right|done].
      * intros l' [->|Hl']%elem_of_cons Hg'.
        -- destruct P as [|p P]; [done|]. exists p. split; [left|].
           by apply Forall_cons in HPa as [? _].
        -- destruct (Hcov l' Hl' Hg') as (it & Hit & He).
           exists it. split; [|exact He]. apply elem_of_app. by right.
    + destruct (bline_step_plain true st li Hg) as (EP & _ & _).
      exists (plain_item li :: X). rewrite E, EP. cbn [fst].
      rewrite <- app_assoc.
      split; [reflexivity|]. split.
      * constructor.
        -- left. exists li. split; [left | done].
        -- eapply Forall_impl; [exact HX|].
           intros it [(l' & Hl' & Hg' & ->)|[(l' & Hl' & Hg') Hit]].
           ++ left. exists l'. split; [by right | done].
           ++ right. split; [|exact Hit]. exists l'. split; [by right|done].
      * intros l' [->|Hl']%elem_of_cons Hg'; [congruence|].
        destruct (Hcov l' Hl' Hg') as (it & Hit & He).
        exists it. split; [by right | exact He].
Qed.

Abbreviation keyed_items :=
  (fun m : list (string * BItem) =>
     NoDup (fst <$> m) /\ Forall (fun e => keyOf variant e.2 = e.1) m).

Lemma set_new {V : Type} (m : list (string * V)) k v :
  JsMap.get m k = None -> JsMap.set m k v = m ++ [(k, v)].
Proof.
  induction m as [|[k' v'] m IH]; [reflexivity|].
  cbn [JsMap.get JsMap.set]. destruct (String.eqb k' k); [discriminate|].
  intros H. by rewrite IH.
Qed.

(** The dedupe loop of the exploded mode keeps what it holds, adds items
    of the list only, and ends with an item for each key of the list. *)
Lemma seen2_fold_spec items : forall m,
  keyed_items m ->
  let r := fold_left (seen2_step variant) items m in
  keyed_items r /\
  (forall e, e ∈ r -> e ∈ m \/ e.2 ∈ items) /\
  (forall e, e ∈ m -> e ∈ r) /\
  (forall it, it ∈ items -> exists e, e ∈ r /\ e.1 = keyOf variant it).
Proof.
  induction items as [|it items IH]; intros m Hm; cbn zeta; cbn [fold_left].
  - split; [exact Hm|]. split; [by left|]. split; [done|].
    intros it Hit. inversion Hit.
  - assert (keyed_items (seen2_step variant m it) /\
            (forall e, e ∈ seen2_step variant m it -> e ∈ m \/ e.2 = it) /\
            (forall e, e ∈ m -> e ∈ seen2_step variant m it) /\
            exists e, e ∈ seen2_step variant m it /\ e.1 = keyOf variant it)
      as (Hk & Hfrom & Hkeep & Hrep).
    { unfold seen2_step, JsMap.has.
      destruct (JsMap.get m (keyOf variant it)) as [v|] eqn:Hget.
      - split; [exact Hm|]. split; [by left|]. split; [done|].
        exists (keyOf variant it, v). split; [by apply get_elem_of | done].
      - rewrite set_new by exact Hget. destruct Hm as [Hnd Hkey].
        split; [split|split; [|split]].
        + rewrite fmap_app. apply NoDup_app. split; [exact Hnd|].
          split; [|apply NoDup_singleton].
          intros k Hk [= ->]%list_elem_of_singleton.
          by apply get_None_keys in Hget.
        + apply Forall_app. split; [exact Hkey|]. by repeat constructor.
        + intros e [He| ->%list_elem_of_singleton]%elem_of_app;
            [by left | by right].
        + intros e He. apply elem_of_app. by left.
        + eexists. split; [apply elem_of_app; right; left | reflexivity]. }
    destruct (IH _ Hk) as (Hk' & Hfrom' & Hkeep' & Hrep'). cbn zeta in *.
    split; [exact Hk'|]. split; [|split].
    + intros e He. destruct (Hfrom' e He) as [H|H]; [|right; by right].
      destruct (Hfrom e H) as [H'|H']; [by left|]. right. rewrite H'. left.
    + intros e He. by apply Hkeep', Hkeep.
    + intros it' [->|Hit']%elem_of_cons; [|by apply Hrep'].
      destruct Hrep as (e & He & Hek). exists e. split; [by apply Hkeep'|done].
Qed.

(** On items without flavours the two dedupe loops agree. *)
Lemma seen_fold_plain items : forall m,
  Forall (fun it => flavors it = None) items ->
  Forall (fun e : string * BItem => flavors e.2 = None) m ->
  fold_left (seen_step variant) items m
  = fold_left (seen2_step variant) items m.
Proof.
  induction items as [|it items IH]; intros m Hit Hm; [reflexivity|].
  apply Forall_cons in Hit as [Hf Hit]. cbn [fold_left].
  assert (seen_step variant m it = seen2_step variant m it) as E.
  { unfold seen_step, seen2_step, JsMap.has.
    destruct (JsMap.get m (keyOf variant it)) as [ex|] eqn:Hget;
      [|reflexivity].
    apply get_elem_of in Hget.
    pose proof (proj1 (Forall_forall _ _) Hm _ Hget) as Hex.
    cbn [snd] in Hex. rewrite Hex. reflexivity. }
  rewrite E. apply IH; [exact Hit|].
  unfold seen2_step, JsMap.has.
  destruct (JsMap.get m (keyOf variant it)); [exact Hm|].
  by apply set_Forall.
Qed.

Lemma values_elem (m : list (string * BItem)) (it : BItem) :
  it ∈ JsMap.values m <-> exists e, e ∈ m /\ e.2 = it.
Proof.
  unfold JsMap.values. rewrite list_elem_of_fmap.
  split; intros (e & H1 & H2); exists e; done.
Qed.

Lemma gummies_name_neq (fv : string) : "Gummies(" +:+ fv +:+ ")" <> "Gummies".
Proof. rewrite !app_String. discriminate. Qed.

(** X20: the gummies of an order in the consolidated mode.  The items of
    an order hold exactly one item named Gummies when one of its lines is
    a gummies line, and none otherwise; this item has the product id
    [gummies] and a list of flavours that is not empty; every other item
    is the item of a line that is not a gummies line. *)
Theorem gummies_consolidated (order : Order) :
  let items := extractLineItems variant false order in
  length (List.filter (fun it => String.eqb (displayName it) "Gummies") items)
  = (if existsb is_gummies_line (o_line_items order) then 1 else 0) /\
  (forall it, it ∈ items -> displayName it = "Gummies" ->
     productId it = "gummies" /\
     exists fl, flavors it = Some fl /\ fl <> []) /\
  (forall it, it ∈ items -> displayName it <> "Gummies" ->
     exists li, li ∈ o_line_items order /\ is_gummies_line li = false /\
                it = plain_item li).
Proof.
  cbv zeta. unfold extractLineItems. cbn [negb].
  destruct (cons_fold (o_line_items order) ([], [], false))
    as (Hng & Hsaw & Hset). cbn zeta in *. cbn [fst snd app orb] in *.
  destruct (fold_left (line_step false) (o_line_items order) ([], [], false))
    as [[ng set] saw]. cbn [fst snd] in *. subst ng saw.
  set (keep := List.filter (fun li => negb (is_gummies_line li))
                           (o_line_items order)) in *.
  assert (forall it, it ∈ plain_item <$> keep ->
            exists li, li ∈ o_line_items order /\
                       is_gummies_line li = false /\ it = plain_item li)
    as Hplain.
  { intros it (li & -> & Hli)%list_elem_of_fmap.
    apply elem_of_filter_bool in Hli as [Hli Hg%negb_true_iff].
    by exists li. }
  assert (Forall (fun it => flavors it = None) (plain_item <$> keep)) as Hfl.
  { apply Forall_forall. intros it (li & Hli & Hg & ->)%Hplain.
    by destruct (bline_step_plain false ([], [], false) li Hg) as (_ & _ & ?). }
  assert (keyed_items []) as H0 by (split; constructor).
  destruct (seen2_fold_spec (plain_item <$> keep) [] H0)
    as (Hk & Hfrom & _ & _). cbn zeta in *.
  set (m := fold_left (seen2_step variant) (plain_item <$> keep) []) in *.
  assert (forall it, it ∈ JsMap.values m ->
            exists li, li ∈ o_line_items order /\
                       is_gummies_line li = false /\ it = plain_item li)
    as Hm.
  { intros it (e & He & <-)%values_elem.
    destruct (Hfrom e He) as [H|H]; [inversion H | by apply Hplain]. }
  assert (forall it, it ∈ JsMap.values m -> displayName it <> "Gummies")
    as Hnot.
  { intros it (li & _ & Hg & ->)%Hm.
    destruct (bline_step_plain false ([], [], false) li Hg) as (_ & -> & _).
    by apply display_not_gummies. }
  assert (List.filter (fun it => String.eqb (displayName it) "Gummies")
                      (JsMap.values m) = []) as Hnone.
  { destruct (List.filter _ (JsMap.values m)) as [|x l] eqn:E; [done|].
    assert (x ∈ x :: l) as Hx by left. rewrite <- E in Hx.
    apply elem_of_filter_bool in Hx as [Hx Hd%String.eqb_eq].
    by apply Hnot in Hx. }
  assert (forall fl,
            fold_left (seen_step variant)
              ((plain_item <$> keep)
               ++ [mkBItem "gummies" "Gummies" "Gummies" "0" "" (Some fl)]) []
            = m ++ [(GUMMIES_KEY variant,
                     mkBItem "gummies" "Gummies" "Gummies" "0" "" (Some fl))])
    as Hlast.
  { intros fl. rewrite fold_left_app.
    rewrite (seen_fold_plain _ [] Hfl (Forall_nil_2 _)). fold m.
    cbn [fold_left]. unfold seen_step.
    assert (keyOf variant (mkBItem "gummies" "Gummies" "Gummies" "0" ""
                                   (Some fl)) = GUMMIES_KEY variant) as ->
      by (unfold keyOf, GUMMIES_KEY; by destruct variant).
    assert (JsMap.get m (GUMMIES_KEY variant) = None) as Hget.
    { apply get_None_keys. intros (e & Hek & He)%list_elem_of_fmap.
      destruct Hk as [_ Hkey].
      pose proof (proj1 (Forall_forall _ _) Hkey _ He) as Hke.
      destruct (Hfrom e He) as [H|H]; [inversion H|].
      apply Hplain in H as (li & _ & Hg & Hit).
      destruct (plain_key_not_gummies li Hg) as [Hne _].
      congruence. }
    rewrite Hget. by apply set_new. }
  assert (fold_left (seen_step variant) (plain_item <$> keep) [] = m) as Hno
    by apply (seen_fold_plain _ [] Hfl (Forall_nil_2 _)).
  destruct (existsb is_gummies_line (o_line_items order)) eqn:Hex.
  - assert (exists fl, fl <> [] /\
              JsMap.values
                (fold_left (seen_step variant)
                   (if 0 <? length set
                    then (plain_item <$> keep)
                         ++ [mkBItem "gummies" "Gummies" "Gummies" "0" ""
                                     (Some set)]
                    else (plain_item <$> keep)
                         ++ [mkBItem "gummies" "Gummies" "Gummies" "0" ""
                                     (Some ["Unspecified"])]) [])
              = JsMap.values m
                ++ [mkBItem "gummies" "Gummies" "Gummies" "0" "" (Some fl)])
      as (fl & Hfl' & ->).
    { destruct set as [|f fs]; cbn [length Nat.ltb Nat.leb].
      - exists ["Unspecified"]. split; [done|].
        rewrite Hlast. unfold JsMap.values. by rewrite fmap_app.
      - exists (f :: fs). split; [done|].
        rewrite Hlast. unfold JsMap.values. by rewrite fmap_app. }
    split; [|split].
    + rewrite List.filter_app, Hnone. reflexivity.
    + intros it [Hit| ->%list_elem_of_singleton]%elem_of_app Hd.
      * by apply Hnot in Hit.
      * split; [reflexivity|]. by exists fl.
    + intros it [Hit| ->%list_elem_of_singleton]%elem_of_app Hd.
      * by apply Hm.
      * done.
  - rewrite (Hset eq_refl). cbn [length Nat.ltb Nat.leb]. rewrite Hno.
    split; [by rewrite Hnone|]. split.
    + intros it Hit Hd. by apply Hnot in Hit.
    + intros it Hit _. by apply Hm.
Qed.

(** X21: the gummies of an order in the exploded mode.  No item is named
    Gummies; an item is either the item of a line that is not a gummies
    line or an item named Gummies(flavour), without a list of flavours,
    and the order has an item of the second kind exactly when one of its
    lines is a gummies line. *)
Theorem gummies_exploded (order : Order) :
  let items := extractLineItems variant true order in
  (forall it, it ∈ items -> displayName it <> "Gummies") /\
  (forall it, it ∈ items ->
     (exists li, li ∈ o_line_items order /\ is_gummies_line li = false /\
                 it = plain_item li) \/
     (exists fv, displayName it = "Gummies(" +:+ fv +:+ ")" /\
                 flavors it = None)) /\
  (existsb is_gummies_line (o_line_items order) = true
   <-> exists it fv, it ∈ items /\
                     displayName it = "Gummies(" +:+ fv +:+ ")").
Proof.
  cbv zeta. unfold extractLineItems. cbn [negb].
  destruct (expl_fold (o_line_items order) ([], [], false))
    as (X & HX & Hall & Hcov). cbn [fst snd app] in HX.
  destruct (fold_left (line_step true) (o_line_items order) ([], [], false))
    as [[ng set] saw]. cbn [fst snd] in *. subst ng.
  assert (keyed_items []) as H0 by (split; constructor).
  destruct (seen2_fold_spec X [] H0) as (Hk & Hfrom & _ & Hrep).
  cbn zeta in *.
  set (m := fold_left (seen2_step variant) X []) in *.
  assert (forall it, it ∈ JsMap.values m -> it ∈ X) as Hsub.
  { intros it (e & He & <-)%values_elem.
    destruct (Hfrom e He) as [H|H]; [inversion H | exact H]. }
  assert (forall it, it ∈ JsMap.values m ->
            (exists li, li ∈ o_line_items order /\
                        is_gummies_line li = false /\ it = plain_item li) \/
            ((exists li, li ∈ o_line_items order /\
                         is_gummies_line li = true) /\ exploded it))
    as Hkind.
  { intros it Hit%Hsub. exact (proj1 (Forall_forall _ _) Hall _ Hit). }
  split; [|split; [|split]].
  - intros it [(li & _ & Hg & ->)|[_ (fv & pv & Hd & _)]]%Hkind.
    + destruct (bline_step_plain false ([], [], false) li Hg) as (_ & -> & _).
      by apply display_not_gummies.
    + rewrite Hd. apply gummies_name_neq.
  - intros it [H|[_ (fv & pv & Hd & _ & Hf)]]%Hkind; [by left|].
    right. by exists fv.
  - intros Hex. apply existsb_exists in Hex as (li & Hli%list_elem_of_In & Hg).
    destruct (Hcov li Hli Hg) as (it0 & Hit0 & He0).
    destruct (Hrep it0 Hit0) as (e & He & Hek).
    destruct Hk as [_ Hkey].
    pose proof (proj1 (Forall_forall _ _) Hkey _ He) as Hke.
    assert (e.2 ∈ JsMap.values m) as Hv by (apply values_elem; by exists e).
    destruct (Hkind _ Hv) as [(l' & _ & Hg' & Hit)|[_ (fv & pv & Hd & _)]].
    + exfalso. destruct (plain_key_not_gummies l' Hg') as [_ Hne].
      apply (Hne it0 He0). congruence.
    + by exists e.2, fv.
  - intros (it & fv & Hit & Hd).
    destruct (Hkind _ Hit) as [(li & _ & Hg & ->)|[(li & Hli & Hg) _]].
    + exfalso.
      destruct (bline_step_plain false ([], [], false) li Hg) as (_ & Hn & _).
      rewrite Hn in Hd. by apply display_not_exploded in Hd.
    + apply existsb_exists. exists li. split; [by apply list_elem_of_In|done].
Qed.

End GummiesFacts.

(** ** More data *)

Section MoreData.

Lemma filter_length_sublist {T : Type} (f : T -> bool) (l l' : list T) :
  l `sublist_of` l' -> length (List.filter f l) <= length (List.filter f l').
Proof.
  induction 1 as [|x l l' _ IH|x l l' _ IH]; cbn [List.filter];
    [reflexivity| |]; destruct (f x); cbn [length]; lia.
Qed.

Lemma filter_sublist_mono {T : Type} (f : T -> bool) (l l' : list T) :
  l `sublist_of` l' -> List.filter f l `sublist_of` List.filter f l'.
Proof.
  induction 1 as [|x l l' _ IH|x l l' _ IH]; cbn [List.filter];
    [constructor| |]; destruct (f x); try done; by constructor.
Qed.

Lemma sum_fmap_sublist {T : Type} (g : T -> nat) (l l' : list T) :
  l `sublist_of` l' -> sum_list (g <$> l) <= sum_list (g <$> l').
Proof.
  induction 1 as [|x l l' _ IH|x l l' _ IH]; [reflexivity| |].
  - change (g x + sum_list (g <$> l) <= g x + sum_list (g <$> l')). lia.
  - change (sum_list (g <$> l) <= g x + sum_list (g <$> l')). lia.
Qed.

(** X22: more data never lowers a count.  When orders are added to the
    dataset, anywhere in it, no item count and no pair count of the pairs
    page gets smaller, nor does the number of its eligible orders, and no
    count of the bundle pages gets smaller. *)
Theorem counts_grow_with_data
        (Date_parse : string -> option Z) (fromIso toIso : option string)
        (localeCompare : string -> string -> comparison)
        (variant : Bundles.Variant) (explodeGummies : bool) (maxSize : nat)
        (orders orders' : list Order) :
  orders `sublist_of` orders' ->
  let c := Pairs.aggregate Date_parse orders fromIso toIso in
  let c' := Pairs.aggregate Date_parse orders' fromIso toIso in
  (forall k, Pairs.count_of (Pairs.itemCounts c) (Some k)
             <= Pairs.count_of (Pairs.itemCounts c') (Some k)) /\
  (forall pk, default 0 (JsMap.get (Pairs.pairCounts c) pk)
              <= default 0 (JsMap.get (Pairs.pairCounts c') pk)) /\
  length (Pairs.eligible Date_parse orders fromIso toIso)
  <= length (Pairs.eligible Date_parse orders' fromIso toIso) /\
  (forall s key,
     count_at (Bundles.build_maps localeCompare variant explodeGummies
                                  maxSize orders) s key
     <= count_at (Bundles.build_maps localeCompare variant explodeGummies
                                     maxSize orders') s key).
Proof.
  intros Hsub. cbv zeta.
  assert (forall ks, orders_with Date_parse orders fromIso toIso ks
                     <= orders_with Date_parse orders' fromIso toIso ks)
    as Hw.
  { intros ks. unfold orders_with, Pairs.eligible.
    by apply filter_length_sublist, filter_sublist_mono. }
  split; [|split; [|split]].
  - intros k. cbn. rewrite !item_count_value. apply Hw.
  - intros pk.
    destruct (JsMap.get (Pairs.pairCounts
                           (Pairs.aggregate Date_parse orders fromIso toIso))
                        pk) as [n|] eqn:Hget; [|cbn; lia].
    destruct (counts_wf_aggregate Date_parse orders fromIso toIso)
      as (_ & Hp & _).
    pose proof (proj1 (Forall_forall _ _) Hp _ (get_elem_of _ _ _ Hget))
      as (a & b & Hpk & Ha & Hb & Hlt & _).
    cbn [fst snd] in *. subst pk. rewrite <- Hget.
    rewrite !pair_count_value by done. apply Hw.
  - unfold Pairs.eligible. by apply filter_length_sublist.
  - intros s key. rewrite !count_at_hits, !hits_flat_map.
    by apply sum_fmap_sublist.
Qed.

End MoreData.

Lemma counts_grow_with_data_witness :
  count_at (Bundles.build_maps String.compare Bundles.ByDisplayName false 7
              [Demo.order_X]) 1 "X"
  <= count_at (Bundles.build_maps String.compare Bundles.ByDisplayName false 7
                 [Demo.order_XY; Demo.order_X]) 1 "X".
Proof.
  apply (counts_grow_with_data Demo.Date_parse None None String.compare
           Bundles.ByDisplayName false 7
           [Demo.order_X] [Demo.order_XY; Demo.order_X]).
  apply sublist_cons, sublist_skip, sublist_nil.
Defined.

(** ** The items of an order in the pairs page *)

Section PairsItems.
Import Pairs.

Lemma pairs_line_cases li :
  (sold li = true /\ names_gummies li = false /\
   exists lbl, lbl <> "" /\
     line_step ([], false) li = ([mkItem (product_key li) lbl], false)) \/
  (sold li = true /\ names_gummies li = true /\
   line_step ([], false) li = ([], true)) \/
  (sold li = false /\ line_step ([], false) li = ([], false)).
Proof.
  unfold sold, names_gummies, line_step, product_key. cbn [fst snd].
  destruct (Num.le (Num.or_zero (li_quantity li)) Num.zero);
    [right; right; done|].
  destruct (Num.le _ Num.zero); [right; right; done|].
  cbn [negb andb].
  destruct (existsb _ GUMMIES_KEYWORDS); [right; left; done|].
  left. split; [done|]. split; [done|].
  eexists. split; [|reflexivity].
  unfold Js.str_or.
  destruct (Js.nonempty (if Js.nonempty _ then _ else _)) eqn:E.
  - intros H. rewrite H in E. discriminate.
  - rewrite app_String. discriminate.
Qed.

Lemma product_key_not_gummies li : product_key li <> "gummies::consolidated".
Proof.
  unfold product_key.
  destruct (String_of_id_first (Js.nullish (li_product_id li) (li_id li)))
    as (c & s & -> & Hc).
  rewrite app_String. intros [= -> _]. done.
Qed.

Lemma uniq_fold_from items : forall m e,
  e ∈ fold_left uniq_step items m -> e ∈ m \/ e.2 ∈ items.
Proof.
  induction items as [|it items IH]; intros m e He; [by left|].
  cbn [fold_left] in He. apply IH in He as [He|He]; [|right; by right].
  unfold uniq_step, JsMap.has in He.
  destruct (JsMap.get m (key it)) eqn:Hget; [by left|].
  rewrite set_new in He by exact Hget.
  apply elem_of_app in He as [He| ->%list_elem_of_singleton]; [by left|].
  right. left.
Qed.

(** An item of an order is the gummies item or the item of a line that
    counts and does not name gummies. *)
Lemma pairs_item_kinds (order : Order) (it : Item) :
  it ∈ extractItemsForOrder order ->
  it = mkItem "gummies::consolidated" "Gummies" \/
  exists li lbl, li ∈ o_line_items order /\ sold li = true /\
                 names_gummies li = false /\ lbl <> "" /\
                 it = mkItem (product_key li) lbl.
Proof.
  rewrite extract_unfold. unfold JsMap.values.
  intros (e & -> & He)%list_elem_of_fmap.
  apply uniq_fold_from in He as [He|He]; [inversion He|].
  assert (e.2 ∈ flat_map
                   (fun li => (line_step ([], false) li).1)
                   (o_line_items order) ->
          exists li lbl, li ∈ o_line_items order /\ sold li = true /\
                         names_gummies li = false /\ lbl <> "" /\
                         e.2 = mkItem (product_key li) lbl) as Hflat.
  { intros (li & Hli%list_elem_of_In & Hin)%list_elem_of_In%in_flat_map.
    destruct (pairs_line_cases li)
      as [(Hs & Hg & lbl & Hl & E)|[(Hs & Hg & E)|(Hs & E)]];
      rewrite E in Hin; cbn [fst] in Hin; try done.
    destruct Hin as [<-|[]]. by exists li, lbl. }
  destruct (existsb _ (o_line_items order)).
  - apply elem_of_app in He as [He| ->%list_elem_of_singleton];
      [right; by apply Hflat | by left].
  - right. by apply Hflat.
Qed.

(** X23: the items of an order in the pairs page.  Their keys are
    distinct.  The consolidated gummies key is among them exactly when a
    line that counts (its quantity and its value are not zero or less)
    names gummies, and its label is then Gummies.  Every other item has the key [pid::vid]
    of such a line that does not name gummies, with a label that is not
    empty, and every such line has its key among the items. *)
Theorem pairs_items_meaning (order : Order) :
  let items := extractItemsForOrder order in
  NoDup (key <$> items) /\
  ("gummies::consolidated" ∈ key <$> items
   <-> exists li, li ∈ o_line_items order /\
                  sold li = true /\ names_gummies li = true) /\
  (forall it, it ∈ items -> key it = "gummies::consolidated" ->
              label it = "Gummies") /\
  (forall it, it ∈ items -> key it <> "gummies::consolidated" ->
     exists li, li ∈ o_line_items order /\ sold li = true /\
                names_gummies li = false /\ key it = product_key li /\
                label it <> "") /\
  (forall li, li ∈ o_line_items order -> sold li = true ->
              names_gummies li = false ->
              product_key li ∈ key <$> items).
Proof.
  cbv zeta. destruct (extract_keys order) as (Hnd & Hkeys & _).
  assert (forall li k, line_key li = Some k <->
            (sold li = true /\ names_gummies li = false /\ k = product_key li)
            \/ (sold li = true /\ names_gummies li = true /\
                k = "gummies::consolidated")) as Hlk.
  { intros li k. unfold line_key.
    destruct (pairs_line_cases li)
      as [(Hs & Hg & lbl & _ & ->)|[(Hs & Hg & ->)|(Hs & ->)]];
      cbn [key]; split.
    - intros [= <-]. by left.
    - intros [(_ & _ & ->)|(_ & ? & _)]; [reflexivity | congruence].
    - intros [= <-]. by right.
    - intros [(_ & ? & _)|(_ & _ & ->)]; [congruence | reflexivity].
    - discriminate.
    - intros [(? & _)|(? & _)]; congruence. }
  pose proof (pairs_item_kinds order) as Hkind.
  split; [exact Hnd|]. split; [|split; [|split]].
  - rewrite Hkeys. split.
    + intros (li & Hli & [(_ & _ & Hk)|(Hs & Hg & _)]%Hlk).
      * symmetry in Hk. by apply product_key_not_gummies in Hk.
      * by exists li.
    + intros (li & Hli & Hs & Hg). exists li. split; [exact Hli|].
      apply Hlk. by right.
  - intros it [->|(li & lbl & _ & _ & _ & _ & ->)]%Hkind Hk; [reflexivity|].
    cbn [key] in Hk. by apply product_key_not_gummies in Hk.
  - intros it [->|(li & lbl & Hli & Hs & Hg & Hl & ->)]%Hkind Hk; [done|].
    by exists li.
  - intros li Hli Hs Hg. apply Hkeys. exists li. split; [exact Hli|].
    apply Hlk. by left.
Qed.

End PairsItems.

(** ** The merge of the order synchronisation *)

Section MergeFacts.
Import Sync.

Lemma map_ext {V : Type} (m : list (string * V)) : forall m',
  NoDup (fst <$> m) -> fst <$> m = fst <$> m' ->
  (forall k, JsMap.get m k = JsMap.get m' k) -> m = m'.
Proof.
  induction m as [|[k v] m IH]; intros [|[k' v'] m'] Hnd Hkeys Hget;
    try discriminate; [reflexivity|].
  rewrite !fmap_cons in Hkeys. cbn [fst] in Hkeys.
  injection Hkeys as <- Hkeys.
  apply NoDup_cons in Hnd as [Hk Hnd].
  pose proof (Hget k) as Hgk. cbn [JsMap.get] in Hgk.
  rewrite String.eqb_refl in Hgk. injection Hgk as <-.
  f_equal. apply IH; [exact Hnd | exact Hkeys|].
  intros x. destruct (String.eqb_spec k x) as [<-|Hne].
  - assert (JsMap.get m k = None) as -> by (by apply get_None_keys).
    symmetry. apply get_None_keys. by rewrite <- Hkeys.
  - specialize (Hget x). cbn [JsMap.get] in Hget.
    destruct (String.eqb_spec k x); [done | exact Hget].
Qed.

Lemma find_app_first {T : Type} (f : T -> bool) (l1 l2 : list T) :
  List.find f (l1 ++ l2)
  = match List.find f l1 with Some x => Some x | None => List.find f l2 end.
Proof.
  induction l1 as [|x l1 IH]; [reflexivity|].
  cbn [app List.find]. destruct (f x); [reflexivity | exact IH].
Qed.

(** The loops over the array of the file and over a page, with the
    order [g o] stored for an order [o] that passes the guard. *)
Abbreviation fill :=
  (fun (g : Order -> Order) (m : list (string * Order)) (l : list Entry) =>
     fold_left (fun m e => match guarded e with
                           | Some o => JsMap.set m (idKey o) (g o)
                           | None => m
                           end) l m).

(** The last order of [l] that passes the guard with the key [k]. *)
Abbreviation last_with :=
  (fun (k : string) (l : list Entry) =>
     List.find (fun raw => String.eqb (idKey raw) k) (rev (omap guarded l))).

Lemma fill_get g l : forall m k,
  JsMap.get (fill g m l) k
  = match last_with k l with
    | Some raw => Some (g raw)
    | None => JsMap.get m k
    end.
Proof.
  induction l as [|e l IH]; intros m k; [reflexivity|].
  cbn [fold_left]. rewrite IH.
  destruct e as [|o|o]; cbn [guarded]; try reflexivity.
  change (omap guarded (WithId o :: l)) with (o :: omap guarded l).
  cbn [rev]. rewrite find_app_first.
  destruct (List.find _ (rev (omap guarded l))); [reflexivity|].
  cbn [List.find]. destruct (String.eqb_spec (idKey o) k) as [<-|Hne].
  - apply get_set_eq.
  - by apply get_set_ne.
Qed.

Lemma add_page_get page m k :
  JsMap.get (add_page m page) k
  = match last_with k page with
    | Some raw => Some (simplifyOrder raw)
    | None => JsMap.get m k
    end.
Proof. apply (fill_get simplifyOrder). Qed.

Lemma load_existing_get arr k :
  JsMap.get (load_existing arr) k = last_with k arr.
Proof.
  unfold load_existing, load_step. rewrite (fill_get (fun o => o)).
  cbv beta. by destruct (List.find _ _).
Qed.

Lemma last_with_last k l1 raw l2 :
  idKey raw = k ->
  (forall raw', WithId raw' ∈ l2 -> idKey raw' <> k) ->
  last_with k (l1 ++ WithId raw :: l2) = Some raw.
Proof.
  intros Hk Hl2. cbv beta. rewrite omap_app.
  change (omap guarded (WithId raw :: l2)) with (raw :: omap guarded l2).
  rewrite rev_app_distr. cbn [rev]. rewrite <- app_assoc, find_app_first.
  destruct (List.find _ (rev (omap guarded l2))) as [raw'|] eqn:E.
  - exfalso. apply find_some in E as [Hin Hkey%String.eqb_eq].
    apply (Hl2 raw'); [|exact Hkey].
    apply in_rev, list_elem_of_In, list_elem_of_omap in Hin
      as (e & He & Hg).
    destruct e; try discriminate. injection Hg as ->. exact He.
  - cbn [app List.find]. by rewrite Hk, String.eqb_refl.
Qed.

Lemma last_with_None k l :
  (forall raw, WithId raw ∈ l -> idKey raw <> k) -> last_with k l = None.
Proof.
  intros Hl. destruct (last_with k l) as [raw|] eqn:E; [|reflexivity].
  exfalso. apply find_some in E as [Hin Hkey%String.eqb_eq].
  apply (Hl raw); [|exact Hkey].
  apply in_rev, list_elem_of_In, list_elem_of_omap in Hin as (e & He & Hg).
  destruct e; try discriminate. injection Hg as ->. exact He.
Qed.

Abbreviation by_id :=
  (fun m : list (string * Order) =>
     NoDup (fst <$> m) /\ Forall (fun e => idKey e.2 = e.1) m).

Lemma fill_wf g l :
  (forall o, idKey (g o) = idKey o) ->
  forall m, by_id m -> by_id (fill g m l).
Proof.
  intros Hg. induction l as [|e l IH]; intros m Hm; [exact Hm|].
  cbn [fold_left]. apply IH. destruct (guarded e) as [o|]; [|exact Hm].
  destruct Hm as [Hnd Hk].
  split; [by apply set_NoDup|]. apply set_Forall; [exact Hk | apply Hg].
Qed.

Lemma add_page_wf page m : by_id m -> by_id (add_page m page).
Proof. by apply (fill_wf simplifyOrder). Qed.

Lemma load_existing_wf arr : by_id (load_existing arr).
Proof. apply (fill_wf (fun o => o)); [done | split; constructor]. Qed.

Lemma fill_keys_old g l : forall m,
  (forall raw, WithId raw ∈ l -> is_Some (JsMap.get m (idKey raw))) ->
  fst <$> fill g m l = fst <$> m.
Proof.
  induction l as [|e l IH]; intros m Hm; [reflexivity|].
  cbn [fold_left]. rewrite IH.
  - destruct e as [|o|o]; cbn [guarded]; try reflexivity.
    apply set_keys_old, Hm. left.
  - intros raw Hraw. destruct e as [|o|o]; cbn [guarded];
      try (apply Hm; by right).
    destruct (String.eqb_spec (idKey o) (idKey raw)) as [<-|Hne].
    + rewrite get_set_eq. by eexists.
    + rewrite get_set_ne by exact Hne. apply Hm. by right.
Qed.

Lemma fill_skip g l1 e l2 m :
  guarded e = None -> fill g m (l1 ++ e :: l2) = fill g m (l1 ++ l2).
Proof.
  intros He. cbv beta. rewrite !fold_left_app. cbn [fold_left].
  by rewrite He.
Qed.

(** X24: the merge of the synchronisation.  After a page is added to the
    orders of the file, no two orders of the merged array have the same
    id.  An order of the page is stored as [simplifyOrder] gives it, and
    for an id that comes more than once the last order of the page wins;
    the same holds, without the simplification, for the array of the
    file.  An order of the file whose id is not in the page is kept, and
    an id met neither in the file nor in the page has no order.  An
    element without an id, in the file or in the page, is skipped.  The
    merged array holds the orders of the map and nothing else, and adding
    the same page again changes nothing. *)
Theorem sync_merge_dedupes (arr page : list Entry) :
  let file := load_existing arr in
  let m := add_page file page in
  NoDup (idKey <$> merged m) /\
  (forall l1 raw l2,
     page = l1 ++ WithId raw :: l2 ->
     (forall raw', WithId raw' ∈ l2 -> idKey raw' <> idKey raw) ->
     JsMap.get m (idKey raw) = Some (simplifyOrder raw)) /\
  (forall l1 o l2,
     arr = l1 ++ WithId o :: l2 ->
     (forall o', WithId o' ∈ l2 -> idKey o' <> idKey o) ->
     JsMap.get file (idKey o) = Some o) /\
  (forall k, (forall raw, WithId raw ∈ page -> idKey raw <> k) ->
             JsMap.get m k = JsMap.get file k) /\
  (forall k, (forall o, WithId o ∈ arr -> idKey o <> k) ->
             JsMap.get file k = None) /\
  (forall m0 l1 e l2, guarded e = None ->
     add_page m0 (l1 ++ e :: l2) = add_page m0 (l1 ++ l2) /\
     load_existing (l1 ++ e :: l2) = load_existing (l1 ++ l2)) /\
  (forall o, o ∈ merged m <-> JsMap.get m (idKey o) = Some o) /\
  add_page m page = m.
Proof.
  cbv zeta.
  destruct (add_page_wf page _ (load_existing_wf arr)) as [Hnd Hk].
  split; [|split; [|split; [|split; [|split; [|split; [|split]]]]]].
  - unfold merged, JsMap.values. rewrite <- list_fmap_compose.
    assert ((idKey ∘ snd) <$> add_page (load_existing arr) page
            = fst <$> add_page (load_existing arr) page) as ->; [|exact Hnd].
    apply Forall_fmap_ext. eapply Forall_impl; [exact Hk|]. by intros [k o].
  - intros l1 raw l2 -> Hl2.
    by rewrite add_page_get, (last_with_last _ l1 raw l2 eq_refl Hl2).
  - intros l1 o l2 -> Hl2.
    by rewrite load_existing_get, (last_with_last _ l1 o l2 eq_refl Hl2).
  - intros k Hk'. by rewrite add_page_get, last_with_None.
  - intros k Hk'. by rewrite load_existing_get, last_with_None.
  - intros m0 l1 e l2 He. split.
    + by apply (fill_skip simplifyOrder).
    + by apply (fill_skip (fun o => o)).
  - intros o. unfold merged, JsMap.values. rewrite list_elem_of_fmap. split.
    + intros ([k o'] & -> & He). cbn [snd].
      pose proof (proj1 (Forall_forall _ _) Hk _ He) as Hke.
      cbn [fst snd] in Hke. rewrite Hke. by apply elem_of_get.
    + intros Hget. exists (idKey o, o). split; [done|].
      by apply get_elem_of.
  - symmetry. apply map_ext; [exact Hnd| |].
    + symmetry. apply (fill_keys_old simplifyOrder). intros raw Hraw.
      apply list_elem_of_split in Hraw as (l1 & l2 & ->).
      rewrite add_page_get. cbv beta.
      destruct (List.find _ _) eqn:E; [by eexists|].
      exfalso. eapply find_none in E.
      * cbn in E. by rewrite String.eqb_refl in E.
      * apply in_rev. rewrite rev_involutive. apply list_elem_of_In.
        apply list_elem_of_omap. exists (WithId raw).
        split; [|reflexivity]. apply elem_of_app. right. left.
    + intros k. rewrite (add_page_get page (add_page _ _)). cbv beta.
      destruct (List.find _ _) as [raw|] eqn:E; [|reflexivity].
      rewrite add_page_get. cbv beta. by rewrite E.
Qed.

End MergeFacts.

Lemma sync_merge_dedupes_witness :
  let first := Demo.order 5 "pending" 10 0 None [] in
  let last := Demo.order 5 "completed" 10 0 None [] in
  JsMap.get
    (Sync.add_page (Sync.load_existing [Sync.WithId Demo.order_X])
       [Sync.WithId first; Sync.Falsy; Sync.WithId last;
        Sync.NoId Demo.order_XY])
    "5"
  = Some (Sync.simplifyOrder last).
Proof.
  intros first last.
  apply (proj1 (proj2 (sync_merge_dedupes
                         [Sync.WithId Demo.order_X]
                         [Sync.WithId first; Sync.Falsy; Sync.WithId last;
                          Sync.NoId Demo.order_XY]))
           [Sync.WithId first; Sync.Falsy] last [Sync.NoId Demo.order_XY]).
  - reflexivity.
  - intros raw' H. apply list_elem_of_singleton in H. discriminate.
Defined.

(** ** The label of a record in the second bundle page *)

Section LabelFacts.
Import Bundles.
Variable localeCompare : string -> string -> comparison.
Variable variant : Variant.
Variable explodeGummies : bool.

(** The label that the page keeps for the first turn of a key. *)
Abbreviation first_label :=
  (fun (s : nat) (key : string) (evs : list (Order * list BItem)) =>
     match variant with
     | ByDisplayName => None
     | ByProductId =>
         (fun e : Order * list BItem =>
            variantKey localeCompare e.2) <$> head (hits variant s key evs)
     end).

Abbreviation labelled :=
  (fun (maps : nat -> list (string * Rec))
       (evs : list (Order * list BItem)) =>
     forall s key rec, JsMap.get (maps s) key = Some rec ->
                       label rec = first_label s key evs).

Lemma labelled_step maps evs e :
  agrees variant maps evs -> labelled maps evs ->
  labelled (ev_step localeCompare variant maps e) (evs ++ [e]).
Proof.
  intros Hag Hlab s key rec.
  destruct (decide ((s, key) = (length e.2, bundleKey variant e.2)))
    as [[= -> ->]|Hne].
  - specialize (Hag (length e.2) (bundleKey variant e.2)).
    specialize (Hlab (length e.2) (bundleKey variant e.2)).
    rewrite hits_snoc, Nat.eqb_refl, String.eqb_refl. cbn [andb].
    unfold ev_step, comb_step, JsMap.has.
    destruct (JsMap.get (maps (length e.2)) (bundleKey variant e.2))
      as [old|] eqn:Hget.
    + rewrite Hget, upd_eq, get_set_eq. intros [= <-]. cbn [label].
      rewrite (Hlab old eq_refl). destruct Hag as (Hne & _ & _).
      destruct variant; [reflexivity|].
      destruct (hits ByProductId _ _ evs); [done | reflexivity].
    + rewrite get_set_eq, upd_eq, get_set_eq. intros [= <-]. cbn [label].
      rewrite Hag. unfold new_rec. destruct variant; reflexivity.
  - destruct (ev_step_get localeCompare variant maps e) as [_ Hother].
    rewrite Hother by exact Hne. intros Hget.
    rewrite (Hlab _ _ _ Hget), hits_snoc.
    assert ((length e.2 =? s) && String.eqb (bundleKey variant e.2) key
            = false) as ->.
    { apply andb_false_iff.
      destruct (Nat.eqb_spec (length e.2) s) as [<-|]; [|by left].
      right. apply String.eqb_neq. congruence. }
    by rewrite app_nil_r.
Qed.

Lemma labelled_fold evs' : forall maps evs,
  agrees variant maps evs -> labelled maps evs ->
  labelled (fold_left (ev_step localeCompare variant) evs' maps)
           (evs ++ evs').
Proof.
  induction evs' as [|e evs' IH]; intros maps evs Hag Hlab.
  - rewrite app_nil_r. exact Hlab.
  - cbn [fold_left].
    replace (evs ++ e :: evs') with ((evs ++ [e]) ++ evs')
      by (by rewrite <- app_assoc).
    apply IH; [by apply agrees_step | by apply labelled_step].
Qed.

Lemma labelled_build maxSize orders :
  labelled (build_maps localeCompare variant explodeGummies maxSize orders)
           (events localeCompare variant explodeGummies maxSize orders).
Proof.
  rewrite build_maps_events.
  apply (labelled_fold _ (fun _ => []) []).
  - intros s key. reflexivity.
  - intros s key rec [=].
Qed.

(** X25: the name of a bundle in the second page is first-seen.  The
    label of a record is the variant string of the first combination
    that reached its key, whatever the variants of the combinations
    counted after it; the first page keeps no label and names a bundle by
    its key. *)
Theorem bundle_label_first_seen (maxSize : nat) (orders : list Order)
        (s : nat) (key : string) (rec : Rec) :
  JsMap.get (build_maps localeCompare variant explodeGummies maxSize orders s)
            key = Some rec ->
  exists o c rest,
    hits variant s key
         (events localeCompare variant explodeGummies maxSize orders)
    = (o, c) :: rest /\
    label rec = match variant with
                | ByDisplayName => None
                | ByProductId => Some (variantKey localeCompare c)
                end /\
    r_bundle (row_of variant (key, rec))
    = match variant with
      | ByDisplayName => key
      | ByProductId => variantKey localeCompare c
      end.
Proof.
  intros Hget.
  pose proof (labelled_build maxSize orders s key rec Hget) as Hlab.
  pose proof (agrees_build localeCompare variant explodeGummies
                maxSize orders s key) as Hag.
  rewrite Hget in Hag. destruct Hag as (Hne & _ & _).
  destruct (hits variant s key _) as [|[o c] rest] eqn:E; [done|].
  exists o, c, rest. split; [reflexivity|].
  unfold row_of. destruct variant; rewrite ?E in Hlab;
    cbn [head fmap option_fmap option_map snd] in Hlab;
    (split; [exact Hlab|]); cbn [r_bundle snd fst]; rewrite ?Hlab;
    reflexivity.
Qed.

End LabelFacts.

Lemma bundle_label_first_seen_witness :
  exists rec,
    JsMap.get (Bundles.build_maps String.compare Bundles.ByProductId false
                 7 Demo.two_orders 1) "11" = Some rec /\
    Bundles.label rec = Some "Protein Bar".
Proof.
  eexists. split; [vm_compute; reflexivity|].
  destruct (bundle_label_first_seen String.compare Bundles.ByProductId false
              7 Demo.two_orders 1 "11" _ ltac:(vm_compute; reflexivity))
    as (o & c & rest & Hh & Hl & _).
  reflexivity.
Defined.

(** ** The labels of the pairs page *)

Section LabelShown.
Import Pairs PairsView.

Lemma fold_set_get {T V : Type} (kf : T -> string) (vf : T -> V)
      (l : list T) : forall (m : list (string * V)) k,
  JsMap.get (fold_left (fun m x => JsMap.set m (kf x) (vf x)) l m) k
  = match List.find (fun x => String.eqb (kf x) k) (rev l) with
    | Some x => Some (vf x)
    | None => JsMap.get m k
    end.
Proof.
  induction l as [|a l IH]; intros m k; [reflexivity|].
  cbn [fold_left rev]. rewrite IH, find_app_first.
  destruct (List.find _ (rev l)); [reflexivity|].
  cbn [List.find]. destruct (String.eqb_spec (kf a) k) as [<-|Hne].
  - apply get_set_eq.
  - by apply get_set_ne.
Qed.

Lemma fold_set_NoDup {T V : Type} (kf : T -> string) (vf : T -> V)
      (l : list T) : forall (m : list (string * V)),
  NoDup (fst <$> m) ->
  NoDup (fst <$> fold_left (fun m x => JsMap.set m (kf x) (vf x)) l m).
Proof.
  induction l as [|a l IH]; intros m Hm; [exact Hm|].
  cbn [fold_left]. by apply IH, set_NoDup.
Qed.

Abbreviation set_label :=
  (fun (p : list (string * string)) (it : Item) =>
     JsMap.set p (key it) (label it)).

Lemma item_fold_products items : forall c seen,
  products (fold_left item_step items (c, seen)).1
  = fold_left set_label items (products c).
Proof.
  induction items as [|it items IH]; intros c seen; [reflexivity|].
  cbn [fold_left item_step].
  destruct (existsb _ seen); rewrite IH; reflexivity.
Qed.

Lemma pair_fold_products pairs : forall c,
  products (fold_left pair_step pairs c) = products c.
Proof.
  induction pairs as [|ab pairs IH]; intros c; [reflexivity|].
  cbn [fold_left]. by rewrite IH.
Qed.

Lemma order_step_products c ord :
  products (order_step c ord)
  = fold_left set_label (extractItemsForOrder ord) (products c).
Proof.
  unfold order_step.
  destruct (extractItemsForOrder ord) as [|it items] eqn:E; [reflexivity|].
  cbn [length Nat.ltb Nat.leb].
  by rewrite pair_fold_products, item_fold_products.
Qed.

Lemma orders_fold_products os : forall c,
  products (fold_left order_step os c)
  = fold_left set_label (flat_map extractItemsForOrder os) (products c).
Proof.
  induction os as [|o os IH]; intros c; [reflexivity|].
  cbn [fold_left flat_map].
  by rewrite IH, order_step_products, fold_left_app.
Qed.

Lemma get_perm_eq {V : Type} (m m' : list (string * V)) (k : string) :
  NoDup (fst <$> m) -> m ≡ₚ m' -> JsMap.get m k = JsMap.get m' k.
Proof.
  intros Hnd Hperm.
  assert (NoDup (fst <$> m')) as Hnd' by (by rewrite <- Hperm).
  destruct (JsMap.get m k) as [v|] eqn:Hget.
  - symmetry. apply elem_of_get; [exact Hnd'|].
    rewrite <- Hperm. by apply get_elem_of.
  - symmetry. apply get_None_keys. rewrite <- Hperm.
    by apply get_None_keys.
Qed.

Lemma filter_length_pos {T : Type} (f : T -> bool) (l : list T) (x : T) :
  x ∈ l -> f x = true -> 1 <= length (List.filter f l).
Proof.
  intros Hin Hf.
  assert (x ∈ List.filter f l) as H by (by apply elem_of_filter_bool).
  destruct (List.filter f l); [inversion H | cbn; lia].
Qed.

(** X26: the label shown for a product.  The label that the page shows
    for a key is the label of the last item with this key among the items
    of the eligible orders, which is not empty; a key that no eligible
    order resolves has no item count and is shown as itself. *)
Theorem label_last_wins (localeCompare : string -> string -> comparison)
        (Date_parse : string -> option Z) (orders : list Order)
        (fromIso toIso : option string) (k : string) :
  let c := aggregate Date_parse orders fromIso toIso in
  let pbk := productsByKey localeCompare (products c) in
  match List.find (fun it => String.eqb (key it) k)
                  (rev (resolved_items Date_parse orders fromIso toIso)) with
  | Some it =>
      JsMap.has (itemCounts c) k = true /\
      labelFor pbk k = label it /\ label it <> ""
  | None =>
      JsMap.has (itemCounts c) k = false /\ labelFor pbk k = k
  end.
Proof.
  cbv zeta. unfold resolved_items.
  set (os := eligible Date_parse orders fromIso toIso).
  assert (products (aggregate Date_parse orders fromIso toIso)
          = fold_left set_label (flat_map extractItemsForOrder os) [])
    as Hprod by apply (orders_fold_products os (mkCounts [] [] [])).
  assert (JsMap.get (productsByKey localeCompare
                       (products (aggregate Date_parse orders fromIso toIso)))
                    k
          = match List.find (fun it => String.eqb (key it) k)
                            (rev (flat_map extractItemsForOrder os)) with
            | Some it => Some (label it)
            | None => None
            end) as Hget.
  { unfold productsByKey, JsMap.entries. rewrite Hprod.
    set (p := fold_left set_label (flat_map extractItemsForOrder os) []).
    assert (NoDup (fst <$> p)) as Hnd
      by (apply fold_set_NoDup; constructor).
    rewrite <- (get_perm_eq p _ k Hnd (symmetry (sort_perm _ p))).
    apply (fold_set_get key label). }
  assert (forall it, it ∈ flat_map extractItemsForOrder os ->
            exists o, o ∈ os /\ it ∈ extractItemsForOrder o) as Hfrom.
  { intros it (o & Ho & Hit)%list_elem_of_In%in_flat_map.
    exists o. split; by apply list_elem_of_In. }
  unfold labelFor, label_or. cbn [default from_option id]. rewrite Hget.
  destruct (List.find _ (rev (flat_map extractItemsForOrder os)))
    as [it|] eqn:E.
  - apply find_some in E as [Hin%in_rev%list_elem_of_In Hk%String.eqb_eq].
    destruct (Hfrom it Hin) as (o & Ho & Hit).
    assert (label it <> "") as Hl.
    { destruct (pairs_item_kinds o it Hit)
        as [->|(li & lbl & _ & _ & _ & Hl & ->)]; [discriminate | exact Hl]. }
    split; [|split; [|exact Hl]].
    + apply item_count_present. unfold orders_with. fold os.
      apply (filter_length_pos _ _ o Ho). cbn [forallb].
      rewrite andb_true_r. apply resolves_to_spec.
      apply list_elem_of_fmap. by exists it.
    + destruct (label it); [done | reflexivity].
  - split; [|reflexivity].
    destruct (JsMap.has _ k) eqn:Hhas; [|reflexivity]. exfalso.
    apply item_count_present in Hhas. unfold orders_with in Hhas.
    fold os in Hhas.
    destruct (List.filter _ os) as [|o l] eqn:Ef; [cbn in Hhas; lia|].
    assert (o ∈ List.filter (fun o => forallb (resolves_to o) [k]) os) as Ho
      by (rewrite Ef; left).
    apply elem_of_filter_bool in Ho as [Ho Hr]. cbn [forallb] in Hr.
    rewrite andb_true_r in Hr.
    apply resolves_to_spec, list_elem_of_fmap in Hr as (it & -> & Hit).
    eapply find_none in E.
    2: { apply in_rev. rewrite rev_involutive. apply in_flat_map.
         exists o. split; by apply list_elem_of_In. }
    cbn in E. by rewrite String.eqb_refl in E.
Qed.

End LabelShown.

Section EligibilityNesting.
Import Pairs.

(** X27: the orders of the pairs page are orders of the bundle pages.  An
    order that the pairs page takes as eligible is accepted by both
    bundle pages, so that the pairs page never counts more orders than
    they do. *)
Theorem pairs_eligible_is_accepted
        (Date_parse : string -> option Z) (orders : list Order)
        (fromIso toIso : option string) (variant : Bundles.Variant) :
  (forall o, isOrderEligible Date_parse o fromIso toIso = true ->
             Bundles.is_eligible variant o = true) /\
  length (eligible Date_parse orders fromIso toIso)
  <= Bundles.totalEligibleOrders variant orders.
Proof.
  assert (forall o, isOrderEligible Date_parse o fromIso toIso = true ->
                    Bundles.is_eligible variant o = true) as H.
  { intros o. unfold isOrderEligible, Bundles.is_eligible, Bundles.status_ok.
    destruct (String.eqb_spec (Js.toLowerCase (Js.or_empty (o_status o)))
                              "completed") as [->|]; [|discriminate].
    intros _. by destruct variant. }
  split; [exact H|].
  rewrite totalEligibleOrders_filter. unfold eligible.
  induction orders as [|o os IH]; [reflexivity|]. cbn [List.filter].
  destruct (isOrderEligible Date_parse o fromIso toIso) eqn:E.
  - rewrite (H o E). cbn [length]. lia.
  - destruct (Bundles.is_eligible variant o); cbn [length]; lia.
Qed.

End EligibilityNesting.

(** ** The variant counts of a record *)

Section VariantFacts.
Import Bundles.
Variable localeCompare : string -> string -> comparison.
Variable variant : Variant.
Variable explodeGummies : bool.

(** The turns of [evs] that reached the key with the variant string
    [vk]. *)
Abbreviation variant_hits :=
  (fun (s : nat) (key vk : string) (evs : list (Order * list BItem)) =>
     List.filter (fun e : Order * list BItem =>
                    String.eqb (variantKey localeCompare e.2) vk)
                 (hits variant s key evs)).

Abbreviation tallied :=
  (fun (maps : nat -> list (string * Rec))
       (evs : list (Order * list BItem)) =>
     forall s key rec vk,
       JsMap.get (maps s) key = Some rec ->
       default 0 (JsMap.get (variants rec) vk)
       = length (variant_hits s key vk evs)).

Lemma tallied_step maps evs e :
  agrees variant maps evs -> tallied maps evs ->
  tallied (ev_step localeCompare variant maps e) (evs ++ [e]).
Proof.
  intros Hag Htal s key rec vk.
  destruct (decide ((s, key) = (length e.2, bundleKey variant e.2)))
    as [[= -> ->]|Hne].
  - specialize (Hag (length e.2) (bundleKey variant e.2)).
    specialize (Htal (length e.2) (bundleKey variant e.2)).
    rewrite hits_snoc, Nat.eqb_refl, String.eqb_refl. cbn [andb].
    rewrite List.filter_app, length_app. cbn [List.filter].
    unfold ev_step, comb_step, JsMap.has.
    destruct (JsMap.get (maps (length e.2)) (bundleKey variant e.2))
      as [old|] eqn:Hget.
    + rewrite Hget, upd_eq, get_set_eq. intros [= <-]. cbn [variants].
      rewrite <- (Htal old vk eq_refl).
      destruct (String.eqb_spec (variantKey localeCompare e.2) vk)
        as [<-|Hvk].
      * rewrite get_set_eq. reflexivity.
      * rewrite get_set_ne by exact Hvk. cbn [length]. lia.
    + rewrite get_set_eq, upd_eq, get_set_eq. intros [= <-].
      rewrite Hag.
      cbn [variants new_rec JsMap.set JsMap.get List.filter length].
      destruct (String.eqb (variantKey localeCompare e.2) vk); reflexivity.
  - destruct (ev_step_get localeCompare variant maps e) as [_ Hother].
    rewrite Hother by exact Hne. intros Hget.
    rewrite (Htal _ _ _ vk Hget), hits_snoc.
    assert ((length e.2 =? s) && String.eqb (bundleKey variant e.2) key
            = false) as ->.
    { apply andb_false_iff.
      destruct (Nat.eqb_spec (length e.2) s) as [<-|]; [|by left].
      right. apply String.eqb_neq. congruence. }
    by rewrite app_nil_r.
Qed.

Lemma tallied_fold evs' : forall maps evs,
  agrees variant maps evs -> tallied maps evs ->
  tallied (fold_left (ev_step localeCompare variant) evs' maps)
          (evs ++ evs').
Proof.
  induction evs' as [|e evs' IH]; intros maps evs Hag Htal.
  - rewrite app_nil_r. exact Htal.
  - cbn [fold_left].
    replace (evs ++ e :: evs') with ((evs ++ [e]) ++ evs')
      by (by rewrite <- app_assoc).
    apply IH; [by apply agrees_step | by apply tallied_step].
Qed.

(** X28: what the variant counts count.  In a record, the count kept for
    a variant string is the number of contributions to the record whose
    combination has this variant string, and a variant string has an
    entry exactly when there is such a contribution. *)
Theorem variant_counts_meaning (maxSize : nat) (orders : list Order)
        (s : nat) (key : string) (rec : Rec) (vk : string) :
  JsMap.get (build_maps localeCompare variant explodeGummies maxSize orders s)
            key = Some rec ->
  let contributing :=
    List.filter (fun e : Order * list BItem =>
                   String.eqb (variantKey localeCompare e.2) vk)
      (hits variant s key
            (events localeCompare variant explodeGummies maxSize orders)) in
  default 0 (JsMap.get (variants rec) vk) = length contributing /\
  (JsMap.has (variants rec) vk = true <-> contributing <> []).
Proof.
  intros Hget. cbv zeta.
  assert (default 0 (JsMap.get (variants rec) vk)
          = length (variant_hits s key vk
                      (events localeCompare variant explodeGummies
                              maxSize orders))) as Hv.
  { revert Hget. rewrite build_maps_events. intros Hget.
    apply (tallied_fold _ (fun _ => []) []) with (s := s) (key := key).
    - intros s' key'. reflexivity.
    - intros s' key' rec' vk' [=].
    - exact Hget. }
  split; [exact Hv|].
  destruct (maps_ok_build localeCompare variant explodeGummies
              maxSize orders s key rec Hget) as ((_ & Hall & _ & _) & _).
  unfold JsMap.has.
  destruct (JsMap.get (variants rec) vk) as [n|] eqn:G; cbn in Hv.
  - pose proof (proj1 (Forall_forall _ _) Hall _ (get_elem_of _ _ _ G))
      as Hn. cbn in Hn.
    split; [intros _ H; rewrite H in Hv; cbn in Hv; lia | reflexivity].
  - split; [discriminate|]. intros H.
    destruct (List.filter _ _); [done | discriminate].
Qed.

End VariantFacts.

Lemma variant_counts_meaning_witness :
  exists rec,
    JsMap.get (Bundles.build_maps String.compare Bundles.ByDisplayName false
                 7 Demo.two_orders 1) "Protein Bar" = Some rec /\
    default 0 (JsMap.get (Bundles.variants rec) "Protein Bar") = 2.
Proof.
  eexists. split; [vm_compute; reflexivity|].
  destruct (variant_counts_meaning String.compare Bundles.ByDisplayName false
              7 Demo.two_orders 1 "Protein Bar" _ "Protein Bar"
              ltac:(vm_compute; reflexivity)) as [H _].
  reflexivity.
Defined.

(** ** The sample of a record *)

Section SampleFacts.
Import Bundles.
Variable localeCompare : string -> string -> comparison.
Variable variant : Variant.
Variable explodeGummies : bool.

Lemma filter_nil_existsb {T : Type} (p : T -> bool) (l : list T) :
  List.filter p l = [] -> existsb p l = false.
Proof.
  induction l as [|x l IH]; [reflexivity|]. cbn [List.filter existsb].
  destruct (p x); [discriminate | exact IH].
Qed.

Lemma filter_cons_existsb {T : Type} (p : T -> bool) (l : list T) x r :
  List.filter p l = x :: r -> existsb p l = true /\ x ∈ l.
Proof.
  intros E.
  assert (x ∈ List.filter p l) as [Hin Hp]%elem_of_filter_bool
    by (rewrite E; left).
  split; [|exact Hin]. apply existsb_exists. exists x.
  split; [by apply list_elem_of_In | exact Hp].
Qed.

Lemma order_events_fst maxSize o e :
  e ∈ order_events localeCompare variant explodeGummies maxSize o -> e.1 = o.
Proof.
  unfold order_events. destruct (negb _); [inversion 1|].
  destruct (_ <? 1); [inversion 1|].
  by intros (c & -> & _)%list_elem_of_fmap.
Qed.

(** An order whose keys hold no bar reaches a key at most once. *)
Lemma order_hits_once maxSize o s key :
  negb (is_eligible variant o)
  || forallb bar_free
       (keyOf variant <$> extractLineItems variant explodeGummies o) = true ->
  length (hits variant s key
            (order_events localeCompare variant explodeGummies maxSize o))
  <= 1.
Proof.
  intros Hfree. unfold order_events.
  destruct (is_eligible variant o); [|cbn; lia].
  cbn [negb orb] in Hfree |- *. destruct (length _ <? 1); [cbn; lia|].
  unfold hits. rewrite filter_bool_fmap, length_fmap. cbn [fst snd].
  set (sorted := sort _ _).
  assert (NoDup (keyOf variant <$> sorted)) as Hnd
    by apply sorted_keys_NoDup.
  assert (forallb bar_free (keyOf variant <$> sorted) = true) as Hs.
  { eapply (keys_free_subseteq variant); [exact Hfree|].
    intros x Hx. unfold sorted in Hx. by rewrite sort_perm in Hx. }
  apply NoDup_all_equal.
  - apply (sublist_NoDup _ (enumerate maxSize sorted));
      [|apply filter_bool_sublist].
    apply enumerate_NoDup. eapply NoDup_fmap_1, Hnd.
  - intros x y [Hx Hpx]%elem_of_filter_bool [Hy Hpy]%elem_of_filter_bool.
    apply elem_of_enumerate in Hx as [Hx _].
    apply elem_of_enumerate in Hy as [Hy _].
    apply andb_true_iff in Hpx as [Hlx%Nat.eqb_eq Hkx%String.eqb_eq].
    apply andb_true_iff in Hpy as [Hly%Nat.eqb_eq Hky%String.eqb_eq].
    eapply (fmap_eq_inj_on (keyOf variant) sorted);
      [apply fmap_inj_on, Hnd | by apply sublist_subseteq
      | by apply sublist_subseteq |].
    apply bundleKey_inj; [| |congruence|congruence];
      (eapply (keys_free_subseteq variant); [exact Hs|]);
      by apply sublist_subseteq.
Qed.

(** What an order adds to the list of the references of a key. *)
Lemma order_hits_ref {X : Type} (f : Order -> X) maxSize o s key :
  negb (is_eligible variant o)
  || forallb bar_free
       (keyOf variant <$> extractLineItems variant explodeGummies o) = true ->
  (fun e : Order * list BItem => f e.1) <$>
    hits variant s key
         (order_events localeCompare variant explodeGummies maxSize o)
  = if contributes localeCompare variant explodeGummies maxSize s key o
    then [f o] else [].
Proof.
  intros Hfree. pose proof (order_hits_once maxSize o s key Hfree) as Hone.
  unfold contributes, hits in *.
  destruct (List.filter _ _) as [|e [|e' r]] eqn:E.
  - by rewrite (filter_nil_existsb _ _ E).
  - destruct (filter_cons_existsb _ _ _ _ E) as [-> Hin].
    cbn. by rewrite (order_events_fst _ _ _ Hin).
  - cbn in Hone. lia.
Qed.

Lemma hits_refs {X : Type} (f : Order -> X) maxSize s key orders :
  forallb
    (fun o => negb (is_eligible variant o)
              || forallb bar_free
                   (keyOf variant <$>
                    extractLineItems variant explodeGummies o))
    orders = true ->
  (fun e : Order * list BItem => f e.1) <$>
    hits variant s key
         (events localeCompare variant explodeGummies maxSize orders)
  = f <$> List.filter
            (contributes localeCompare variant explodeGummies maxSize s key)
            orders.
Proof.
  induction orders as [|o orders IH]; [reflexivity|].
  cbn [forallb]. intros [Ho Hrest]%andb_true_iff.
  assert (forall a b, hits variant s key (a ++ b)
                      = hits variant s key a ++ hits variant s key b) as Happ
    by (intros; apply List.filter_app).
  unfold events in *. cbn [flat_map].
  rewrite Happ, fmap_app, IH by exact Hrest.
  rewrite (order_hits_ref f maxSize o s key Ho). cbn [List.filter].
  by destruct (contributes _ _ _ _ _ _ o).
Qed.

(** X30: the sample of a record is bounded and first-seen.  It never
    holds more than 6 references; each reference holds the id of an order
    and the first of its dates [date_created], [date_created_gmt] and
    [date_modified] that is set; the sample is the list of the references
    of the first (at most 6) contributions to the itemset, in their
    order, and orders that come later in the dataset only extend it.
    Where no key of an item of an accepted order holds the character of
    the key separator, as is always the case in the page that keys by
    product id, an order contributes to an itemset at most once, and the
    sample is the list of the references of the first (at most 6) orders
    that contribute to the itemset, in the order of the dataset. *)
Theorem sample_first_orders
        (maxSize : nat) (orders : list Order) (s : nat) (key : string)
        (rec : Rec) :
  JsMap.get (build_maps localeCompare variant explodeGummies maxSize orders s)
            key = Some rec ->
  let ref := fun o : Order =>
    mkSampleRef (o_id o)
      (Js.nullish (o_date_created o)
         (Js.nullish (o_date_created_gmt o) (o_date_modified o))) in
  let contributing :=
    List.filter
      (contributes localeCompare variant explodeGummies maxSize s key)
      orders in
  length (sample rec) <= 6 /\
  sample rec
  = take 6 ((fun e : Order * list BItem => ref e.1) <$>
            hits variant s key
                 (events localeCompare variant explodeGummies maxSize
                         orders)) /\
  (forall more rec',
     JsMap.get (build_maps localeCompare variant explodeGummies maxSize
                           (orders ++ more) s) key = Some rec' ->
     sample rec `prefix_of` sample rec') /\
  (forallb
     (fun o => negb (is_eligible variant o)
               || forallb bar_free
                    (keyOf variant <$>
                     extractLineItems variant explodeGummies o))
     orders = true ->
   sample rec = take 6 (ref <$> contributing)) /\
  (variant = ByProductId -> sample rec = take 6 (ref <$> contributing)).
Proof.
  intros Hget ref contributing.
  pose proof (agrees_build localeCompare variant explodeGummies maxSize
                orders s key) as Inv.
  rewrite Hget in Inv. destruct Inv as (_ & _ & Hs).
  change (fun e : Order * list BItem => sample_ref e.1)
    with (fun e : Order * list BItem => ref e.1) in Hs.
  assert (forallb
            (fun o => negb (is_eligible variant o)
                      || forallb bar_free
                           (keyOf variant <$>
                            extractLineItems variant explodeGummies o))
            orders = true ->
          sample rec = take 6 (ref <$> contributing)) as Hfree.
  { intros Hfree. rewrite Hs. f_equal. by apply hits_refs. }
  split; [|split; [|split; [|split]]].
  - rewrite Hs, length_take. lia.
  - exact Hs.
  - intros more rec' Hget'.
    pose proof (agrees_build localeCompare variant explodeGummies maxSize
                  (orders ++ more) s key) as Inv'.
    rewrite Hget' in Inv'. destruct Inv' as (_ & _ & Hs').
    change (fun e : Order * list BItem => sample_ref e.1)
      with (fun e : Order * list BItem => ref e.1) in Hs'.
    rewrite Hs, Hs'. unfold events, hits.
    rewrite flat_map_app, List.filter_app, fmap_app, take_app.
    eexists. reflexivity.
  - exact Hfree.
  - intros Hv. apply Hfree. apply forallb_forall. intros o _.
    rewrite Hv, productId_keys_free. apply orb_true_r.
Qed.

End SampleFacts.

Lemma sample_first_orders_witness :
  exists rec,
    JsMap.get (Bundles.build_maps String.compare Bundles.ByDisplayName false
                 Bundles.MAX_SIZE Demo.seven_orders 1) "Protein Bar"
    = Some rec /\
    Bundles.count rec = 7 /\
    length (Bundles.sample rec) <= 6 /\
    Bundles.sample rec
    = (fun id => Bundles.mkSampleRef (Some id) None)
        <$> [101; 102; 103; 104; 105; 106]%Z.
Proof.
  eexists. split; [vm_compute; reflexivity|]. split; [reflexivity|].
  destruct (sample_first_orders String.compare Bundles.ByDisplayName
              false Bundles.MAX_SIZE Demo.seven_orders 1 "Protein Bar" _
              ltac:(vm_compute; reflexivity)) as (H1 & _ & _ & H2 & _).
  split; [exact H1|].
  rewrite H2 by (vm_compute; reflexivity). vm_compute. reflexivity.
Defined.
